(** * Tête-à-tête relay transport: envelope codec, relay link, orchestrator

    A shallow embedding of the relay transport of the repository:
    - [src/relay/keypair.ts] and the two envelope codecs
      ([Sealed]: the codec of [src/unnamed/part_003], keyed by the two
       sorted public keys; [Ecdh]: the codec of [src/relay/encryption.ts]);
    - [RelayClient.publish] of [src/relay/relay-client.ts];
    - [RelayTransport] of [src/relay/relay-transport.ts].

    Node's library functions (hashing, signing, the AEAD cipher, base64,
    JSON) are parameters, collected in [Primitives]; what is assumed of
    them is stated as named laws and every theorem lists the laws it uses.
    Buffers are lists of bytes. A JavaScript string, a sequence of UTF-16
    code units, is represented by bytes as well: the UTF-8 encoding of its
    characters, where an unpaired surrogate, which has no UTF-8 encoding,
    is written as the three bytes generalised UTF-8 gives it
    ([ED A0..BF 80..BF]); a surrogate pair is the four bytes of its
    character. *)

From Stdlib Require Import ZArith NArith Strings.Byte Strings.String Strings.Ascii.
From stdpp Require Import gmap strings list fin_maps pretty countable.

Local Open Scope string_scope.
Local Open Scope list_scope.

(** ** Buffers *)

Abbreviation Buffer := (list byte).

#[global] Instance byte_eq_decision : EqDecision byte := Byte.byte_eq_dec.

(** *** UTF-8, [Buffer.from(s, "utf8")] and [buf.toString("utf8")] *)

Definition in_range (lo hi : N) (x : byte) : bool :=
  ((lo <=? Byte.to_N x) && (Byte.to_N x <=? hi))%N.

(** The number of bytes that follow the first byte of a UTF-8 sequence,
    [None] for a byte that begins none; and the bounds of the byte that
    follows a first byte (they exclude the overlong forms, the surrogates
    and what lies beyond U+10FFFF). *)
Definition continuation_count (x : byte) : option nat :=
  if in_range 0 127 x then Some 0
  else if in_range 194 223 x then Some 1
  else if in_range 224 239 x then Some 2
  else if in_range 240 244 x then Some 3
  else None.

Definition second_byte_bounds (x : byte) : N * N :=
  match x with
  | xe0 => (160, 191)
  | xed => (128, 159)
  | xf0 => (144, 191)
  | xf4 => (128, 143)
  | _ => (128, 191)
  end%N.

(** U+FFFD, the replacement character, in UTF-8. *)
Definition replacement_character : Buffer := [xef; xbf; xbd].

(** The bytes are UTF-8: [need] bytes of the sequence begun are still to
    come, the next of them within [lo..hi]. *)
Fixpoint utf8_from (need : nat) (lo hi : N) (b : Buffer) : bool :=
  match b with
  | [] => match need with 0 => true | S _ => false end
  | x :: rest =>
      match need with
      | 0 =>
          match continuation_count x with
          | Some n => utf8_from n (second_byte_bounds x).1 (second_byte_bounds x).2 rest
          | None => false
          end
      | S n => in_range lo hi x && utf8_from n 128 191 rest
      end
  end.

Definition is_utf8 (b : Buffer) : bool := utf8_from 0 128 191 b.

(** A string is well formed when it has no unpaired surrogate: its bytes
    are UTF-8. *)
Definition well_formed (s : string) : Prop := is_utf8 (list_byte_of_string s) = true.

(** [Buffer.from(s, "utf8")]: the UTF-8 encoding of the string, with U+FFFD
    in place of each unpaired surrogate. *)
Fixpoint replace_surrogates (b : Buffer) : Buffer :=
  match b with
  | [] => []
  | x :: tl =>
      if Byte.eqb x xed then
        match tl with
        | y :: z :: rest =>
            if in_range 160 191 y && in_range 128 191 z
            then replacement_character ++ replace_surrogates rest
            else x :: replace_surrogates tl
        | _ => x :: replace_surrogates tl
        end
      else x :: replace_surrogates tl
  end.

Definition Buffer_from_utf8 (s : string) : Buffer :=
  replace_surrogates (list_byte_of_string s).

(** [buf.toString("utf8")]: the decoder of the Encoding standard. A sequence
    that is complete and within its bounds is kept; a byte that begins no
    sequence gives U+FFFD; a sequence cut short by a byte out of its bounds,
    or by the end of the buffer, gives one U+FFFD, and the byte that cut it
    short is read again as a first byte. [pending] holds the bytes of the
    sequence begun. *)
Fixpoint decode_from (need : nat) (lo hi : N) (pending : Buffer) (b : Buffer) : Buffer :=
  match b with
  | [] => match need with 0 => [] | S _ => replacement_character end
  | x :: rest =>
      let first :=
        match continuation_count x with
        | Some 0 => x :: decode_from 0 128 191 [] rest
        | Some n => decode_from n (second_byte_bounds x).1 (second_byte_bounds x).2 [x] rest
        | None => replacement_character ++ decode_from 0 128 191 [] rest
        end in
      match need with
      | 0 => first
      | S n =>
          if in_range lo hi x then
            match n with
            | 0 => pending ++ x :: decode_from 0 128 191 [] rest
            | S _ => decode_from n 128 191 (pending ++ [x]) rest
            end
          else replacement_character ++ first
      end
  end.

Definition Buffer_toString_utf8 (b : Buffer) : string :=
  string_of_list_byte (decode_from 0 128 191 [] b).

(** *** Hexadecimal, [buf.toString("hex")] and [Buffer.from(s, "hex")] *)

Definition hex_digit (n : N) : ascii :=
  if (n <? 10)%N then ascii_of_N (48 + n) else ascii_of_N (87 + n).

Definition hex_value (c : ascii) : option N :=
  let n := N_of_ascii c in
  if ((48 <=? n) && (n <=? 57))%N then Some (n - 48)%N
  else if ((97 <=? n) && (n <=? 102))%N then Some (n - 87)%N
  else if ((65 <=? n) && (n <=? 70))%N then Some (n - 55)%N
  else None.

Fixpoint Buffer_toString_hex (b : Buffer) : string :=
  match b with
  | [] => EmptyString
  | x :: b' =>
      String (hex_digit (Byte.to_N x / 16))
        (String (hex_digit (Byte.to_N x mod 16)) (Buffer_toString_hex b'))
  end.

(** Node decodes hex pair by pair and stops at the first pair that is not
    two hex digits; a trailing single character is dropped. *)
Fixpoint Buffer_from_hex (s : string) : Buffer :=
  match s with
  | String hi (String lo s') =>
      match hex_value hi, hex_value lo with
      | Some h, Some l =>
          match Byte.of_N (16 * h + l) with
          | Some x => x :: Buffer_from_hex s'
          | None => []
          end
      | _, _ => []
      end
  | _ => []
  end.

(** *** [buf.subarray(start, end)] *)

Definition adjustOffset (offset : Z) (len : nat) : nat :=
  if (offset <? 0)%Z then Z.to_nat (offset + Z.of_nat len)
  else Nat.min (Z.to_nat offset) len.

Definition subarray (b : Buffer) (start : Z) (end_ : option Z) : Buffer :=
  let s := adjustOffset start (length b) in
  let e := match end_ with
           | Some e => adjustOffset e (length b)
           | None => length b
           end in
  take (e - s) (drop s b).

(** *** [Buffer.compare] and [[a, b].sort(Buffer.compare)] *)

Fixpoint Buffer_compare (a b : Buffer) : comparison :=
  match a, b with
  | [], [] => Eq
  | [], _ :: _ => Lt
  | _ :: _, [] => Gt
  | x :: a', y :: b' =>
      match N.compare (Byte.to_N x) (Byte.to_N y) with
      | Eq => Buffer_compare a' b'
      | c => c
      end
  end.

(** Sorting a two-element array: the elements are exchanged exactly when the
    comparator is positive on (first, second). *)
Definition sort2 (a b : Buffer) : Buffer * Buffer :=
  match Buffer_compare a b with
  | Gt => (b, a)
  | _ => (a, b)
  end.

(** ** Keypairs, [keypair.ts] *)

Record Keypair := { publicKey : Buffer; privateKey : Buffer }.

Definition publicKeyToHex (pk : Buffer) : string := Buffer_toString_hex pk.
Definition hexToPublicKey (hex : string) : Buffer := Buffer_from_hex hex.

(** ** Results of calls that may throw *)

Inductive outcome (A : Type) : Type :=
| Returned (a : A)
| Thrown (message : string).
Arguments Returned {A} a.
Arguments Thrown {A} message.

(** ** Node's primitives *)

Record Primitives := {
  (** [buf.toString("base64")], [Buffer.from(s, "base64")] *)
  base64_encode : Buffer -> string;
  base64_decode : string -> Buffer;
  (** [createHash("sha256").update(b).digest()] *)
  sha256 : Buffer -> Buffer;
  (** the Ed25519 public key of a 32-byte private seed *)
  ed25519_public : Buffer -> Buffer;
  (** [crypto.sign(null, data, key)] with [key] built from the raw private
      key; [crypto.verify(null, data, key, signature)] with [key] built from
      the raw public key *)
  cryptoSign : Buffer -> Buffer -> outcome Buffer;
  cryptoVerify : Buffer -> Buffer -> Buffer -> outcome bool;
  (** [createSign(algorithm).update(data).sign(key)] and
      [createVerify(algorithm).update(data).verify(key, signature)], for an
      algorithm that is a string *)
  streamSign : string -> Buffer -> Buffer -> outcome Buffer;
  streamVerify : string -> Buffer -> Buffer -> Buffer -> outcome bool;
  (** [createPrivateKey({ key, format: "der", type: "pkcs8" })] and
      [createPublicKey({ key, format: "der", type: "spki" })]; the key
      object is represented by the raw bytes of the key *)
  createPrivateKey : Buffer -> outcome Buffer;
  createPublicKey : Buffer -> outcome Buffer;
  (** ChaCha20-Poly1305 with a 16-byte tag: [createCipheriv], [update],
      [final], [getAuthTag]; and [createDecipheriv], [setAuthTag], [update],
      [final] *)
  chacha20poly1305_encrypt : Buffer -> Buffer -> Buffer -> outcome (Buffer * Buffer);
  chacha20poly1305_decrypt : Buffer -> Buffer -> Buffer -> Buffer -> outcome Buffer;
  (** [diffieHellman] on an X25519 private and an X25519 public key, both
      given by their raw bytes *)
  diffieHellman : Buffer -> Buffer -> outcome Buffer;
}.

(** What is assumed of the primitives. *)

Definition base64_sound (P : Primitives) : Prop :=
  forall b : Buffer, base64_decode P (base64_encode P b) = b.

Definition sha256_sound (P : Primitives) : Prop :=
  forall b : Buffer, length (sha256 P b) = 32.

Definition ed25519_sound (P : Primitives) : Prop :=
  forall seed data : Buffer,
    length seed = 32 ->
    exists s, cryptoSign P data seed = Returned s
              /\ cryptoVerify P data (ed25519_public P seed) s = Returned true.

Definition aead_sound (P : Primitives) : Prop :=
  forall key nonce pt : Buffer,
    length key = 32 -> length nonce = 12 ->
    exists ct tag,
      chacha20poly1305_encrypt P key nonce pt = Returned (ct, tag)
      /\ length tag = 16
      /\ chacha20poly1305_decrypt P key nonce ct tag = Returned pt.

(** A keypair as [generateKeypair] makes it. *)
Definition valid_keypair (P : Primitives) (kp : Keypair) : Prop :=
  length (privateKey kp) = 32
  /\ publicKey kp = ed25519_public P (privateKey kp).

(** ** Effects of the codec: the random source and the order of the
    cryptographic operations *)

Inductive CryptoOp :=
| OpRandomBytes (n : nat) (out : Buffer)
| OpHash (input : Buffer)
| OpSign (data priv : Buffer)
| OpVerify (data pub sig : Buffer)
| OpCipher (key nonce plaintext : Buffer)
| OpDecipher (key nonce data tag : Buffer)
| OpDiffieHellman (priv pub : Buffer)
| OpGenerateKeyPair (seed : Buffer).

(** The random source is a sequence of bytes read from left to right;
    [ops] records the operations performed, latest last. *)
Record World := {
  entropy : nat -> byte;
  cursor : nat;
  ops : list CryptoOp;
}.

Definition Eff (A : Type) : Type := World -> outcome A * World.

Definition ret {A} (a : A) : Eff A := fun w => (Returned a, w).
Definition throw {A} (msg : string) : Eff A := fun w => (Thrown msg, w).
Definition bind {A B} (m : Eff A) (k : A -> Eff B) : Eff B :=
  fun w => match m w with
           | (Returned a, w') => k a w'
           | (Thrown msg, w') => (Thrown msg, w')
           end.
(** [try { m } catch (err) { h(err.message) }] *)
Definition try_catch {A} (m : Eff A) (h : string -> Eff A) : Eff A :=
  fun w => match m w with
           | (Returned a, w') => (Returned a, w')
           | (Thrown msg, w') => h msg w'
           end.

#[global] Instance Eff_ret : MRet Eff := @ret.
#[global] Instance Eff_bind : MBind Eff := fun A B k m => bind m k.

Definition record (o : CryptoOp) : Eff unit :=
  fun w => (Returned tt, {| entropy := entropy w; cursor := cursor w; ops := ops w ++ [o] |}).

Definition lift {A} (o : outcome A) : Eff A := fun w => (o, w).

Definition randomBytes (n : nat) : Eff Buffer :=
  fun w =>
    let out := map (entropy w) (seq (cursor w) n) in
    (Returned out,
     {| entropy := entropy w; cursor := cursor w + n;
        ops := ops w ++ [OpRandomBytes n out] |}).

(** [createSign(algorithm)] and [createVerify(algorithm)]. Node checks the
    argument before anything else: an algorithm that is not a string, such
    as [null] ([None] here), makes the call throw a [TypeError]. The object
    returned is represented by the algorithm it was made for. *)
Definition double_quote : string := String (ascii_of_nat 34) EmptyString.

Definition invalid_algorithm : string :=
  "The " +:+ double_quote +:+ "algorithm" +:+ double_quote
  +:+ " argument must be of type string. Received null".

Definition createSign (algorithm : option string) : Eff string :=
  match algorithm with
  | Some name => ret name
  | None => throw invalid_algorithm
  end.

Definition createVerify (algorithm : option string) : Eff string :=
  match algorithm with
  | Some name => ret name
  | None => throw invalid_algorithm
  end.

(** [{ success: true; plaintext } | { success: false; error }] *)
Inductive DecryptResult :=
| Success (plaintext : string)
| Failure (error : string).

(** ** The envelope codec keyed by the sorted public keys
    ([encryptMessage] and [decryptMessage] of [src/unnamed/part_003]) *)

Module Sealed.

Record EncryptedMessage := {
  ciphertext : string;
  nonce : string;
  senderPubKey : string;
  signature : string;
  ephemeralPubKey : string;
}.

Section WithPrimitives.
Context (P : Primitives).

(** [createHash("sha256").update(c1).update(c2)....digest()] *)
Definition createHash_sha256 (chunks : list Buffer) : Eff Buffer :=
  _ ← record (OpHash (concat chunks));
  mret (sha256 P (concat chunks)).

(** [generateKeyPairSync("x25519")]: the key is drawn from the random
    source; the codec makes no use of it. *)
Definition generateKeyPairSync_x25519 : Eff unit :=
  fun w =>
    let seed := map (entropy w) (seq (cursor w) 32) in
    (Returned tt,
     {| entropy := entropy w; cursor := cursor w + 32;
        ops := ops w ++ [OpGenerateKeyPair seed] |}).

Definition sign (data privateKey : Buffer) : Eff Buffer :=
  _ ← record (OpSign data privateKey);
  lift (cryptoSign P data privateKey).

Definition verify (data signature publicKey : Buffer) : Eff bool :=
  _ ← record (OpVerify data publicKey signature);
  lift (cryptoVerify P data publicKey signature).

Definition cipher (key nonce plaintext : Buffer) : Eff (Buffer * Buffer) :=
  _ ← record (OpCipher key nonce plaintext);
  lift (chacha20poly1305_encrypt P key nonce plaintext).

Definition decipher (key nonce data tag : Buffer) : Eff Buffer :=
  _ ← record (OpDecipher key nonce data tag);
  lift (chacha20poly1305_decrypt P key nonce data tag).

Definition domain_separation : Buffer := Buffer_from_utf8 "tete-a-tete-v1".

Definition encryptMessage (plaintext : string) (senderKeypair : Keypair)
    (recipientPublicKey : Buffer) : Eff EncryptedMessage :=
  _ ← generateKeyPairSync_x25519;
  nonceBuf ← randomBytes 12;
  let sortedKeys := sort2 (publicKey senderKeypair) recipientPublicKey in
  keyMaterial ← createHash_sha256 [sortedKeys.1; sortedKeys.2; domain_separation];
  let plaintextBuf := Buffer_from_utf8 plaintext in
  sealed ← cipher keyMaterial nonceBuf plaintextBuf;
  let ciphertextBuf := sealed.1 ++ sealed.2 in
  let toSign := ciphertextBuf ++ nonceBuf in
  signatureBuf ← sign toSign (privateKey senderKeypair);
  mret {| ciphertext := base64_encode P ciphertextBuf;
          nonce := base64_encode P nonceBuf;
          senderPubKey := Buffer_toString_hex (publicKey senderKeypair);
          signature := base64_encode P signatureBuf;
          ephemeralPubKey := "" |}.

Definition decryptMessage (encrypted : EncryptedMessage)
    (recipientKeypair : Keypair) : Eff DecryptResult :=
  try_catch
    (let ciphertextBuf := base64_decode P (ciphertext encrypted) in
     let nonceBuf := base64_decode P (nonce encrypted) in
     let senderPubKeyBuf := Buffer_from_hex (senderPubKey encrypted) in
     let signatureBuf := base64_decode P (signature encrypted) in
     let toVerify := ciphertextBuf ++ nonceBuf in
     ok ← verify toVerify signatureBuf senderPubKeyBuf;
     if negb ok then mret (Failure "Invalid signature")
     else
       let sortedKeys := sort2 senderPubKeyBuf (publicKey recipientKeypair) in
       keyMaterial ← createHash_sha256 [sortedKeys.1; sortedKeys.2; domain_separation];
       let len := Z.of_nat (length ciphertextBuf) in
       let authTag := subarray ciphertextBuf (len - 16) None in
       let encryptedData := subarray ciphertextBuf 0 (Some (len - 16)%Z) in
       decrypted ← decipher keyMaterial nonceBuf encryptedData authTag;
       mret (Success (Buffer_toString_utf8 decrypted)))
    (fun message => mret (Failure message)).

End WithPrimitives.
End Sealed.

(** ** The envelope codec of [src/relay/encryption.ts] (X25519 agreement)

    A [KeyObject] is represented by the raw bytes of its key. *)

Module Ecdh.

Record EncryptedMessage := {
  ciphertext : string;
  nonce : string;
  senderPubKey : string;
  signature : string;
}.

(** The DER prefixes written out in the source: PKCS#8 and SPKI, for
    Ed25519 and for X25519. *)
Definition pkcs8_ed25519 : Buffer :=
  [x30; x2e; x02; x01; x00; x30; x05; x06; x03; x2b; x65; x70; x04; x22; x04; x20].
Definition pkcs8_x25519 : Buffer :=
  [x30; x2e; x02; x01; x00; x30; x05; x06; x03; x2b; x65; x6e; x04; x22; x04; x20].
Definition spki_ed25519 : Buffer :=
  [x30; x2a; x30; x05; x06; x03; x2b; x65; x70; x03; x21; x00].
Definition spki_x25519 : Buffer :=
  [x30; x2a; x30; x05; x06; x03; x2b; x65; x6e; x03; x21; x00].

Section WithPrimitives.
Context (P : Primitives).

(** The X25519 private key is built from [jwk.d] of the Ed25519 private
    key, that is from the same 32 raw bytes. *)
Definition ed25519PrivateToX25519 (ed25519Private : Buffer) : Eff Buffer :=
  edKey ← lift (createPrivateKey P (pkcs8_ed25519 ++ ed25519Private));
  let x25519Private := edKey in
  lift (createPrivateKey P (pkcs8_x25519 ++ x25519Private)).

(** The X25519 public key is built from [jwk.x] of the Ed25519 public key,
    that is from the same 32 raw bytes. *)
Definition ed25519PublicToX25519 (ed25519Public : Buffer) : Eff Buffer :=
  edKey ← lift (createPublicKey P (spki_ed25519 ++ ed25519Public));
  let x25519Public := edKey in
  lift (createPublicKey P (spki_x25519 ++ x25519Public)).

Definition deriveSharedSecret (ourPrivate theirPublic : Buffer) : Eff Buffer :=
  ourX25519 ← ed25519PrivateToX25519 ourPrivate;
  theirX25519 ← ed25519PublicToX25519 theirPublic;
  _ ← record (OpDiffieHellman ourX25519 theirX25519);
  lift (diffieHellman P ourX25519 theirX25519).

(** [sign] and [verify] build the key and then call [createSign(null)] and
    [createVerify(null)]. *)
Definition sign (data privateKey : Buffer) : Eff Buffer :=
  key ← lift (createPrivateKey P (pkcs8_ed25519 ++ privateKey));
  signer ← createSign None;
  _ ← record (OpSign data key);
  lift (streamSign P signer data key).

Definition verify (data signature publicKey : Buffer) : Eff bool :=
  key ← lift (createPublicKey P (spki_ed25519 ++ publicKey));
  verifier ← createVerify None;
  _ ← record (OpVerify data key signature);
  lift (streamVerify P verifier data key signature).

Definition cipher (key nonce plaintext : Buffer) : Eff (Buffer * Buffer) :=
  _ ← record (OpCipher key nonce plaintext);
  lift (chacha20poly1305_encrypt P key nonce plaintext).

Definition decipher (key nonce data tag : Buffer) : Eff Buffer :=
  _ ← record (OpDecipher key nonce data tag);
  lift (chacha20poly1305_decrypt P key nonce data tag).

Definition encryptMessage (plaintext : string) (senderKeypair : Keypair)
    (recipientPublicKey : Buffer) : Eff EncryptedMessage :=
  sharedSecret ← deriveSharedSecret (privateKey senderKeypair) recipientPublicKey;
  nonceBuf ← randomBytes 24;
  let plaintextBuf := Buffer_from_utf8 plaintext in
  sealed ← cipher (subarray sharedSecret 0 (Some 32%Z))
                  (subarray nonceBuf 0 (Some 12%Z)) plaintextBuf;
  let ciphertextBuf := sealed.1 ++ sealed.2 in
  signatureBuf ← sign ciphertextBuf (privateKey senderKeypair);
  mret {| ciphertext := base64_encode P ciphertextBuf;
          nonce := base64_encode P nonceBuf;
          senderPubKey := Buffer_toString_hex (publicKey senderKeypair);
          signature := base64_encode P signatureBuf |}.

Definition decryptMessage (encrypted : EncryptedMessage)
    (recipientKeypair : Keypair) : Eff DecryptResult :=
  try_catch
    (let ciphertextBuf := base64_decode P (ciphertext encrypted) in
     let nonceBuf := base64_decode P (nonce encrypted) in
     let senderPubKeyBuf := Buffer_from_hex (senderPubKey encrypted) in
     let signatureBuf := base64_decode P (signature encrypted) in
     ok ← verify ciphertextBuf signatureBuf senderPubKeyBuf;
     if negb ok then mret (Failure "Invalid signature")
     else
       sharedSecret ← deriveSharedSecret (privateKey recipientKeypair) senderPubKeyBuf;
       let len := Z.of_nat (length ciphertextBuf) in
       let authTag := subarray ciphertextBuf (len - 16) None in
       let encryptedData := subarray ciphertextBuf 0 (Some (len - 16)%Z) in
       decrypted ← decipher (subarray sharedSecret 0 (Some 32%Z))
                            (subarray nonceBuf 0 (Some 12%Z)) encryptedData authTag;
       mret (Success (Buffer_toString_utf8 decrypted)))
    (fun message => mret (Failure message)).

End WithPrimitives.
End Ecdh.


(** ** JSON values and the JavaScript operations used on them

    Numbers are restricted to integers. An object lists its properties in
    insertion order; a property read takes the first entry of that name.
    JavaScript's [undefined] is [None]. *)

#[warnings="-register-all"]
Inductive json :=
| JNull
| JBool (b : bool)
| JNum (n : Z)
| JStr (s : string)
| JArr (items : list json)
| JObj (fields : list (string * json)).

(** Truthiness: [if (v)], [!v], [a || b]. *)
Definition truthy (v : option json) : bool :=
  match v with
  | None => false
  | Some JNull => false
  | Some (JBool b) => b
  | Some (JNum n) => negb (n =? 0)%Z
  | Some (JStr s) => negb (String.eqb s "")
  | Some (JArr _) => true
  | Some (JObj _) => true
  end.

Fixpoint assoc (k : string) (fields : list (string * json)) : option json :=
  match fields with
  | [] => None
  | (k', v) :: rest => if String.eqb k k' then Some v else assoc k rest
  end.

(** [v.k]: reading a property of [null] or [undefined] throws; the names
    read by the transport are properties of objects only. *)
Definition get (v : option json) (k : string) : outcome (option json) :=
  match v with
  | None => Thrown ("Cannot read properties of undefined (reading '" +:+ k +:+ "')")
  | Some JNull => Thrown ("Cannot read properties of null (reading '" +:+ k +:+ "')")
  | Some (JObj fields) => Returned (assoc k fields)
  | Some _ => Returned None
  end.

(** [v?.k] *)
Definition get_opt (v : option json) (k : string) : option json :=
  match v with
  | Some (JObj fields) => assoc k fields
  | _ => None
  end.

(** [msg[i]] *)
Definition index (v : json) (i : nat) : outcome (option json) :=
  match v with
  | JNull => Thrown ("Cannot read properties of null (reading '" +:+ pretty i +:+ "')")
  | JArr items => Returned (items !! i)
  | JObj fields => Returned (assoc (pretty i) fields)
  | JStr s => Returned (if decide (i < String.length s)
                        then Some (JStr (String.substring i 1 s)) else None)
  | _ => Returned None
  end.

(** [v === "s"] *)
Definition is_string (v : option json) (s : string) : bool :=
  match v with
  | Some (JStr s') => String.eqb s' s
  | _ => false
  end.

(** [items.find((p) => p.kind === kind)]: the first element whose [kind] is
    the given string; reading [kind] of a [null] element throws. *)
Fixpoint find_kind (kind : string) (items : list json) : outcome (option json) :=
  match items with
  | [] => Returned None
  | JNull :: _ => Thrown "Cannot read properties of null (reading 'kind')"
  | p :: rest =>
      if is_string (get_opt (Some p) "kind") kind then Returned (Some p)
      else find_kind kind rest
  end.

(** [parts.find(...)] on a value that need not be an array. *)
Definition parts_find (parts : option json) (kind : string) : outcome (option json) :=
  match parts with
  | Some (JArr items) => find_kind kind items
  | None => Thrown "Cannot read properties of undefined (reading 'find')"
  | Some JNull => Thrown "Cannot read properties of null (reading 'find')"
  | Some _ => Thrown "parts.find is not a function"
  end.

(** [{ k1: v1, ..., kn: vn }] handed to [JSON.stringify]: a property whose
    value is [undefined] is left out. *)
Definition object (props : list (string * option json)) : json :=
  JObj (omap (fun kv => match kv.2 with Some v => Some (kv.1, v) | None => None end) props).

(** ** The host: JSON text, string conversion, Schnorr signatures *)

Record Host := {
  JSON_stringify : json -> string;
  JSON_parse : string -> outcome json;
  (** [String(v)], as in a template literal *)
  String_of : option json -> string;
  (** [schnorr.getPublicKey(key)], [schnorr.sign(message, key)] of
      [@noble/secp256k1]. Both may throw: on a key that is no valid scalar,
      and the second also when the library has not been given the hash
      function it signs with *)
  schnorr_getPublicKey : Buffer -> outcome Buffer;
  schnorr_sign : Buffer -> Buffer -> outcome Buffer;
}.

Definition json_sound (H : Host) : Prop :=
  forall v : json, JSON_parse H (JSON_stringify H v) = Returned v.

(** [JSON.stringify] returns well-formed text: it writes an unpaired
    surrogate as an escape. *)
Definition stringify_well_formed (H : Host) : Prop :=
  forall v : json, well_formed (JSON_stringify H v).

(** ** Wire events, [relay-client.ts] *)

Module Nostr.
Record Event := {
  id : string;
  pubkey : string;
  created_at : Z;
  kind : Z;
  tags : list (list string);
  content : string;
  sig : string;
}.
End Nostr.

Definition tags_to_json (tags : list (list string)) : json :=
  JArr (map (fun tag => JArr (map JStr tag)) tags).

(** The object literal [{ id, sig, ...event }] as [JSON.stringify] sees it. *)
Definition event_to_json (e : Nostr.Event) : json :=
  JObj [("id", JStr (Nostr.id e)); ("sig", JStr (Nostr.sig e));
        ("pubkey", JStr (Nostr.pubkey e)); ("created_at", JNum (Nostr.created_at e));
        ("kind", JNum (Nostr.kind e)); ("tags", tags_to_json (Nostr.tags e));
        ("content", JStr (Nostr.content e))].

Section NostrEvents.
Context (P : Primitives) (H : Host).

Definition deriveSecp256k1Key (ed25519Private : Buffer) : Buffer :=
  sha256 P (ed25519Private ++ Buffer_from_utf8 "ttt-nostr-key").

Definition getNostrPubkey (ed25519Private : Buffer) : outcome string :=
  match schnorr_getPublicKey H (deriveSecp256k1Key ed25519Private) with
  | Returned pub => Returned (Buffer_toString_hex pub)
  | Thrown message => Thrown message
  end.

(** [createNostrEvent(params)] at time [now] (milliseconds); [params.pubkey]
    is not used, the event carries the derived secp256k1 key. What the
    library throws is not caught here. *)
Definition createNostrEvent (kind : Z) (content : string) (tags : list (list string))
    (privateKey : Buffer) (now : Z) : outcome Nostr.Event :=
  let secpPriv := deriveSecp256k1Key privateKey in
  match schnorr_getPublicKey H secpPriv with
  | Thrown message => Thrown message
  | Returned pub =>
      let nostrPubkey := Buffer_toString_hex pub in
      let created_at := (now / 1000)%Z in
      let serialized :=
        JSON_stringify H (JArr [JNum 0; JStr nostrPubkey; JNum created_at; JNum kind;
                                tags_to_json tags; JStr content]) in
      let id := Buffer_toString_hex (sha256 P (Buffer_from_utf8 serialized)) in
      match schnorr_sign H (Buffer_from_hex id) secpPriv with
      | Thrown message => Thrown message
      | Returned signature =>
          Returned {| Nostr.id := id; Nostr.sig := Buffer_toString_hex signature;
                      Nostr.pubkey := nostrPubkey; Nostr.created_at := created_at;
                      Nostr.kind := kind; Nostr.tags := tags; Nostr.content := content |}
      end
  end.

(** The library signs with the key of [keypair]: the key derived from it
    is accepted and a signature is returned for every message. *)
Definition signs_events (keypair : Keypair) : Prop :=
  let secpPriv := deriveSecp256k1Key (privateKey keypair) in
  (exists pub, schnorr_getPublicKey H secpPriv = Returned pub)
  /\ forall message, exists signature, schnorr_sign H message secpPriv = Returned signature.

End NostrEvents.

(** ** One relay link, [RelayClient]

    The socket is represented by the frames written to it and by its
    ["message"] listeners; its ["open"] and ["close"] events are the steps
    [on_open] and [on_close]. Timers and promises are tables of the event
    loop: a timer is in [timers] from [setTimeout] until it fires or is
    cleared, a promise is in [promises] once it is settled, and settling a
    settled promise changes nothing. *)

Module RelayClient.

Inductive Listener :=
| HandleMessage
| OnMessage (eventId : string) (promise timer : nat).

#[global] Instance Listener_eq_dec : EqDecision Listener.
Proof. solve_decision. Defined.

Record WebSocket := { sent : list string; listeners : list Listener }.

Inductive Settlement :=
| Resolved
| Rejected (message : string).

Inductive TimerCallback :=
| PublishTimeout (listener : Listener) (promise : nat)
| Reconnect.

Record Timer := { delay : Z; callback : TimerCallback }.

Inductive Emitted :=
| EmitConnected
| EmitDisconnected
| EmitEvent (event : option json).

Record State := {
  connected : bool;
  ws : option WebSocket;
  autoReconnect : bool;
  reconnectDelay : Z;
  reconnectTimer : option nat;
  subscriptions : list (string * json);
  timers : gmap nat Timer;
  next_timer : nat;
  promises : gmap nat Settlement;
  next_promise : nat;
  emitted : list Emitted;
}.

Definition set_connected (b : bool) (st : State) : State :=
  {| connected := b; ws := ws st; autoReconnect := autoReconnect st;
     reconnectDelay := reconnectDelay st; reconnectTimer := reconnectTimer st;
     subscriptions := subscriptions st; timers := timers st;
     next_timer := next_timer st; promises := promises st;
     next_promise := next_promise st; emitted := emitted st |}.

Definition set_ws (s : option WebSocket) (st : State) : State :=
  {| connected := connected st; ws := s; autoReconnect := autoReconnect st;
     reconnectDelay := reconnectDelay st; reconnectTimer := reconnectTimer st;
     subscriptions := subscriptions st; timers := timers st;
     next_timer := next_timer st; promises := promises st;
     next_promise := next_promise st; emitted := emitted st |}.

Definition set_autoReconnect (b : bool) (st : State) : State :=
  {| connected := connected st; ws := ws st; autoReconnect := b;
     reconnectDelay := reconnectDelay st; reconnectTimer := reconnectTimer st;
     subscriptions := subscriptions st; timers := timers st;
     next_timer := next_timer st; promises := promises st;
     next_promise := next_promise st; emitted := emitted st |}.

Definition set_reconnectTimer (t : option nat) (st : State) : State :=
  {| connected := connected st; ws := ws st; autoReconnect := autoReconnect st;
     reconnectDelay := reconnectDelay st; reconnectTimer := t;
     subscriptions := subscriptions st; timers := timers st;
     next_timer := next_timer st; promises := promises st;
     next_promise := next_promise st; emitted := emitted st |}.

Definition set_subscriptions (s : list (string * json)) (st : State) : State :=
  {| connected := connected st; ws := ws st; autoReconnect := autoReconnect st;
     reconnectDelay := reconnectDelay st; reconnectTimer := reconnectTimer st;
     subscriptions := s; timers := timers st;
     next_timer := next_timer st; promises := promises st;
     next_promise := next_promise st; emitted := emitted st |}.

Definition set_timers (m : gmap nat Timer) (n : nat) (st : State) : State :=
  {| connected := connected st; ws := ws st; autoReconnect := autoReconnect st;
     reconnectDelay := reconnectDelay st; reconnectTimer := reconnectTimer st;
     subscriptions := subscriptions st; timers := m;
     next_timer := n; promises := promises st;
     next_promise := next_promise st; emitted := emitted st |}.

Definition set_promises (m : gmap nat Settlement) (n : nat) (st : State) : State :=
  {| connected := connected st; ws := ws st; autoReconnect := autoReconnect st;
     reconnectDelay := reconnectDelay st; reconnectTimer := reconnectTimer st;
     subscriptions := subscriptions st; timers := timers st;
     next_timer := next_timer st; promises := m;
     next_promise := n; emitted := emitted st |}.

Definition emit (e : Emitted) (st : State) : State :=
  {| connected := connected st; ws := ws st; autoReconnect := autoReconnect st;
     reconnectDelay := reconnectDelay st; reconnectTimer := reconnectTimer st;
     subscriptions := subscriptions st; timers := timers st;
     next_timer := next_timer st; promises := promises st;
     next_promise := next_promise st; emitted := emitted st ++ [e] |}.

(** [setTimeout(callback, delay)] and [clearTimeout(t)] *)
Definition setTimeout (cb : TimerCallback) (ms : Z) (st : State) : State :=
  set_timers (<[next_timer st := {| delay := ms; callback := cb |}]> (timers st))
             (S (next_timer st)) st.

Definition clearTimeout (t : nat) (st : State) : State :=
  set_timers (delete t (timers st)) (next_timer st) st.

(** [resolve()] and [reject(new Error(message))] of the promise [p] *)
Definition settle (p : nat) (r : Settlement) (st : State) : State :=
  match promises st !! p with
  | Some _ => st
  | None => set_promises (<[p := r]> (promises st)) (next_promise st) st
  end.

(** [this.ws?.addEventListener("message", l)] and
    [this.ws?.removeEventListener("message", l)] *)
Definition addEventListener (l : Listener) (st : State) : State :=
  match ws st with
  | Some s => set_ws (Some {| sent := sent s; listeners := listeners s ++ [l] |}) st
  | None => st
  end.

Definition removeEventListener (l : Listener) (st : State) : State :=
  match ws st with
  | Some s =>
      set_ws (Some {| sent := sent s;
                      listeners := filter (fun l' => l' <> l) (listeners s) |}) st
  | None => st
  end.

Section WithHost.
Context (H : Host).

(** [private send(message)] *)
Definition send (message : list json) (st : State) : State :=
  match ws st with
  | Some s =>
      if connected st
      then set_ws (Some {| sent := sent s ++ [JSON_stringify H (JArr message)];
                           listeners := listeners s |}) st
      else st
  | None => st
  end.

(** [connect()], up to the creation of the socket and its listeners. *)
Definition connect (st : State) : State :=
  set_ws (Some {| sent := []; listeners := [HandleMessage] |}) st.

(** The socket's ["open"] event. *)
Definition on_open (st : State) : State :=
  let st := emit EmitConnected (set_connected true st) in
  fold_left (fun st sub => send [JStr "REQ"; JStr sub.1; sub.2] st) (subscriptions st) st.

(** The socket's ["close"] event. *)
Definition on_close (st : State) : State :=
  let st := emit EmitDisconnected (set_connected false st) in
  match autoReconnect st, reconnectTimer st with
  | true, None =>
      set_reconnectTimer (Some (next_timer st)) (setTimeout Reconnect (reconnectDelay st) st)
  | _, _ => st
  end.

Definition disconnect (st : State) : State :=
  let st := set_autoReconnect false st in
  let st := match reconnectTimer st with
            | Some t => set_reconnectTimer None (clearTimeout t st)
            | None => st
            end in
  match ws st with
  | Some _ => set_ws None st
  | None => st
  end.

Definition isConnected (st : State) : bool := connected st.

Definition subscribe (subId : string) (filter : json) (st : State) : State :=
  let subs := if bool_decide (subId ∈ (subscriptions st).*1)
              then map (fun kv => if String.eqb kv.1 subId then (subId, filter) else kv)
                       (subscriptions st)
              else subscriptions st ++ [(subId, filter)] in
  let st := set_subscriptions subs st in
  if connected st then send [JStr "REQ"; JStr subId; filter] st else st.

Definition unsubscribe (subId : string) (st : State) : State :=
  let st := set_subscriptions
              (filter (fun kv => kv.1 <> subId) (subscriptions st)) st in
  if connected st then send [JStr "CLOSE"; JStr subId] st else st.

(** [cleanup()] of [publish]. *)
Definition cleanup (l : Listener) (timer : nat) (st : State) : State :=
  removeEventListener l (clearTimeout timer st).

(** [publish(event)]: the promise it returns and the state it leaves. *)
Definition publish (event : Nostr.Event) (st : State) : nat * State :=
  let p := next_promise st in
  let st := set_promises (promises st) (S p) st in
  if negb (connected st) then (p, settle p (Rejected "Not connected to relay") st)
  else
    let st := send [JStr "EVENT"; event_to_json event] st in
    let t := next_timer st in
    let l := OnMessage (Nostr.id event) p t in
    let st := setTimeout (PublishTimeout l p) 10000 st in
    (p, addEventListener l st).

(** The body of [onMessage] of [publish], on a message whose data is the
    string [data]; [None] is a parse error or a thrown [TypeError], which the
    [catch] ignores. *)
Definition onMessage_matches (eventId : string) (data : string) : option json :=
  match JSON_parse H data with
  | Returned msg =>
      match index msg 0, index msg 1 with
      | Returned tag, Returned eid =>
          if is_string tag "OK" && is_string eid eventId then Some msg else None
      | _, _ => None
      end
  | Thrown _ => None
  end.

Definition onMessage (eventId : string) (promise timer : nat) (data : option string)
    (st : State) : State :=
  match data with
  | None => st
  | Some text =>
      match onMessage_matches eventId text with
      | None => st
      | Some msg =>
          let st := cleanup (OnMessage eventId promise timer) timer st in
          let ok := match index msg 2 with Returned v => v | Thrown _ => None end in
          let reason := match index msg 3 with Returned v => v | Thrown _ => None end in
          if truthy ok then settle promise Resolved st
          else settle promise
                 (Rejected (if truthy reason then String_of H reason else "Publish failed")) st
      end
  end.

(** [private handleMessage(data)] *)
Definition handleMessage (data : string) (st : State) : State :=
  match JSON_parse H data with
  | Returned (JArr (type :: arg1 :: args)) =>
      if is_string (Some type) "EVENT"
      then match args with
           | event :: _ => emit (EmitEvent (Some event)) st
           | [] => st
           end
      else st
  | _ => st
  end.

Definition run_listener (l : Listener) (data : option string) (st : State) : State :=
  match l with
  | HandleMessage =>
      match data with
      | Some text => handleMessage text st
      | None => st
      end
  | OnMessage eventId promise timer => onMessage eventId promise timer data st
  end.

Definition registered (l : Listener) (st : State) : bool :=
  match ws st with
  | Some s => bool_decide (l ∈ listeners s)
  | None => false
  end.

(** The socket's ["message"] event: the listeners registered when it is
    dispatched run in order, one that was removed meanwhile does not run. *)
Definition on_message (data : option string) (st : State) : State :=
  match ws st with
  | Some s =>
      fold_left (fun st l => if registered l st then run_listener l data st else st)
                (listeners s) st
  | None => st
  end.

(** The timer [t] comes due. *)
Definition fire (t : nat) (st : State) : State :=
  match timers st !! t with
  | None => st
  | Some tm =>
      let st := set_timers (delete t (timers st)) (next_timer st) st in
      match callback tm with
      | PublishTimeout l p => settle p (Rejected "Publish timeout") (cleanup l t st)
      | Reconnect => connect (set_reconnectTimer None st)
      end
  end.

End WithHost.

Definition initial : State :=
  {| connected := false; ws := None; autoReconnect := true; reconnectDelay := 3000;
     reconnectTimer := None; subscriptions := []; timers := ∅; next_timer := 0;
     promises := ∅; next_promise := 0; emitted := [] |}.

End RelayClient.

(** ** The envelope codec as the transport uses it

    [relay-transport.ts] imports [encryptMessage] and [decryptMessage] from
    [./encryption.js]. The repository holds two files of that name's
    content, [src/relay/encryption.ts] and the one of [src/unnamed/part_003];
    the transport is stated over a codec, and either can be put in its
    place. *)

Record Codec := {
  Envelope : Type;
  encryptMessage : string -> Keypair -> Buffer -> Eff Envelope;
  decryptMessage : Envelope -> Keypair -> Eff DecryptResult;
  (** [encrypted.senderPubKey] *)
  envelope_sender : Envelope -> string;
  (** the envelope as [JSON.stringify] sees it, and the envelope read from
      the value [JSON.parse] returned *)
  envelope_to_json : Envelope -> json;
  envelope_of_json : json -> option Envelope;
}.

Definition string_field (k : string) (j : json) : option string :=
  match get_opt (Some j) k with
  | Some (JStr s) => Some s
  | _ => None
  end.

Definition sealed_codec (P : Primitives) : Codec :=
  {| Envelope := Sealed.EncryptedMessage;
     encryptMessage := Sealed.encryptMessage P;
     decryptMessage := Sealed.decryptMessage P;
     envelope_sender := Sealed.senderPubKey;
     envelope_to_json := fun e =>
       JObj [("ciphertext", JStr (Sealed.ciphertext e)); ("nonce", JStr (Sealed.nonce e));
             ("senderPubKey", JStr (Sealed.senderPubKey e));
             ("signature", JStr (Sealed.signature e));
             ("ephemeralPubKey", JStr (Sealed.ephemeralPubKey e))];
     envelope_of_json := fun j =>
       c ← string_field "ciphertext" j;
       n ← string_field "nonce" j;
       k ← string_field "senderPubKey" j;
       s ← string_field "signature" j;
       Some {| Sealed.ciphertext := c; Sealed.nonce := n; Sealed.senderPubKey := k;
               Sealed.signature := s;
               Sealed.ephemeralPubKey := default "" (string_field "ephemeralPubKey" j) |} |}.

Definition ecdh_codec (P : Primitives) : Codec :=
  {| Envelope := Ecdh.EncryptedMessage;
     encryptMessage := Ecdh.encryptMessage P;
     decryptMessage := Ecdh.decryptMessage P;
     envelope_sender := Ecdh.senderPubKey;
     envelope_to_json := fun e =>
       JObj [("ciphertext", JStr (Ecdh.ciphertext e)); ("nonce", JStr (Ecdh.nonce e));
             ("senderPubKey", JStr (Ecdh.senderPubKey e));
             ("signature", JStr (Ecdh.signature e))];
     envelope_of_json := fun j =>
       c ← string_field "ciphertext" j;
       n ← string_field "nonce" j;
       k ← string_field "senderPubKey" j;
       s ← string_field "signature" j;
       Some {| Ecdh.ciphertext := c; Ecdh.nonce := n; Ecdh.senderPubKey := k;
               Ecdh.signature := s |} |}.

(** ** The orchestrator, [RelayTransport] *)

Module RelayTransport.

(** What the transport uses of a [RelayClient]: [isConnected()], and
    [publish(event)], of which the events handed over are kept. *)
Record Link := { isConnected : bool; published : list Nostr.Event }.

Record RelayMessage := {
  recipientPubKey : string;
  text : string;
  data : option json;
  senderName : option string;
}.

Record RelaySendResult := {
  success : bool;
  taskId : option json;
  response : option json;
  error : option string;
}.

Record IncomingMessage := {
  incoming_text : json;
  incoming_data : option json;
  raw : json;
}.

Record SenderInfo := { name : json }.

(** What a call of the message handler comes to: the [MessageResponse] it
    resolves with, or the error it throws or rejects with. *)
Inductive HandlerOutcome :=
| HandlerReturns (response_text : string) (response_data : option json)
| HandlerThrows (message : string).

Record RelayTransportConfig := {
  keypair : Keypair;
  onMessage : IncomingMessage -> SenderInfo -> HandlerOutcome;
  relays : list string;
  agentName : option string;
}.

Record PendingRequest := { resolve : nat; timeout : nat }.

(** The callback [send] hands to [setTimeout]. *)
Record Timer := { delay : Z; reqId : string; promise : nat }.

Inductive LogLevel := Info | Warn | Error.

(** The operations performed on the [pendingRequests] map, and the calls of
    the [resolve] function of a promise. *)
Inductive TableOp :=
| PendingSet (id : string)
| PendingDelete (id : string)
| ResolveCalled (promise : nat).

(** The transport and the part of its environment it acts on: the event
    loop's timers and promises (a timer is in [timers] from [setTimeout]
    until it fires or is cleared; a promise is in [settled] once settled and
    settling it again changes nothing), the clock, [Math.random], the random
    source of the codec, and what was observed of it: the handler's
    invocations, the logger's lines, and the operations on the table and
    the calls of [resolve], in the order they were made. *)
Record State := {
  config : RelayTransportConfig;
  identity : string;
  clients : list Link;
  pendingRequests : gmap string PendingRequest;
  timers : gmap nat Timer;
  next_timer : nat;
  settled : gmap nat RelaySendResult;
  next_promise : nat;
  now : Z;
  random : nat -> string;
  random_cursor : nat;
  world : World;
  handled : list (IncomingMessage * SenderInfo);
  logged : list (LogLevel * string);
  journal : list TableOp;
}.

Definition set_clients (c : list Link) (st : State) : State :=
  {| config := config st; identity := identity st; clients := c;
     pendingRequests := pendingRequests st; timers := timers st;
     next_timer := next_timer st; settled := settled st;
     next_promise := next_promise st; now := now st; random := random st;
     random_cursor := random_cursor st; world := world st; handled := handled st;
     logged := logged st; journal := journal st |}.

Definition set_pending (m : gmap string PendingRequest) (op : TableOp) (st : State) : State :=
  {| config := config st; identity := identity st; clients := clients st;
     pendingRequests := m; timers := timers st;
     next_timer := next_timer st; settled := settled st;
     next_promise := next_promise st; now := now st; random := random st;
     random_cursor := random_cursor st; world := world st; handled := handled st;
     logged := logged st; journal := journal st ++ [op] |}.

Definition set_timers (m : gmap nat Timer) (n : nat) (st : State) : State :=
  {| config := config st; identity := identity st; clients := clients st;
     pendingRequests := pendingRequests st; timers := m;
     next_timer := n; settled := settled st;
     next_promise := next_promise st; now := now st; random := random st;
     random_cursor := random_cursor st; world := world st; handled := handled st;
     logged := logged st; journal := journal st |}.

Definition set_settled (m : gmap nat RelaySendResult) (n : nat) (st : State) : State :=
  {| config := config st; identity := identity st; clients := clients st;
     pendingRequests := pendingRequests st; timers := timers st;
     next_timer := next_timer st; settled := m;
     next_promise := n; now := now st; random := random st;
     random_cursor := random_cursor st; world := world st; handled := handled st;
     logged := logged st; journal := journal st |}.

Definition add_journal (op : TableOp) (st : State) : State :=
  {| config := config st; identity := identity st; clients := clients st;
     pendingRequests := pendingRequests st; timers := timers st;
     next_timer := next_timer st; settled := settled st;
     next_promise := next_promise st; now := now st; random := random st;
     random_cursor := random_cursor st; world := world st; handled := handled st;
     logged := logged st; journal := journal st ++ [op] |}.

Definition set_random_cursor (n : nat) (st : State) : State :=
  {| config := config st; identity := identity st; clients := clients st;
     pendingRequests := pendingRequests st; timers := timers st;
     next_timer := next_timer st; settled := settled st;
     next_promise := next_promise st; now := now st; random := random st;
     random_cursor := n; world := world st; handled := handled st;
     logged := logged st; journal := journal st |}.

Definition set_world (w : World) (st : State) : State :=
  {| config := config st; identity := identity st; clients := clients st;
     pendingRequests := pendingRequests st; timers := timers st;
     next_timer := next_timer st; settled := settled st;
     next_promise := next_promise st; now := now st; random := random st;
     random_cursor := random_cursor st; world := w; handled := handled st;
     logged := logged st; journal := journal st |}.

Definition add_handled (c : IncomingMessage * SenderInfo) (st : State) : State :=
  {| config := config st; identity := identity st; clients := clients st;
     pendingRequests := pendingRequests st; timers := timers st;
     next_timer := next_timer st; settled := settled st;
     next_promise := next_promise st; now := now st; random := random st;
     random_cursor := random_cursor st; world := world st;
     handled := handled st ++ [c];
     logged := logged st; journal := journal st |}.

Definition log (level : LogLevel) (line : string) (st : State) : State :=
  {| config := config st; identity := identity st; clients := clients st;
     pendingRequests := pendingRequests st; timers := timers st;
     next_timer := next_timer st; settled := settled st;
     next_promise := next_promise st; now := now st; random := random st;
     random_cursor := random_cursor st; world := world st; handled := handled st;
     logged := logged st ++ [(level, line)]; journal := journal st |}.

(** Statements that may throw, over the transport's state. *)
Definition Act (A : Type) : Type := State -> outcome A * State.

#[global] Instance Act_ret : MRet Act := fun A a st => (Returned a, st).
#[global] Instance Act_bind : MBind Act := fun A B k m st =>
  match m st with
  | (Returned a, st') => k a st'
  | (Thrown msg, st') => (Thrown msg, st')
  end.

Definition pure {A} (a : A) : Act A := fun st => (Returned a, st).
Definition skip : Act unit := pure tt.
Definition act (f : State -> State) : Act unit := fun st => (Returned tt, f st).
Definition read {A} (f : State -> A) : Act A := fun st => (Returned (f st), st).
Definition raise {A} (o : outcome A) : Act A := fun st => (o, st).
(** A call into the codec, on the transport's random source. *)
Definition codec {A} (m : Eff A) : Act A :=
  fun st => let r := m (world st) in (r.1, set_world r.2 st).

(** [setTimeout], [clearTimeout] *)
Definition setTimeout (cb : Timer) (st : State) : State :=
  set_timers (<[next_timer st := cb]> (timers st)) (S (next_timer st)) st.
Definition clearTimeout (t : nat) (st : State) : State :=
  set_timers (delete t (timers st)) (next_timer st) st.

(** The [resolve] function of the promise [p]. *)
Definition settle (p : nat) (r : RelaySendResult) (st : State) : State :=
  let st := add_journal (ResolveCalled p) st in
  match settled st !! p with
  | Some _ => st
  | None => set_settled (<[p := r]> (settled st)) (next_promise st) st
  end.

(** [this.pendingRequests.set(id, entry)], [this.pendingRequests.delete(id)] *)
Definition pending_set (id : string) (e : PendingRequest) (st : State) : State :=
  set_pending (<[id := e]> (pendingRequests st)) (PendingSet id) st.
Definition pending_delete (id : string) (st : State) : State :=
  set_pending (delete id (pendingRequests st)) (PendingDelete id) st.

(** [this.pendingRequests.get(key)]: the keys are strings, so only a string
    finds an entry. *)
Definition pending_get (key : option json) (st : State) : option (string * PendingRequest) :=
  match key with
  | Some (JStr id) => (fun e => (id, e)) <$> pendingRequests st !! id
  | _ => None
  end.

Definition failure (message : string) : RelaySendResult :=
  {| success := false; taskId := None; response := None; error := Some message |}.

(** [`msg-${Date.now()}-${Math.random().toString(36).substring(2, 9)}`] *)
Definition generateMessageId : Act string := fun st =>
  (Returned ("msg-" +:+ pretty (now st) +:+ "-" +:+ random st (random_cursor st)),
   set_random_cursor (S (random_cursor st)) st).

Definition generateTaskId : Act string := fun st =>
  (Returned ("task-" +:+ pretty (now st) +:+ "-" +:+ random st (random_cursor st)),
   set_random_cursor (S (random_cursor st)) st).

(** [for (const client of this.clients) if (client.isConnected())
    client.publish(event)] *)
Definition publish_to (event : Nostr.Event) (c : Link) : Link :=
  if isConnected c
  then {| isConnected := true; published := published c ++ [event] |}
  else c.

Definition publish_all (event : Nostr.Event) (st : State) : State :=
  set_clients (map (publish_to event) (clients st)) st.

Definition any_connected (st : State) : bool := existsb isConnected (clients st).

(** [this.pendingRequests.clear()], recorded as the deletion of each key. *)
Definition pending_clear (st : State) : State :=
  {| config := config st; identity := identity st; clients := clients st;
     pendingRequests := ∅; timers := timers st;
     next_timer := next_timer st; settled := settled st;
     next_promise := next_promise st; now := now st; random := random st;
     random_cursor := random_cursor st; world := world st; handled := handled st;
     logged := logged st;
     journal := journal st ++ map PendingDelete (map_to_list (pendingRequests st)).*1 |}.

(** One turn of the loop of [disconnect()] over the pending requests. *)
Definition reject_pending (st : State) (entry : string * PendingRequest) : State :=
  settle (resolve entry.2) (failure "Transport disconnected")
    (clearTimeout (timeout entry.2) st).

(** [disconnect()]. Every link is told to disconnect and the list of links
    is emptied (what [disconnect()] does to a link is [RelayClient.disconnect]);
    every pending request has its timer cleared and is resolved with the
    disconnect failure; the table is emptied. The table is a finite map: the
    loop visits its entries in the order [map_to_list] gives, where the
    source visits them in the order of insertion. *)
Definition disconnect (st : State) : State :=
  let st := set_clients [] st in
  let st := fold_left reject_pending (map_to_list (pendingRequests st)) st in
  log Info "Disconnected from all relays" (pending_clear st).

(** [a || b] on optional strings *)
Definition or_string (a : option string) (b : string) : string :=
  match a with
  | Some s => if String.eqb s "" then b else s
  | None => b
  end.

Section WithCodec.
Context (P : Primitives) (H : Host) (C : Codec).

Definition text_part (s : json) : json := JObj [("kind", JStr "text"); ("text", s)].
Definition data_part (d : json) : json := JObj [("kind", JStr "data"); ("data", d)].

Definition request_json (message : RelayMessage) (sender id : string) : json :=
  JObj [("jsonrpc", JStr "2.0"); ("method", JStr "message/send");
        ("params",
          JObj [("message",
                  JObj [("role", JStr "user");
                        ("parts",
                          JArr (text_part (JStr (text message))
                                :: match data message with
                                   | Some d => if truthy (Some d) then [data_part d] else []
                                   | None => []
                                   end))]);
                ("sender", JStr sender)]);
        ("id", JStr id)].

Definition recipient_tags (pubKey : string) : list (list string) :=
  [["p"; pubKey]; ["t"; pubKey]].

(** The body of [send] up to the registration of the request. *)
Definition send_register (id : string) (p : nat) (ms : Z) (st : State) : State :=
  let timer := next_timer st in
  let st := setTimeout {| delay := ms; reqId := id; promise := p |} st in
  pending_set id {| resolve := p; timeout := timer |} st.

(** The end of [send] when nothing was published. *)
Definition send_rollback (id : string) (p timer : nat) (st : State) : State :=
  settle p (failure "No connected relays") (pending_delete id (clearTimeout timer st)).

(** [send(message, timeout)]: the promise it returns and the state it
    leaves. What the encryption or the creation of the event throws is
    caught, and the promise resolved with it, before anything is
    registered. *)
Definition send (message : RelayMessage) (ms : Z) (st : State) : nat * State :=
  let p := next_promise st in
  let st := set_settled (settled st) (S p) st in
  let body : Act unit :=
    let recipient := hexToPublicKey (recipientPubKey message) in
    id ← generateMessageId;
    let sender := or_string (senderName message)
                    (or_string (agentName (config st)) "unknown") in
    let jsonRpcRequest := request_json message sender id in
    encrypted ← codec (encryptMessage C (JSON_stringify H jsonRpcRequest)
                         (keypair (config st)) recipient);
    clock ← read now;
    event ← raise (createNostrEvent P H 4
                     (JSON_stringify H (envelope_to_json C encrypted))
                     (recipient_tags (recipientPubKey message))
                     (privateKey (keypair (config st))) clock);
    timer ← read next_timer;
    _ ← act (send_register id p ms);
    published ← read any_connected;
    _ ← act (publish_all event);
    if published : bool then skip
    else act (send_rollback id p timer) in
  match body st with
  | (Returned _, st') => (p, st')
  | (Thrown message, st') => (p, settle p (failure message) st')
  end.

(** The deadline of a request: the callback of its timer. *)
Definition fire (t : nat) (st : State) : State :=
  match timers st !! t with
  | None => st
  | Some tm =>
      let st := set_timers (delete t (timers st)) (next_timer st) st in
      settle (promise tm)
        (failure ("Request timed out after " +:+ pretty (delay tm) +:+ "ms"))
        (pending_delete (reqId tm) st)
  end.

(** [handleResponse(jsonRpcResponse)] *)
Definition handleResponse (jsonRpcResponse : json) : Act unit :=
  id ← raise (get (Some jsonRpcResponse) "id");
  pending ← read (pending_get id);
  match pending with
  | None => skip
  | Some (key, pending) =>
      _ ← act (clearTimeout (timeout pending));
      _ ← act (pending_delete key);
      err ← raise (get (Some jsonRpcResponse) "error");
      if truthy err then
        act (settle (resolve pending)
               (failure (String_of H (get_opt err "code") +:+ ": "
                         +:+ String_of H (get_opt err "message"))))
      else
        result ← raise (get (Some jsonRpcResponse) "result");
        let parts := get_opt (get_opt result "message") "parts" in
        responseText ←
          (if truthy parts then
             textPart ← raise (parts_find parts "text");
             pure (get_opt textPart "text")
           else pure None);
        act (settle (resolve pending)
               {| success := true; taskId := get_opt (get_opt result "task") "id";
                  response := responseText; error := None |})
  end.

Definition response_json (taskId : string) (responseText : string)
    (responseData : option json) (id : option json) : json :=
  object
    [("jsonrpc", Some (JStr "2.0"));
     ("result",
       Some (JObj [("task", JObj [("id", JStr taskId);
                                  ("status", JObj [("state", JStr "completed")])]);
                   ("message",
                     JObj [("role", JStr "agent");
                           ("parts",
                             JArr (text_part (JStr responseText)
                                   :: if truthy responseData
                                      then match responseData with
                                           | Some d => [data_part d]
                                           | None => []
                                           end
                                      else []))])]));
     ("id", id)].

(** The first part of [handleIncomingMessage], up to the call of the
    handler: what the request hands to the handler, [None] when the function
    returns without calling it. *)
Definition incoming_of (jsonRpcRequest : json) (senderPubKey : string)
    : outcome (option (IncomingMessage * SenderInfo)) :=
  match get (Some jsonRpcRequest) "params" with
  | Thrown message => Thrown message
  | Returned params =>
      let message := get_opt params "message" in
      if negb (truthy message) then Returned None
      else
        match parts_find (get_opt message "parts") "text" with
        | Thrown message => Thrown message
        | Returned textPart =>
            match parts_find (get_opt message "parts") "data" with
            | Thrown message => Thrown message
            | Returned dataPart =>
                if negb (truthy (get_opt textPart "text")) then Returned None
                else
                  Returned (Some
                    ({| incoming_text := default JNull (get_opt textPart "text");
                        incoming_data := get_opt dataPart "data";
                        raw := default JNull message |},
                     {| name := if truthy (get_opt params "sender")
                                then default JNull (get_opt params "sender")
                                else JStr (String.substring 0 16 senderPubKey +:+ "...") |}))
            end
        end
  end.

Definition fallback_text : string := "Message received".

(** The double quote character. *)
Definition dquote : string := String (ascii_of_nat 34) EmptyString.

(** [handleIncomingMessage(jsonRpcRequest, senderPubKey)]. The handler's
    promise is awaited; the rest of the function runs when it settles, and
    is taken to run before any other event is handled. Only the call of the
    handler is inside a [try]: what the encryption of the response or the
    creation of its event throws leaves the function, and is caught by
    [handleEvent]. The text quoted in the last log line is cut on the
    representation of the string, which is the source's cut for a text of
    ASCII characters. *)
Definition handleIncomingMessage (jsonRpcRequest : json) (senderPubKey : string) : Act unit :=
  parsed ← raise (incoming_of jsonRpcRequest senderPubKey);
  match parsed with
  | None => skip
  | Some (incomingMessage, senderInfo) =>
      cfg ← read config;
      _ ← act (add_handled (incomingMessage, senderInfo));
      reply ←
        match onMessage cfg incomingMessage senderInfo with
        | HandlerReturns t d => pure (t, d)
        | HandlerThrows message =>
            _ ← act (log Error ("Handler error: " +:+ message));
            pure (fallback_text, None)
        end;
      taskId ← generateTaskId;
      let jsonRpcResponse :=
        response_json taskId reply.1 reply.2 (get_opt (Some jsonRpcRequest) "id") in
      let senderPubKeyBuf := hexToPublicKey senderPubKey in
      encrypted ← codec (encryptMessage C (JSON_stringify H jsonRpcResponse)
                           (keypair cfg) senderPubKeyBuf);
      clock ← read now;
      event ← raise (createNostrEvent P H 4
                       (JSON_stringify H (envelope_to_json C encrypted))
                       (recipient_tags senderPubKey)
                       (privateKey (keypair cfg)) clock);
      _ ← act (publish_all event);
      match incoming_text incomingMessage with
      | JStr s =>
          act (log Info ("Received message from " +:+ String_of H (Some (name senderInfo))
                         +:+ ": " +:+ dquote +:+ String.substring 0 50 s
                         +:+ "..." +:+ dquote))
      | _ => raise (Thrown "textPart.text.substring is not a function")
      end
  end.

(** [decryptMessage(encrypted, keypair)] on what [JSON.parse] returned.
    [envelope_of_json] reads an object whose envelope fields are strings.
    Of any other value the conversion to buffers is taken to throw, which
    [decryptMessage] catches: so it is for a missing field, [null], a number
    or a boolean; [Buffer.from] accepts an array or an array-like object in
    place of a string, and such envelopes are outside this model: the
    statements about [handleEvent] are about events whose envelope has
    string fields. *)
Definition decrypt_parsed (encrypted : json) (kp : Keypair) : Act DecryptResult :=
  match envelope_of_json C encrypted with
  | Some env => codec (decryptMessage C env kp)
  | None => pure (Failure "The first argument must be of type string")
  end.

(** The rest of [handleEvent] once the payload is decrypted. *)
Definition dispatch (plaintext : string) (senderPubKey : string) : Act unit :=
  jsonRpc ← raise (JSON_parse H plaintext);
  result ← raise (get (Some jsonRpc) "result");
  err ← raise (get (Some jsonRpc) "error");
  if truthy result || truthy err then handleResponse jsonRpc
  else
    method ← raise (get (Some jsonRpc) "method");
    if is_string method "message/send"
    then handleIncomingMessage jsonRpc senderPubKey
    else skip.

(** [handleEvent(event)] *)
Definition handleEvent (event : Nostr.Event) (st : State) : State :=
  let body : Act unit :=
    encrypted ← raise (JSON_parse H (Nostr.content event));
    cfg ← read config;
    decrypted ← decrypt_parsed encrypted (keypair cfg);
    match decrypted with
    | Failure message => act (log Warn ("Failed to decrypt message: " +:+ message))
    | Success plaintext =>
        dispatch plaintext (default "" (string_field "senderPubKey" encrypted))
    end in
  match body st with
  | (Returned _, st') => st'
  | (Thrown message, st') => log Error ("Error processing event: " +:+ message) st'
  end.

End WithCodec.
End RelayTransport.

(** ** A model of the primitives

    A small instance of [Primitives] that satisfies the laws stated above,
    so that the theorems assuming them can be applied to it. It has no
    cryptographic strength. *)

Module Toy.

Definition hash (b : Buffer) : Buffer := take 32 (b ++ repeat x00 32).

Definition public (seed : Buffer) : Buffer := seed.

Definition sign (data seed : Buffer) : outcome Buffer := Returned (seed ++ data).

Definition verify (data pub sig : Buffer) : outcome bool :=
  Returned (bool_decide (sig = pub ++ data)).

Definition tag_of (key nonce : Buffer) : Buffer :=
  take 16 (key ++ nonce ++ repeat x00 16).

Definition seal (key nonce pt : Buffer) : outcome (Buffer * Buffer) :=
  if bool_decide (length key = 32 /\ length nonce = 12)
  then Returned (pt, tag_of key nonce)
  else Thrown "Invalid key length".

Definition open (key nonce data tag : Buffer) : outcome Buffer :=
  if bool_decide (tag = tag_of key nonce) then Returned data
  else Thrown "Unsupported state or unable to authenticate data".

Definition agree (priv pub : Buffer) : outcome Buffer :=
  Returned (hash (priv ++ pub)).

Definition primitives : Primitives :=
  {| base64_encode := Buffer_toString_hex;
     base64_decode := Buffer_from_hex;
     sha256 := hash;
     ed25519_public := public;
     cryptoSign := sign;
     cryptoVerify := verify;
     streamSign := fun _ => sign;
     streamVerify := fun _ => verify;
     createPrivateKey := fun der => Returned (drop 16 der);
     createPublicKey := fun der => Returned (drop 12 der);
     chacha20poly1305_encrypt := seal;
     chacha20poly1305_decrypt := open;
     diffieHellman := agree |}.

Definition random_source (n : nat) : byte :=
  default x00 (Byte.of_nat (n mod 256)).

Definition world : World := {| entropy := random_source; cursor := 0; ops := [] |}.

Definition alice : Keypair :=
  {| publicKey := repeat x01 32; privateKey := repeat x01 32 |}.
Definition bob : Keypair :=
  {| publicKey := repeat x02 32; privateKey := repeat x02 32 |}.

(** A text that consists of one unpaired surrogate, U+D800, and the text
    that consists of the replacement character U+FFFD. *)
Definition lone_surrogate : string :=
  String "237" (String "160" (String "128" EmptyString)).
Definition replacement_text : string := string_of_list_byte replacement_character.

End Toy.

(** ** A model of the host

    JSON text is modelled by an injective code of the value (not JSON
    syntax), written with the characters 0 and 1: all that is assumed of
    [JSON.stringify] and [JSON.parse] is that the first returns well-formed
    text and that the second inverts it. *)

Module ToyHost.

Definition atom : Type := bool + (Z + string).

Fixpoint to_tree (v : json) : gen_tree atom :=
  match v with
  | JNull => GenNode 0 []
  | JBool b => GenLeaf (inl b)
  | JNum n => GenLeaf (inr (inl n))
  | JStr s => GenLeaf (inr (inr s))
  | JArr items => GenNode 1 (map to_tree items)
  | JObj fields =>
      GenNode 2 (map (fun kv => match kv with
                                | (k, x) => GenNode 3 [GenLeaf (inr (inr k)); to_tree x]
                                end) fields)
  end.

Fixpoint of_tree (t : gen_tree atom) : option json :=
  match t with
  | GenLeaf (inl b) => Some (JBool b)
  | GenLeaf (inr (inl n)) => Some (JNum n)
  | GenLeaf (inr (inr s)) => Some (JStr s)
  | GenNode 0 [] => Some JNull
  | GenNode 1 ts => JArr <$> mapM of_tree ts
  | GenNode 2 ts =>
      JObj <$> mapM (fun t => match t with
                              | GenNode 3 [GenLeaf (inr (inr k)); t'] =>
                                  (fun x => (k, x)) <$> of_tree t'
                              | _ => None
                              end) ts
  | _ => None
  end.

Fixpoint bits (p : positive) : string :=
  match p with
  | xH => EmptyString
  | xO q => String "0" (bits q)
  | xI q => String "1" (bits q)
  end.

Fixpoint of_bits (s : string) : option positive :=
  match s with
  | EmptyString => Some xH
  | String c r =>
      if Ascii.eqb c "0" then xO <$> of_bits r
      else if Ascii.eqb c "1" then xI <$> of_bits r
      else None
  end.

Definition stringify (v : json) : string := bits (encode (to_tree v)).

Definition parse (s : string) : outcome json :=
  match of_bits s with
  | Some p =>
      match decode (A := gen_tree atom) p with
      | Some t =>
          match of_tree t with
          | Some v => Returned v
          | None => Thrown "Unexpected token"
          end
      | None => Thrown "Unexpected token"
      end
  | None => Thrown "Unexpected token"
  end.

Definition to_string (v : option json) : string :=
  match v with
  | None => "undefined"
  | Some JNull => "null"
  | Some (JBool true) => "true"
  | Some (JBool false) => "false"
  | Some (JNum n) => pretty n
  | Some (JStr s) => s
  | Some (JArr _) => "[array]"
  | Some (JObj _) => "[object Object]"
  end.

Definition host : Host :=
  {| JSON_stringify := stringify;
     JSON_parse := parse;
     String_of := to_string;
     schnorr_getPublicKey := fun priv => Returned priv;
     schnorr_sign := fun msg priv => Returned (priv ++ msg) |}.

(** The host when nothing has given the secp256k1 library its hash
    function, as in the repository, where no file sets it: [schnorr.sign]
    throws. *)
Definition unconfigured : Host :=
  {| JSON_stringify := stringify;
     JSON_parse := parse;
     String_of := to_string;
     schnorr_getPublicKey := fun priv => Returned priv;
     schnorr_sign := fun _ _ => Thrown "hashes.sha256 not set" |}.

End ToyHost.

(** ** Two transports over the model of the primitives and of the host *)

Module ToyNet.
Import RelayTransport.

Definition up : Link := {| isConnected := true; published := [] |}.
Definition down : Link := {| isConnected := false; published := [] |}.

Definition node (kp : Keypair) (handler : IncomingMessage -> SenderInfo -> HandlerOutcome)
    (links : list Link) : State :=
  {| config := {| keypair := kp; onMessage := handler; relays := ["wss://relay.example"];
                  agentName := Some "agent" |};
     identity := publicKeyToHex (publicKey kp);
     clients := links;
     pendingRequests := ∅;
     timers := ∅; next_timer := 0;
     settled := ∅; next_promise := 0;
     now := 1700000000000;
     random := fun n => "r" +:+ pretty n;
     random_cursor := 0;
     world := Toy.world;
     handled := []; logged := []; journal := [] |}.

Definition answers : IncomingMessage -> SenderInfo -> HandlerOutcome :=
  fun _ _ => HandlerReturns "pong" None.
Definition fails : IncomingMessage -> SenderInfo -> HandlerOutcome :=
  fun _ _ => HandlerThrows "boom".

Definition ping : RelayMessage :=
  {| recipientPubKey := publicKeyToHex (publicKey Toy.bob); text := "ping";
     data := None; senderName := None |}.

Definition codec : Codec := sealed_codec Toy.primitives.

Definition bob_answers : State := node Toy.bob answers [up].
Definition bob_fails : State := node Toy.bob fails [up].
Definition alice_offline : State := node Toy.alice answers [down].
Definition alice_online : State := node Toy.alice answers [up; down].

(** Alice waiting for the response to her request [msg-1]: promise 0,
    timer 0. *)
Definition alice_waiting : State :=
  {| config := config (node Toy.alice answers [up]);
     identity := publicKeyToHex (publicKey Toy.alice);
     clients := [up];
     pendingRequests := {[ "msg-1" := {| resolve := 0; timeout := 0 |} ]};
     timers := {[ 0 := {| delay := 30000; reqId := "msg-1"; promise := 0 |} ]};
     next_timer := 1;
     settled := ∅; next_promise := 1;
     now := 1700000000000;
     random := fun n => "r" +:+ pretty n;
     random_cursor := 1;
     world := Toy.world;
     handled := []; logged := []; journal := [PendingSet "msg-1"] |}.

Definition alice_hex : string := publicKeyToHex (publicKey Toy.alice).

(** The request Alice sent, what the handler is asked, and a request
    without a message. *)
Definition request : json := request_json ping "agent" "msg-1".

Definition call : IncomingMessage * SenderInfo :=
  ({| incoming_text := JStr "ping"; incoming_data := None;
      raw := JObj [("role", JStr "user"); ("parts", JArr [text_part (JStr "ping")])] |},
   {| name := JStr "agent" |}).

Definition empty_request : json :=
  JObj [("jsonrpc", JStr "2.0"); ("method", JStr "message/send");
        ("params", JObj []); ("id", JStr "msg-2")].

(** A response to Alice's request. *)
Definition a_response : json := response_json "task-1" "pong" None (Some (JStr "msg-1")).

(** The envelope the codec returns for a plaintext (in the initial state of
    the random source), and a wire event that carries an envelope. *)
Definition envelope_for (plaintext : string) (A : Keypair) (pubB : Buffer) : Envelope codec :=
  match (encryptMessage codec plaintext A pubB Toy.world).1 with
  | Returned env => env
  | Thrown _ =>
      {| Sealed.ciphertext := ""; Sealed.nonce := ""; Sealed.senderPubKey := "";
         Sealed.signature := ""; Sealed.ephemeralPubKey := "" |}
  end.

Definition no_event : Nostr.Event :=
  {| Nostr.id := ""; Nostr.pubkey := ""; Nostr.created_at := 0; Nostr.kind := 0;
     Nostr.tags := []; Nostr.content := ""; Nostr.sig := "" |}.

Definition event_with (env : Envelope codec) (sender : Keypair) (recipient : Keypair)
    : Nostr.Event :=
  match createNostrEvent Toy.primitives ToyHost.host 4
          (JSON_stringify ToyHost.host (envelope_to_json codec env))
          (recipient_tags (publicKeyToHex (publicKey recipient)))
          (privateKey sender) 1700000000000 with
  | Returned event => event
  | Thrown _ => no_event
  end.

Definition event_carrying (payload : json) (sender recipient : Keypair) : Nostr.Event :=
  event_with (envelope_for (JSON_stringify ToyHost.host payload) sender (publicKey recipient))
             sender recipient.

Definition request_event : Nostr.Event := event_carrying request Toy.alice Toy.bob.
Definition empty_request_event : Nostr.Event := event_carrying empty_request Toy.alice Toy.bob.
Definition response_event : Nostr.Event := event_carrying a_response Toy.bob Toy.alice.


(** An envelope that names Alice as its sender and carries a signature she
    did not make, and the event that carries it to Bob. *)
Definition forged_envelope : Envelope codec :=
  {| Sealed.ciphertext := "00"; Sealed.nonce := "01";
     Sealed.senderPubKey := publicKeyToHex (publicKey Toy.alice);
     Sealed.signature := "03"; Sealed.ephemeralPubKey := "" |}.

Definition forged_event : Nostr.Event := event_with forged_envelope Toy.alice Toy.bob.

(** A message without text; a codec whose encryption throws; a response
    that carries an error, and the event that carries it to Alice. *)
Definition blank : RelayMessage :=
  {| recipientPubKey := publicKeyToHex (publicKey Toy.bob); text := "";
     data := None; senderName := None |}.

Definition refusing : Codec :=
  {| Envelope := unit;
     encryptMessage := fun _ _ _ => throw "Unsupported key";
     decryptMessage := fun _ _ => ret (Failure "Unsupported key");
     envelope_sender := fun _ => "";
     envelope_to_json := fun _ => JNull;
     envelope_of_json := fun _ => None |}.

Definition an_error : json :=
  JObj [("jsonrpc", JStr "2.0");
        ("error", JObj [("code", JNum (-32603)); ("message", JStr "Internal error")]);
        ("id", JStr "msg-1")].

Definition error_event : Nostr.Event := event_carrying an_error Toy.bob Toy.alice.

End ToyNet.

(** ** A link in the model of the host *)

Module ToyLink.

(** A link that was connected and then told to disconnect; the socket's
    close event has not come yet. *)
Definition closing : RelayClient.State :=
  RelayClient.disconnect
    (RelayClient.on_open ToyHost.host (RelayClient.connect RelayClient.initial)).

(** A link that is connected. *)
Definition opened : RelayClient.State :=
  RelayClient.on_open ToyHost.host (RelayClient.connect RelayClient.initial).

Definition event : Nostr.Event :=
  {| Nostr.id := "e1"; Nostr.pubkey := "k"; Nostr.created_at := 0; Nostr.kind := 4;
     Nostr.tags := []; Nostr.content := "c"; Nostr.sig := "s" |}.

(** A link that has lost its connection and waits to reconnect. *)
Definition waiting : RelayClient.State := RelayClient.on_close opened.

(** An event frame of the relay. *)
Definition inbound : json :=
  JArr [JStr "EVENT"; JStr "sub-1"; JObj [("id", JStr "e2"); ("kind", JNum 4)]].

(** The relay's refusal of the event, [["OK", "e1", false, "blocked"]]. *)
Definition refusal : json := JArr [JStr "OK"; JStr "e1"; JBool false; JStr "blocked"].

End ToyLink.

(** ** Notions used in the statements *)

Section SealedKey.
Context (P : Primitives).

(** The key both sides derive: the hash of the two public keys in sorted
    order, followed by the domain separation constant. *)
Definition sealed_key (a b : Buffer) : Buffer :=
  sha256 P (concat [(sort2 a b).1; (sort2 a b).2; Sealed.domain_separation]).

End SealedKey.

(** A codec is sound for the keypairs [valid] when encrypting a well-formed
    text with a valid sender keypair returns an envelope that survives the
    JSON conversion and that the holder of the recipient key decrypts to the
    text. *)
Definition codec_sound (C : Codec) (valid : Keypair -> Prop) : Prop :=
  forall (plaintext : string) (A : Keypair) (pubB : Buffer) (w : World),
    well_formed plaintext ->
    valid A ->
    exists env w',
      encryptMessage C plaintext A pubB w = (Returned env, w')
      /\ envelope_of_json C (envelope_to_json C env) = Some env
      /\ forall (B : Keypair) (w2 : World),
           publicKey B = pubB ->
           exists w3, decryptMessage C env B w2 = (Returned (Success plaintext), w3).

Module Statements.
Import RelayTransport.

Section WithCodec.
Context (P : Primitives) (H : Host) (C : Codec).

(** The correlation id [send] generates in the state [st], the request it
    builds and the text it encrypts. *)
Definition send_id (st : State) : string :=
  "msg-" +:+ pretty (now st) +:+ "-" +:+ random st (random_cursor st).

Definition send_plaintext (message : RelayMessage) (st : State) : string :=
  JSON_stringify H
    (request_json message
       (or_string (senderName message) (or_string (agentName (config st)) "unknown"))
       (send_id st)).

Definition send_event (message : RelayMessage) (st : State) (env : Envelope C)
    : outcome Nostr.Event :=
  createNostrEvent P H 4 (JSON_stringify H (envelope_to_json C env))
    (recipient_tags (recipientPubKey message))
    (privateKey (keypair (config st))) (now st).

(** The task id [handleIncomingMessage] generates in the state [st]. *)
Definition task_id (st : State) : string :=
  "task-" +:+ pretty (now st) +:+ "-" +:+ random st (random_cursor st).

(** What the handler's outcome makes the response carry. *)
Definition reply_of (outcome : HandlerOutcome) : string * option json :=
  match outcome with
  | HandlerReturns t d => (t, d)
  | HandlerThrows _ => (fallback_text, None)
  end.

(** The response [handleIncomingMessage] builds in the state [st] for the
    request [req], the text it encrypts and the event it publishes. *)
Definition reply_json (req : json) (st : State) (im : IncomingMessage) (si : SenderInfo) : json :=
  let reply := reply_of (onMessage (config st) im si) in
  response_json (task_id st) reply.1 reply.2 (get_opt (Some req) "id").

Definition reply_plaintext (req : json) (st : State) (im : IncomingMessage)
    (si : SenderInfo) : string :=
  JSON_stringify H (reply_json req st im si).

Definition reply_event (senderPubKey : string) (st : State) (env : Envelope C)
    : outcome Nostr.Event :=
  createNostrEvent P H 4 (JSON_stringify H (envelope_to_json C env))
    (recipient_tags senderPubKey) (privateKey (keypair (config st))) (now st).

(** A request that has no message, or whose message has no text part with
    a nonempty text. *)
Definition lacks_text (req : json) : Prop :=
  let message := get_opt (get_opt (Some req) "params") "message" in
  truthy message = false
  \/ forall items p,
       get_opt message "parts" = Some (JArr items) ->
       p ∈ items ->
       is_string (get_opt (Some p) "kind") "text" = true ->
       truthy (get_opt (Some p) "text") = false.

End WithCodec.

(** A statement that leaves the transport's configuration as it is. *)
Definition keeps_config {A} (m : Act A) : Prop :=
  forall st, config (m st).2 = config st.

End Statements.

(** ** Notions used in the statements about delivery *)

(** A codec names its sender when the envelope it returns carries, in the
    field [senderPubKey] that [handleEvent] reads, the hex form of the
    public key of the keypair it was given. *)
Definition names_sender (C : Codec) : Prop :=
  forall (plaintext : string) (A : Keypair) (pubB : Buffer) (w w' : World) (env : Envelope C),
    encryptMessage C plaintext A pubB w = (Returned env, w') ->
    string_field "senderPubKey" (envelope_to_json C env)
    = Some (publicKeyToHex (publicKey A)).

Module Delivery.
Import RelayTransport.

(** The name [send] gives the sender of a message. *)
Definition sender_of (message : RelayMessage) (st : State) : string :=
  or_string (senderName message) (or_string (agentName (config st)) "unknown").

(** The parts [send] builds for a message. *)
Definition parts_of (message : RelayMessage) : list json :=
  text_part (JStr (text message))
  :: match data message with
     | Some d => if truthy (Some d) then [data_part d] else []
     | None => []
     end.

(** What the handler of the recipient is to be called with for a message
    of the sender [sender]. *)
Definition incoming (message : RelayMessage) (sender : string) : IncomingMessage * SenderInfo :=
  ({| incoming_text := JStr (text message);
      incoming_data := match data message with
                       | Some d => if truthy (Some d) then Some d else None
                       | None => None
                       end;
      raw := JObj [("role", JStr "user"); ("parts", JArr (parts_of message))] |},
   {| name := JStr sender |}).

End Delivery.

(** ** The identity store, [keypair.ts]

    The functions of [keypair.ts] act on Node's key objects and on the file
    system. Both are parameters, collected in [Platform]; what is assumed
    of them is stated as named laws. *)

Module KeypairStore.

(** The DER prefixes of an Ed25519 key written out in [makeEdPrivateKey]
    and [makeEdPublicKey]: a PKCS#8 private key is the 16 bytes of the
    first followed by the 32 raw bytes, an SPKI public key the 12 bytes of
    the second followed by the 32 raw bytes. *)
Definition pkcs8_prefix : Buffer :=
  [x30; x2e; x02; x01; x00; x30; x05; x06; x03; x2b; x65; x70; x04; x22; x04; x20].
Definition spki_prefix : Buffer :=
  [x30; x2a; x30; x05; x06; x03; x2b; x65; x70; x03; x21; x00].

(** The DER [makeEdPrivateKey(raw)] and [makeEdPublicKey(raw)] hand to
    [createPrivateKey] and [createPublicKey]. *)
Definition makeEdPrivateKey_der (raw : Buffer) : Buffer := pkcs8_prefix ++ raw.
Definition makeEdPublicKey_der (raw : Buffer) : Buffer := spki_prefix ++ raw.

Record Platform := {
  (** [generateKeyPairSync("ed25519", ...)] with DER encodings, as a
      function of the 32 random bytes the key is made of: the public key
      (SPKI) and the private key (PKCS#8) *)
  spki_of_seed : Buffer -> Buffer;
  pkcs8_of_seed : Buffer -> Buffer;
  (** [createPublicKey({ key, format: "der", type: "spki" })] and
      [createPrivateKey({ key, format: "der", type: "pkcs8" })] *)
  KeyObject : Type;
  createPublicKey_der : Buffer -> outcome KeyObject;
  createPrivateKey_der : Buffer -> outcome KeyObject;
  (** [key.export({ type: "spki", format: "der" })] and
      [key.export({ type: "pkcs8", format: "der" })] *)
  export_spki : KeyObject -> outcome Buffer;
  export_pkcs8 : KeyObject -> outcome Buffer;
  (** [JSON.stringify(value, null, 2)] *)
  JSON_stringify_indented : json -> string;
  (** [Buffer.from(value, "hex")] on an array or an object *)
  Buffer_from_object : json -> outcome Buffer;
  (** the file system: [existsSync(path)], [mkdir(dir, { recursive: true })],
      [writeFile(path, data, { mode })], [readFile(path, "utf8")],
      [dirname(path)]; and the permission bits of a file, which the code
      does not read *)
  Disk : Type;
  existsSync : string -> Disk -> bool;
  mkdir_recursive : string -> Disk -> outcome unit * Disk;
  writeFile : string -> string -> Z -> Disk -> outcome unit * Disk;
  readFile : string -> Disk -> outcome string * Disk;
  dirname : string -> string;
  mode_of : string -> Disk -> option Z;
}.

(** What the functions act on: the disk and the random source. *)
Record Env (X : Platform) := { disk : Disk X; world : World }.
Arguments disk {X} _.
Arguments world {X} _.

Definition IO (X : Platform) (A : Type) : Type := Env X -> outcome A * Env X.

#[global] Instance IO_ret (X : Platform) : MRet (IO X) := fun A a env => (Returned a, env).
#[global] Instance IO_bind (X : Platform) : MBind (IO X) := fun A B k m env =>
  match m env with
  | (Returned a, env') => k a env'
  | (Thrown msg, env') => (Thrown msg, env')
  end.

Section WithPlatform.
Context (P : Primitives) (H : Host) (X : Platform).

Definition on_disk {A} (f : Disk X -> outcome A * Disk X) : IO X A :=
  fun env => let r := f (disk env) in (r.1, {| disk := r.2; world := world env |}).
Definition ask_disk {A} (f : Disk X -> A) : IO X A :=
  fun env => (Returned (f (disk env)), env).
Definition raise {A} (o : outcome A) : IO X A := fun env => (o, env).

(** [generateKeypair()] *)
Definition generateKeypair : IO X Keypair := fun env =>
  let w := world env in
  let seed := map (entropy w) (seq (cursor w) 32) in
  let env' := {| disk := disk env;
                 world := {| entropy := entropy w; cursor := cursor w + 32;
                             ops := ops w ++ [OpGenerateKeyPair seed] |} |} in
  let publicKey := spki_of_seed X seed in
  let privateKey := pkcs8_of_seed X seed in
  let keys : outcome (Buffer * Buffer) :=
    match createPublicKey_der X publicKey with
    | Thrown message => Thrown message
    | Returned pubKeyObj =>
        match createPrivateKey_der X privateKey with
        | Thrown message => Thrown message
        | Returned privKeyObj =>
            match export_spki X pubKeyObj with
            | Thrown message => Thrown message
            | Returned pubKeyRaw =>
                match export_pkcs8 X privKeyObj with
                | Thrown message => Thrown message
                | Returned privKeyRaw => Returned (pubKeyRaw, privKeyRaw)
                end
            end
        end
    end in
  match keys with
  | Thrown message => (Thrown message, env')
  | Returned (pubKeyRaw, privKeyRaw) =>
      let publicKeyBuf := subarray pubKeyRaw (Z.of_nat (length pubKeyRaw) - 32) None in
      let privateKeyBuf := subarray privKeyRaw 16 (Some 48%Z) in
      (Returned {| publicKey := publicKeyBuf; privateKey := privateKeyBuf |}, env')
  end.

(** The object [saveKeypair] writes. *)
Definition key_file (keypair : Keypair) : json :=
  JObj [("publicKey", JStr (Buffer_toString_hex (publicKey keypair)));
        ("privateKey", JStr (Buffer_toString_hex (privateKey keypair)))].

(** [saveKeypair(keypair, filePath)]; the mode is [0o600]. *)
Definition saveKeypair (keypair : Keypair) (filePath : string) : IO X unit :=
  let data := key_file keypair in
  let dir := dirname X filePath in
  present ← ask_disk (existsSync X dir);
  _ ← (if negb present then on_disk (mkdir_recursive X dir) else mret tt);
  on_disk (writeFile X filePath (JSON_stringify_indented X data) 384).

(** [Buffer.from(value, "hex")] on a value read from parsed JSON. *)
Definition Buffer_from_value_hex (value : option json) : outcome Buffer :=
  match value with
  | Some (JStr s) => Returned (Buffer_from_hex s)
  | Some (JArr items) => Buffer_from_object X (JArr items)
  | Some (JObj fields) => Buffer_from_object X (JObj fields)
  | _ => Thrown "The first argument must be of type string or an instance of Buffer, ArrayBuffer, or Array or an Array-like Object."
  end.

(** [loadKeypair(filePath)] *)
Definition loadKeypair (filePath : string) : IO X Keypair :=
  raw ← on_disk (readFile X filePath);
  data ← raise (JSON_parse H raw);
  publicKeyText ← raise (get (Some data) "publicKey");
  publicKey ← raise (Buffer_from_value_hex publicKeyText);
  privateKeyText ← raise (get (Some data) "privateKey");
  privateKey ← raise (Buffer_from_value_hex privateKeyText);
  mret {| publicKey := publicKey; privateKey := privateKey |}.

(** [loadOrGenerateKeypair(filePath)] *)
Definition loadOrGenerateKeypair (filePath : string) : IO X Keypair :=
  present ← ask_disk (existsSync X filePath);
  if present : bool then loadKeypair filePath
  else
    keypair ← generateKeypair;
    _ ← saveKeypair keypair filePath;
    mret keypair.

(** *** The two halves of a call that generates

    [loadOrGenerateKeypair] runs without interruption up to its first
    [await] that waits for the disk. On a path that does not exist this is
    the check of the path, [generateKeypair()] and the start of
    [saveKeypair], which checks the directory and starts [mkdir] or
    [writeFile]; the call resumes when the disk has done its part. Other
    calls may run in between. [Loaded] is a call that found the file, which
    is taken to read it at once. *)
Inductive Progress :=
| Loaded (keypair : Keypair)
| Saving (keypair : Keypair) (dirPresent : bool).

Definition loadOrGenerateKeypair_begin (filePath : string) : IO X Progress :=
  present ← ask_disk (existsSync X filePath);
  if present : bool then
    keypair ← loadKeypair filePath;
    mret (Loaded keypair)
  else
    keypair ← generateKeypair;
    dirPresent ← ask_disk (existsSync X (dirname X filePath));
    mret (Saving keypair dirPresent).

Definition loadOrGenerateKeypair_resume (filePath : string) (progress : Progress)
    : IO X Keypair :=
  match progress with
  | Loaded keypair => mret keypair
  | Saving keypair dirPresent =>
      _ ← (if negb dirPresent then on_disk (mkdir_recursive X (dirname X filePath))
           else mret tt);
      _ ← on_disk (writeFile X filePath (JSON_stringify_indented X (key_file keypair)) 384);
      mret keypair
  end.

(** *** What is assumed of the platform *)

(** Node writes an Ed25519 key in DER as [makeEdPrivateKey] and
    [makeEdPublicKey] do, and exports a key it has read as it was. *)
Definition der_layout : Prop :=
  forall seed : Buffer,
    length seed = 32 ->
    spki_of_seed X seed = makeEdPublicKey_der (ed25519_public P seed)
    /\ pkcs8_of_seed X seed = makeEdPrivateKey_der seed
    /\ exists pubKeyObj privKeyObj,
         createPublicKey_der X (spki_of_seed X seed) = Returned pubKeyObj
         /\ createPrivateKey_der X (pkcs8_of_seed X seed) = Returned privKeyObj
         /\ export_spki X pubKeyObj = Returned (spki_of_seed X seed)
         /\ export_pkcs8 X privKeyObj = Returned (pkcs8_of_seed X seed).

Definition public_key_32 : Prop :=
  forall seed : Buffer, length seed = 32 -> length (ed25519_public P seed) = 32.

(** [JSON.stringify(value, null, 2)] returns well-formed text that
    [JSON.parse] reads back as the value. *)
Definition indented_sound : Prop :=
  forall v : json,
    well_formed (JSON_stringify_indented X v)
    /\ JSON_parse H (JSON_stringify_indented X v) = Returned v.

(** Reading leaves the disk as it is; a file that was written exists and,
    the text written being well formed, reads back as written (the file
    holds the UTF-8 encoding of the text); making the directory of a path
    does not make the path; a file that is created gets no permission bit
    outside the mode asked for. *)
Definition disk_sound : Prop :=
  (forall path d r d', readFile X path d = (r, d') -> d' = d)
  /\ (forall path data mode d d',
        writeFile X path data mode d = (Returned tt, d') ->
        (well_formed data -> readFile X path d' = (Returned data, d'))
        /\ existsSync X path d' = true)
  /\ (forall path d r d',
        mkdir_recursive X (dirname X path) d = (r, d') ->
        existsSync X path d' = existsSync X path d)
  /\ (forall path data mode d d',
        writeFile X path data mode d = (Returned tt, d') ->
        existsSync X path d = false ->
        exists bits, mode_of X path d' = Some bits /\ Z.land bits (Z.lnot mode) = 0%Z).

End WithPlatform.
End KeypairStore.

(** ** A model of the platform of the identity store

    Files are a finite map from paths to their text and permission bits;
    every directory exists; a file that is created gets the mode asked
    for less the bits of the umask [0o022]. *)

Module ToyPlatform.
Import KeypairStore.

Definition files : Type := gmap string (string * Z).

Definition write (path data : string) (mode : Z) (d : files) : outcome unit * files :=
  (Returned tt,
   match d !! path with
   | Some (_, bits) => <[path := (data, bits)]> d
   | None => <[path := (data, Z.land mode (Z.lnot 18))]> d
   end).

Definition read (path : string) (d : files) : outcome string * files :=
  (match d !! path with
   | Some (data, _) => Returned data
   | None => Thrown "ENOENT: no such file or directory"
   end, d).

Definition platform : Platform :=
  {| spki_of_seed := fun seed => makeEdPublicKey_der (Toy.public seed);
     pkcs8_of_seed := makeEdPrivateKey_der;
     KeyObject := Buffer;
     createPublicKey_der := Returned;
     createPrivateKey_der := Returned;
     export_spki := Returned;
     export_pkcs8 := Returned;
     JSON_stringify_indented := ToyHost.stringify;
     Buffer_from_object := fun _ => Thrown "The first argument must be of type string";
     Disk := files;
     existsSync := fun path d => bool_decide (is_Some (d !! path)) || String.eqb path ".";
     mkdir_recursive := fun _ d => (Returned tt, d);
     writeFile := write;
     readFile := read;
     dirname := fun _ => ".";
     mode_of := fun path d => snd <$> d !! path |}.

(** An empty disk, and the path of the key file. *)
Definition fresh : Env platform :=
  @Build_Env platform (∅ : files) Toy.world.
Definition path : string := "identity.json".

End ToyPlatform.
(** * Properties of buffers *)

Lemma hex_pair_roundtrip (x : byte) :
  hex_value (hex_digit (Byte.to_N x / 16)) = Some (Byte.to_N x / 16)%N
  /\ hex_value (hex_digit (Byte.to_N x mod 16)) = Some (Byte.to_N x mod 16)%N.
Proof. destruct x; vm_compute; split; reflexivity. Qed.

Lemma Buffer_from_hex_toString (b : Buffer) :
  Buffer_from_hex (Buffer_toString_hex b) = b.
Proof.
  induction b as [|x b IH]; [reflexivity|].
  cbn [Buffer_toString_hex Buffer_from_hex].
  destruct (hex_pair_roundtrip x) as [-> ->].
  rewrite <- N.div_mod by discriminate.
  rewrite Byte.of_to_N, IH. reflexivity.
Qed.

Lemma hexToPublicKey_publicKeyToHex (pk : Buffer) :
  hexToPublicKey (publicKeyToHex pk) = pk.
Proof. apply Buffer_from_hex_toString. Qed.

(** ** UTF-8 *)

Lemma second_byte_bounds_le (x : byte) : ((second_byte_bounds x).2 <= 191)%N.
Proof. destruct x; cbn; lia. Qed.

(** Between two sequences the bounds play no part. *)
Lemma utf8_from_0 (lo hi lo' hi' : N) (b : Buffer) :
  utf8_from 0 lo hi b = utf8_from 0 lo' hi' b.
Proof. destruct b; reflexivity. Qed.

(** The decoder keeps bytes that are UTF-8 as they are. *)
Lemma decode_from_utf8 (b : Buffer) :
  forall (need : nat) (lo hi : N) (pending : Buffer),
    utf8_from need lo hi b = true ->
    decode_from need lo hi pending b
    = match need with 0 => [] | S _ => pending end ++ b.
Proof.
  induction b as [|x rest IH]; intros need lo hi pending Hv.
  - destruct need; [reflexivity | discriminate].
  - cbn [utf8_from decode_from] in *. cbv zeta.
    destruct need as [|n].
    + destruct (continuation_count x) as [[|k]|]; [| |discriminate].
      * rewrite (utf8_from_0 _ _ 128 191) in Hv.
        rewrite (IH 0 _ _ [] Hv). reflexivity.
      * rewrite (IH (S k) _ _ [x] Hv). reflexivity.
    + apply andb_prop in Hv. destruct Hv as [Hx Hv]. rewrite Hx.
      destruct n as [|k].
      * rewrite (IH 0 _ _ [] Hv). reflexivity.
      * rewrite (IH (S k) _ _ (pending ++ [x]) Hv), <- app_assoc. reflexivity.
Qed.

(** Bytes that are UTF-8 hold no surrogate, so the encoder has nothing to
    replace. *)
Lemma replace_surrogates_utf8 (b : Buffer) :
  forall (need : nat) (lo hi : N),
    (hi <= 191)%N ->
    utf8_from need lo hi b = true ->
    replace_surrogates b = b.
Proof.
  induction b as [|x tl IH]; intros need lo hi Hhi Hv; [reflexivity|].
  assert (Htl : replace_surrogates tl = tl).
  { cbn [utf8_from] in Hv. destruct need as [|n].
    - destruct (continuation_count x) as [k|]; [|discriminate].
      apply (IH k _ _ (second_byte_bounds_le x) Hv).
    - apply andb_prop in Hv. destruct Hv as [_ Hv].
      apply (IH n 128%N 191%N); [lia | exact Hv]. }
  cbn [replace_surrogates].
  destruct (Byte.eqb x xed) eqn:Hx; [|rewrite Htl; reflexivity].
  apply Byte.byte_dec_bl in Hx. subst x.
  destruct tl as [|y [|z rest]]; try (rewrite Htl; reflexivity).
  cbn [utf8_from] in Hv. destruct need as [|n].
  - change (continuation_count xed) with (Some 2) in Hv.
    change (second_byte_bounds xed) with (128%N, 159%N) in Hv.
    cbn [utf8_from fst snd] in Hv.
    apply andb_prop in Hv. destruct Hv as [Hy _].
    assert (Hno : in_range 160 191 y = false).
    { unfold in_range in *. apply andb_prop in Hy. destruct Hy as [_ Hy].
      apply N.leb_le in Hy. apply andb_false_iff. left. apply N.leb_gt. lia. }
    rewrite Hno. cbn [andb]. rewrite Htl. reflexivity.
  - apply andb_prop in Hv. destruct Hv as [Hx _].
    unfold in_range in Hx. apply andb_prop in Hx. destruct Hx as [_ Hx].
    apply N.leb_le in Hx. change (Byte.to_N xed) with 237%N in Hx. lia.
Qed.

Lemma Buffer_from_utf8_well_formed (s : string) :
  well_formed s -> Buffer_from_utf8 s = list_byte_of_string s.
Proof.
  intros Hs. unfold Buffer_from_utf8.
  apply (replace_surrogates_utf8 _ 0 128%N 191%N); [lia | exact Hs].
Qed.

(** The text of a buffer that holds the encoding of a well-formed string is
    that string. *)
Lemma Buffer_utf8_roundtrip (s : string) :
  well_formed s -> Buffer_toString_utf8 (Buffer_from_utf8 s) = s.
Proof.
  intros Hs. unfold Buffer_toString_utf8.
  rewrite (Buffer_from_utf8_well_formed s Hs).
  rewrite (decode_from_utf8 _ 0 128%N 191%N [] Hs).
  apply string_of_list_byte_of_string.
Qed.

(** Text in ASCII is well formed. *)
Lemma ascii_is_utf8 (b : Buffer) :
  Forall (fun x => (Byte.to_N x < 128)%N) b ->
  forall lo hi, utf8_from 0 lo hi b = true.
Proof.
  induction 1 as [|x rest Hx _ IH]; intros lo hi; [reflexivity|].
  cbn [utf8_from].
  assert (Hc : continuation_count x = Some 0).
  { unfold continuation_count, in_range.
    replace (Byte.to_N x <=? 127)%N with true by (symmetry; apply N.leb_le; lia).
    replace (0 <=? Byte.to_N x)%N with true by (symmetry; apply N.leb_le; lia).
    reflexivity. }
  rewrite Hc. apply IH.
Qed.

Lemma to_N_inj (x y : byte) : Byte.to_N x = Byte.to_N y -> x = y.
Proof.
  intros H. apply (f_equal Byte.of_N) in H.
  rewrite !Byte.of_to_N in H. congruence.
Qed.

Lemma Buffer_compare_Eq (a b : Buffer) : Buffer_compare a b = Eq -> a = b.
Proof.
  revert b; induction a as [|x a IH]; intros [|y b]; cbn; try discriminate; auto.
  destruct (N.compare_spec (Byte.to_N x) (Byte.to_N y)) as [E| |]; try discriminate.
  intros H. f_equal; [apply to_N_inj, E | apply IH, H].
Qed.

Lemma Buffer_compare_antisym (a b : Buffer) :
  Buffer_compare b a = CompOpp (Buffer_compare a b).
Proof.
  revert b; induction a as [|x a IH]; intros [|y b]; cbn; auto.
  rewrite (N.compare_antisym (Byte.to_N x) (Byte.to_N y)).
  destruct (Byte.to_N x ?= Byte.to_N y)%N; cbn; auto.
Qed.

(** The sorted pair does not depend on the order of the two keys. *)
Lemma sort2_comm (a b : Buffer) : sort2 a b = sort2 b a.
Proof.
  unfold sort2. rewrite (Buffer_compare_antisym a b).
  destruct (Buffer_compare a b) eqn:E; cbn; auto.
  apply Buffer_compare_Eq in E. subst. reflexivity.
Qed.

Lemma subarray_tag (ct tag : Buffer) :
  length tag = 16 ->
  subarray (ct ++ tag) (Z.of_nat (length (ct ++ tag)) - 16) None = tag.
Proof.
  intros Ht. unfold subarray, adjustOffset. rewrite length_app, Ht.
  destruct (Z.ltb_spec (Z.of_nat (length ct + 16) - 16) 0) as [H|H]; [lia|].
  replace (Z.to_nat (Z.of_nat (length ct + 16) - 16)) with (length ct) by lia.
  rewrite Nat.min_l by lia.
  rewrite drop_app_length.
  apply take_ge. lia.
Qed.

Lemma subarray_data (ct tag : Buffer) :
  length tag = 16 ->
  subarray (ct ++ tag) 0 (Some (Z.of_nat (length (ct ++ tag)) - 16)%Z) = ct.
Proof.
  intros Ht. unfold subarray, adjustOffset. rewrite length_app, Ht.
  destruct (Z.ltb_spec (Z.of_nat (length ct + 16) - 16) 0) as [H|H]; [lia|].
  replace (Z.to_nat (Z.of_nat (length ct + 16) - 16)) with (length ct) by lia.
  cbn [Z.ltb Z.compare Z.to_nat].
  rewrite Nat.min_l by lia. rewrite Nat.min_0_l, Nat.sub_0_r.
  cbn [drop]. apply take_app_length.
Qed.

Lemma subarray_prefix (b : Buffer) (n : nat) :
  length b = n -> subarray b 0 (Some (Z.of_nat n)) = b.
Proof.
  intros <-. unfold subarray, adjustOffset.
  destruct (Z.ltb_spec (Z.of_nat (length b)) 0) as [H|H]; [lia|].
  cbn [Z.ltb Z.compare Z.to_nat]. rewrite Nat2Z.id, Nat.min_id, Nat.min_0_l, Nat.sub_0_r.
  cbn [drop]. apply take_ge. lia.
Qed.

(** * The model of the primitives satisfies the laws *)

Lemma toy_base64_sound : base64_sound Toy.primitives.
Proof. intros b. apply Buffer_from_hex_toString. Qed.

Lemma toy_sha256_sound : sha256_sound Toy.primitives.
Proof.
  intros b. cbn. unfold Toy.hash.
  rewrite length_take, length_app, repeat_length. lia.
Qed.

Lemma toy_ed25519_sound : ed25519_sound Toy.primitives.
Proof.
  intros seed data _. exists (seed ++ data). split; [reflexivity|].
  cbn. unfold Toy.verify, Toy.public. rewrite bool_decide_eq_true_2; reflexivity.
Qed.

Lemma toy_aead_sound : aead_sound Toy.primitives.
Proof.
  intros key nonce pt Hk Hn. exists pt, (Toy.tag_of key nonce). cbn.
  unfold Toy.seal, Toy.open.
  rewrite bool_decide_eq_true_2 by auto.
  rewrite bool_decide_eq_true_2 by reflexivity.
  repeat split. unfold Toy.tag_of.
  rewrite length_take, !length_app, repeat_length. lia.
Qed.

Lemma toy_alice_valid : valid_keypair Toy.primitives Toy.alice.
Proof. split; reflexivity. Qed.

Lemma toy_bob_valid : valid_keypair Toy.primitives Toy.bob.
Proof. split; reflexivity. Qed.

(** Induction on JSON values, with the hypothesis for every element of an
    array and every property of an object. *)
Lemma json_nested_ind (Q : json -> Prop) :
  Q JNull ->
  (forall b, Q (JBool b)) ->
  (forall n, Q (JNum n)) ->
  (forall s, Q (JStr s)) ->
  (forall items, Forall Q items -> Q (JArr items)) ->
  (forall fields, Forall (fun kv => Q kv.2) fields -> Q (JObj fields)) ->
  forall v, Q v.
Proof.
  intros HNull HBool HNum HStr HArr HObj.
  fix IH 1.
  intros [| b | n | s | items | fields];
    [apply HNull | apply HBool | apply HNum | apply HStr | apply HArr | apply HObj].
  - induction items as [|x items IHitems]; constructor; [apply IH | exact IHitems].
  - induction fields as [|[k x] fields IHfields]; constructor; [apply IH | exact IHfields].
Qed.

Lemma toy_of_tree_to_tree (v : json) : ToyHost.of_tree (ToyHost.to_tree v) = Some v.
Proof.
  induction v as [| b | n | s | items IH | fields IH] using json_nested_ind;
    try reflexivity.
  - cbn [ToyHost.to_tree ToyHost.of_tree].
    assert (Hm : mapM ToyHost.of_tree (map ToyHost.to_tree items) = Some items).
    { induction IH as [|x items Hx _ IHm]; [reflexivity|].
      cbn. rewrite Hx. cbn. rewrite IHm. reflexivity. }
    rewrite Hm. reflexivity.
  - cbn [ToyHost.to_tree ToyHost.of_tree].
    match goal with |- JObj <$> ?m = _ => assert (Hm : m = Some fields) end.
    { induction IH as [|[k x] fields Hx _ IHm]; [reflexivity|].
      cbn in Hx. cbn. rewrite Hx. cbn. rewrite IHm. reflexivity. }
    rewrite Hm. reflexivity.
Qed.

Lemma toy_of_bits_bits (p : positive) : ToyHost.of_bits (ToyHost.bits p) = Some p.
Proof. induction p as [q IH|q IH|]; cbn; try rewrite IH; reflexivity. Qed.

Lemma toy_json_sound : json_sound ToyHost.host.
Proof.
  intros v. cbn. unfold ToyHost.parse, ToyHost.stringify.
  rewrite toy_of_bits_bits, decode_encode, toy_of_tree_to_tree. reflexivity.
Qed.

Lemma toy_bits_ascii (p : positive) :
  Forall (fun x => (Byte.to_N x < 128)%N) (list_byte_of_string (ToyHost.bits p)).
Proof.
  induction p as [q IH|q IH|]; cbn; constructor; try exact IH; cbn; lia.
Qed.

Lemma toy_stringify_well_formed : stringify_well_formed ToyHost.host.
Proof. intros v. apply ascii_is_utf8, toy_bits_ascii. Qed.

Lemma toy_signs_events (kp : Keypair) : signs_events Toy.primitives ToyHost.host kp.
Proof. split; [eexists; reflexivity | intros message; eexists; reflexivity]. Qed.

(** The host whose library is not configured differs from the other in
    [schnorr.sign] only. *)
Lemma toy_unconfigured_json_sound : json_sound ToyHost.unconfigured.
Proof. exact toy_json_sound. Qed.

Lemma toy_unconfigured_stringify_well_formed : stringify_well_formed ToyHost.unconfigured.
Proof. exact toy_stringify_well_formed. Qed.

(** * The envelope codecs *)

Ltac run_eff :=
  unfold mbind, mret, Eff_bind, Eff_ret, bind, ret, throw, try_catch, record, lift,
    randomBytes in *; cbn [fst snd entropy cursor ops] in *.

Lemma randomBytes_run (n : nat) (w : World) :
  randomBytes n w =
    (Returned (map (entropy w) (seq (cursor w) n)),
     {| entropy := entropy w; cursor := cursor w + n;
        ops := ops w ++ [OpRandomBytes n (map (entropy w) (seq (cursor w) n))] |}).
Proof. reflexivity. Qed.

Lemma random_length (e : nat -> byte) (c n : nat) : length (map e (seq c n)) = n.
Proof. rewrite length_map. apply length_seq. Qed.

Section SealedCodec.
Context (P : Primitives).
Local Abbreviation sealed_key := (sealed_key P).

Lemma sealed_key_comm (a b : Buffer) : sealed_key a b = sealed_key b a.
Proof. unfold sealed_key. rewrite (sort2_comm a b). reflexivity. Qed.

(** What [encryptMessage] returns, in terms of the primitives' results. *)
Lemma sealed_encrypt_run (plaintext : string) (A : Keypair) (pubB : Buffer) (w : World)
    (ct tag sig : Buffer) :
  let nonce := map (entropy w) (seq (cursor w + 32) 12) in
  let key := sealed_key (publicKey A) pubB in
  chacha20poly1305_encrypt P key nonce (Buffer_from_utf8 plaintext) = Returned (ct, tag) ->
  cryptoSign P ((ct ++ tag) ++ nonce) (privateKey A) = Returned sig ->
  Sealed.encryptMessage P plaintext A pubB w =
    (Returned {| Sealed.ciphertext := base64_encode P (ct ++ tag);
                 Sealed.nonce := base64_encode P nonce;
                 Sealed.senderPubKey := Buffer_toString_hex (publicKey A);
                 Sealed.signature := base64_encode P sig;
                 Sealed.ephemeralPubKey := "" |},
     {| entropy := entropy w; cursor := cursor w + 32 + 12;
        ops := ops w ++ [OpGenerateKeyPair (map (entropy w) (seq (cursor w) 32));
                         OpRandomBytes 12 nonce;
                         OpHash (concat [(sort2 (publicKey A) pubB).1;
                                         (sort2 (publicKey A) pubB).2;
                                         Sealed.domain_separation]);
                         OpCipher key nonce (Buffer_from_utf8 plaintext);
                         OpSign ((ct ++ tag) ++ nonce) (privateKey A)] |}).
Proof.
  intros nonce key Hc Hs.
  unfold Sealed.encryptMessage, Sealed.generateKeyPairSync_x25519,
    Sealed.createHash_sha256, Sealed.cipher, Sealed.sign.
  subst nonce key. unfold sealed_key in *.
  run_eff. rewrite Hc. cbn [fst snd]. rewrite Hs.
  repeat rewrite <- (app_assoc (ops w)). reflexivity.
Qed.

(** What [decryptMessage] returns on an envelope whose signature verifies
    and whose ciphertext opens. *)
Lemma sealed_decrypt_run (env : Sealed.EncryptedMessage) (B : Keypair) (w : World)
    (pt : Buffer) :
  let ct := base64_decode P (Sealed.ciphertext env) in
  let nonce := base64_decode P (Sealed.nonce env) in
  let pubA := Buffer_from_hex (Sealed.senderPubKey env) in
  let sig := base64_decode P (Sealed.signature env) in
  let key := sealed_key pubA (publicKey B) in
  let tag := subarray ct (Z.of_nat (length ct) - 16) None in
  let data := subarray ct 0 (Some (Z.of_nat (length ct) - 16)%Z) in
  cryptoVerify P (ct ++ nonce) pubA sig = Returned true ->
  chacha20poly1305_decrypt P key nonce data tag = Returned pt ->
  Sealed.decryptMessage P env B w =
    (Returned (Success (Buffer_toString_utf8 pt)),
     {| entropy := entropy w; cursor := cursor w;
        ops := ops w ++ [OpVerify (ct ++ nonce) pubA sig;
                         OpHash (concat [(sort2 pubA (publicKey B)).1;
                                         (sort2 pubA (publicKey B)).2;
                                         Sealed.domain_separation]);
                         OpDecipher key nonce data tag] |}).
Proof.
  intros ct nonce pubA sig key tag data Hv Hd.
  subst ct nonce pubA sig key tag data. unfold sealed_key in *.
  unfold Sealed.decryptMessage, Sealed.verify, Sealed.createHash_sha256, Sealed.decipher.
  run_eff. rewrite Hv. cbn [negb]. run_eff. rewrite Hd. run_eff.
  repeat rewrite <- (app_assoc (ops w)). reflexivity.
Qed.

(** Whenever [encryptMessage] returns, it returned what [sealed_encrypt_run]
    describes. *)
Lemma sealed_encrypt_inv (plaintext : string) (A : Keypair) (pubB : Buffer)
    (w w' : World) (env : Sealed.EncryptedMessage) :
  Sealed.encryptMessage P plaintext A pubB w = (Returned env, w') ->
  let nonce := map (entropy w) (seq (cursor w + 32) 12) in
  let key := sealed_key (publicKey A) pubB in
  exists ct tag sig,
    chacha20poly1305_encrypt P key nonce (Buffer_from_utf8 plaintext) = Returned (ct, tag)
    /\ cryptoSign P ((ct ++ tag) ++ nonce) (privateKey A) = Returned sig
    /\ env = {| Sealed.ciphertext := base64_encode P (ct ++ tag);
                Sealed.nonce := base64_encode P nonce;
                Sealed.senderPubKey := Buffer_toString_hex (publicKey A);
                Sealed.signature := base64_encode P sig;
                Sealed.ephemeralPubKey := "" |}
    /\ cursor w' = cursor w + 32 + 12
    /\ ops w' = ops w ++ [OpGenerateKeyPair (map (entropy w) (seq (cursor w) 32));
                          OpRandomBytes 12 nonce;
                          OpHash (concat [(sort2 (publicKey A) pubB).1;
                                          (sort2 (publicKey A) pubB).2;
                                          Sealed.domain_separation]);
                          OpCipher key nonce (Buffer_from_utf8 plaintext);
                          OpSign ((ct ++ tag) ++ nonce) (privateKey A)].
Proof.
  intros H nonce key.
  destruct (chacha20poly1305_encrypt P key nonce (Buffer_from_utf8 plaintext))
    as [[ct tag]|msg] eqn:Hc.
  - destruct (cryptoSign P ((ct ++ tag) ++ nonce) (privateKey A)) as [sig|msg] eqn:Hs.
    + rewrite (sealed_encrypt_run plaintext A pubB w ct tag sig Hc Hs) in H.
      inversion H; subst. exists ct, tag, sig. cbn [cursor ops]. auto.
    + exfalso. revert H. subst nonce key. unfold sealed_key in *.
      unfold Sealed.encryptMessage, Sealed.generateKeyPairSync_x25519,
        Sealed.createHash_sha256, Sealed.cipher, Sealed.sign.
      run_eff. rewrite Hc. cbn [fst snd]. rewrite Hs. discriminate.
  - exfalso. revert H. subst nonce key. unfold sealed_key in *.
    unfold Sealed.encryptMessage, Sealed.generateKeyPairSync_x25519,
      Sealed.createHash_sha256, Sealed.cipher, Sealed.sign.
    run_eff. rewrite Hc. discriminate.
Qed.

(** [encryptMessage] of a valid sender returns an envelope, and whoever
    holds the public key the message was addressed to opens it, to the text
    Node reads back from the UTF-8 encoding of the plaintext. *)
Lemma sealed_opens (plaintext : string) (A : Keypair) (pubB : Buffer) (w : World) :
  base64_sound P -> sha256_sound P -> ed25519_sound P -> aead_sound P ->
  valid_keypair P A ->
  exists env w',
    Sealed.encryptMessage P plaintext A pubB w = (Returned env, w')
    /\ forall B w2, publicKey B = pubB ->
                    (Sealed.decryptMessage P env B w2).1
                    = Returned (Success (Buffer_toString_utf8 (Buffer_from_utf8 plaintext))).
Proof.
  intros H64 Hsha Hed Haead [Hlen Hpub].
  set (nonce := map (entropy w) (seq (cursor w + 32) 12)).
  set (key := sealed_key (publicKey A) pubB).
  destruct (Haead key nonce (Buffer_from_utf8 plaintext)) as (ct & tag & Hc & Htag & Hd).
  { apply Hsha. }
  { apply random_length. }
  destruct (Hed (privateKey A) ((ct ++ tag) ++ nonce) Hlen) as (sig & Hs & Hv).
  eexists; eexists; split.
  { apply (sealed_encrypt_run plaintext A pubB w ct tag sig Hc Hs). }
  intros B w2 <-.
  rewrite (sealed_decrypt_run _ B w2 (Buffer_from_utf8 plaintext)); cbn [fst].
  - reflexivity.
  - cbn [Sealed.ciphertext Sealed.nonce Sealed.senderPubKey Sealed.signature].
    rewrite !H64, Buffer_from_hex_toString, Hpub. exact Hv.
  - cbn [Sealed.ciphertext Sealed.nonce Sealed.senderPubKey Sealed.signature].
    rewrite !H64, Buffer_from_hex_toString.
    rewrite (subarray_tag ct tag Htag), (subarray_data ct tag Htag). exact Hd.
Qed.

(** C1, as the code has it. For every plaintext and every pair of keypairs
    of which the sender's is a valid Ed25519 keypair, [encryptMessage] of
    [src/unnamed/part_003] returns an envelope, and [decryptMessage] with the
    recipient's keypair succeeds on it; what it returns is the text Node
    reads back from the UTF-8 encoding of the plaintext, which is exactly
    the plaintext when the plaintext is well formed (has no unpaired
    surrogate). *)
Theorem sealed_roundtrip (plaintext : string) (A B : Keypair) (w : World) :
  base64_sound P -> sha256_sound P -> ed25519_sound P -> aead_sound P ->
  valid_keypair P A ->
  exists env w',
    Sealed.encryptMessage P plaintext A (publicKey B) w = (Returned env, w')
    /\ (forall w2, (Sealed.decryptMessage P env B w2).1
                   = Returned (Success (Buffer_toString_utf8 (Buffer_from_utf8 plaintext))))
    /\ (well_formed plaintext ->
        forall w2, (Sealed.decryptMessage P env B w2).1 = Returned (Success plaintext)).
Proof.
  intros H64 Hsha Hed Haead HA.
  destruct (sealed_opens plaintext A (publicKey B) w H64 Hsha Hed Haead HA)
    as (env & w' & Henc & Hdec).
  exists env, w'. split; [exact Henc|]. split.
  - intros w2. apply Hdec. reflexivity.
  - intros Hwf w2. rewrite (Hdec B w2 eq_refl), (Buffer_utf8_roundtrip plaintext Hwf).
    reflexivity.
Qed.

(** X1. The signature of a produced envelope is the Ed25519 signature, by the
    sender's private key, of ciphertext‖nonce. *)
Lemma sealed_signature_covers_nonce (plaintext : string) (A : Keypair) (pubB : Buffer)
    (w w' : World) (env : Sealed.EncryptedMessage) :
  base64_sound P ->
  Sealed.encryptMessage P plaintext A pubB w = (Returned env, w') ->
  cryptoSign P (base64_decode P (Sealed.ciphertext env) ++ base64_decode P (Sealed.nonce env))
             (privateKey A)
  = Returned (base64_decode P (Sealed.signature env)).
Proof.
  intros H64 H. destruct (sealed_encrypt_inv _ _ _ _ _ _ H) as (ct & tag & sig & _ & Hs & -> & _).
  cbn [Sealed.ciphertext Sealed.nonce Sealed.signature]. rewrite !H64. exact Hs.
Qed.

(** [decryptMessage] verifies the signature over ciphertext‖nonce with the
    sender's key first; unless that returns [true] nothing else is done, and
    when it returns [false] the result is the invalid-signature failure. *)
Lemma sealed_decrypt_verifies_first (env : Sealed.EncryptedMessage) (B : Keypair) (w : World) :
  let ct := base64_decode P (Sealed.ciphertext env) in
  let nonce := base64_decode P (Sealed.nonce env) in
  let pubA := Buffer_from_hex (Sealed.senderPubKey env) in
  let sig := base64_decode P (Sealed.signature env) in
  let w1 := {| entropy := entropy w; cursor := cursor w;
               ops := ops w ++ [OpVerify (ct ++ nonce) pubA sig] |} in
  match cryptoVerify P (ct ++ nonce) pubA sig with
  | Returned true =>
      exists r key data tag,
        Sealed.decryptMessage P env B w =
          (Returned r,
           {| entropy := entropy w; cursor := cursor w;
              ops := ops w1 ++ [OpHash (concat [(sort2 pubA (publicKey B)).1;
                                                (sort2 pubA (publicKey B)).2;
                                                Sealed.domain_separation]);
                                OpDecipher key nonce data tag] |})
  | Returned false =>
      Sealed.decryptMessage P env B w = (Returned (Failure "Invalid signature"), w1)
  | Thrown message =>
      Sealed.decryptMessage P env B w = (Returned (Failure message), w1)
  end.
Proof.
  intros ct nonce pubA sig w1.
  destruct (cryptoVerify P (ct ++ nonce) pubA sig) as [[|]|msg] eqn:Hv;
    subst ct nonce pubA sig w1;
    unfold Sealed.decryptMessage, Sealed.verify, Sealed.createHash_sha256, Sealed.decipher;
    run_eff; rewrite Hv; cbn [negb]; run_eff; try reflexivity.
  match goal with
  | |- context [chacha20poly1305_decrypt P ?k ?n ?d ?t] =>
      destruct (chacha20poly1305_decrypt P k n d t) as [pt|msg] eqn:Hd;
      [exists (Success (Buffer_toString_utf8 pt)), k, d, t
      |exists (Failure msg), k, d, t]
  end; run_eff; rewrite <- ?app_assoc; reflexivity.
Qed.

(** X2. Every call draws 12 bytes from the random source, at a position no
    earlier call has read, and the nonce field of the envelope is their
    base64 encoding. *)
Lemma sealed_nonce_12 (plaintext : string) (A : Keypair) (pubB : Buffer)
    (w w' : World) (env : Sealed.EncryptedMessage) :
  Sealed.encryptMessage P plaintext A pubB w = (Returned env, w') ->
  let nonce := map (entropy w) (seq (cursor w + 32) 12) in
  length nonce = 12
  /\ Sealed.nonce env = base64_encode P nonce
  /\ In (OpRandomBytes 12 nonce) (ops w')
  /\ cursor w' = cursor w + 32 + 12.
Proof.
  intros H nonce.
  destruct (sealed_encrypt_inv _ _ _ _ _ _ H) as (ct & tag & sig & _ & _ & -> & Hc & Ho).
  split; [apply random_length|]. split; [reflexivity|]. split; [|exact Hc].
  rewrite Ho. apply in_or_app. right. cbn. auto.
Qed.

End SealedCodec.


(** The codec keyed by the sorted public keys is sound for valid Ed25519
    keypairs. *)
Lemma sealed_codec_sound (P : Primitives) :
  base64_sound P -> sha256_sound P -> ed25519_sound P -> aead_sound P ->
  codec_sound (sealed_codec P) (valid_keypair P).
Proof.
  intros H64 Hsha Hed Haead plaintext A pubB w Hwf HA.
  destruct (sealed_opens P plaintext A pubB w H64 Hsha Hed Haead HA)
    as (env & w' & Henc & Hdec).
  exists env, w'. split; [exact Henc|]. split.
  - destruct env; reflexivity.
  - intros B w2 HB.
    pose proof (Hdec B w2 HB) as Hd. rewrite (Buffer_utf8_roundtrip plaintext Hwf) in Hd.
    cbn [decryptMessage sealed_codec].
    destruct (Sealed.decryptMessage P env B w2) as [r w3]. cbn [fst] in Hd. subst r.
    exists w3. reflexivity.
Qed.

Lemma sealed_roundtrip_witness :
  exists env w',
    Sealed.encryptMessage Toy.primitives "ping" Toy.alice (publicKey Toy.bob) Toy.world
    = (Returned env, w')
    /\ forall w2, (Sealed.decryptMessage Toy.primitives env Toy.bob w2).1
                  = Returned (Success "ping").
Proof.
  destruct (sealed_roundtrip Toy.primitives "ping" Toy.alice Toy.bob Toy.world
              toy_base64_sound toy_sha256_sound toy_ed25519_sound toy_aead_sound
              toy_alice_valid) as (env & w' & Henc & _ & Hdec).
  exists env, w'. split; [exact Henc|]. apply Hdec. reflexivity.
Defined.

(** ** The codec of [src/relay/encryption.ts] *)

Section EcdhCodec.
Context (P : Primitives).

(** [sign] never returns: once the key is built, [createSign(null)] throws. *)
Lemma ecdh_sign_throws (data privateKey : Buffer) (w : World) :
  exists message,
    Ecdh.sign P data privateKey w = (Thrown message, w)
    /\ (forall key, createPrivateKey P (Ecdh.pkcs8_ed25519 ++ privateKey) = Returned key ->
                    message = invalid_algorithm).
Proof.
  unfold Ecdh.sign, createSign. run_eff.
  destruct (createPrivateKey P _) as [key|msg]; eexists; (split; [reflexivity|]).
  - reflexivity.
  - intros key [=].
Qed.

(** Neither does [verify]: [createVerify(null)] throws. *)
Lemma ecdh_verify_throws (data signature publicKey : Buffer) (w : World) :
  exists message,
    Ecdh.verify P data signature publicKey w = (Thrown message, w)
    /\ (forall key, createPublicKey P (Ecdh.spki_ed25519 ++ publicKey) = Returned key ->
                    message = invalid_algorithm).
Proof.
  unfold Ecdh.verify, createVerify. run_eff.
  destruct (createPublicKey P _) as [key|msg]; eexists; (split; [reflexivity|]).
  - reflexivity.
  - intros key [=].
Qed.

(** The key agreement touches neither the random source nor its cursor. *)
Lemma ecdh_deriveSharedSecret_world (ourPrivate theirPublic : Buffer) (w : World) :
  let r := Ecdh.deriveSharedSecret P ourPrivate theirPublic w in
  entropy r.2 = entropy w /\ cursor r.2 = cursor w
  /\ forall key iv pt, In (OpCipher key iv pt) (ops r.2) -> In (OpCipher key iv pt) (ops w).
Proof.
  unfold Ecdh.deriveSharedSecret, Ecdh.ed25519PrivateToX25519, Ecdh.ed25519PublicToX25519.
  run_eff.
  destruct (createPrivateKey P (Ecdh.pkcs8_ed25519 ++ ourPrivate)) as [k1|m]; run_eff; auto.
  destruct (createPrivateKey P (Ecdh.pkcs8_x25519 ++ k1)) as [k2|m]; run_eff; auto.
  destruct (createPublicKey P (Ecdh.spki_ed25519 ++ theirPublic)) as [k3|m]; run_eff; auto.
  destruct (createPublicKey P (Ecdh.spki_x25519 ++ k3)) as [k4|m]; run_eff; auto.
  assert (Hin : forall key iv pt,
             In (OpCipher key iv pt) (ops w ++ [OpDiffieHellman k2 k4]) ->
             In (OpCipher key iv pt) (ops w)).
  { intros key iv pt Hin. apply in_app_or in Hin. destruct Hin as [Hin|[Hin|[]]];
      [exact Hin | discriminate]. }
  destruct (diffieHellman P k2 k4) as [secret|m]; cbn [fst snd entropy cursor ops]; auto.
Qed.

(** A call of [encryptMessage]: whatever the primitives do, it throws. When
    the key agreement has returned, 24 bytes are drawn from the random
    source and the cipher is given the first 12 of them; the call then ends
    with what the cipher throws or with what [sign] throws. *)
Lemma ecdh_encrypt_run (plaintext : string) (A : Keypair) (pubB : Buffer) (w : World) :
  let r := Ecdh.encryptMessage P plaintext A pubB w in
  (exists message, r.1 = Thrown message)
  /\ forall secret w1,
       Ecdh.deriveSharedSecret P (privateKey A) pubB w = (Returned secret, w1) ->
       let drawn := map (entropy w) (seq (cursor w) 24) in
       cursor r.2 = cursor w + 24
       /\ ops r.2 = ops w1 ++ [OpRandomBytes 24 drawn;
                               OpCipher (subarray secret 0 (Some 32%Z))
                                        (subarray drawn 0 (Some 12%Z))
                                        (Buffer_from_utf8 plaintext)].
Proof.
  intros r. subst r.
  pose proof (ecdh_deriveSharedSecret_world (privateKey A) pubB w) as (He & Hc & _).
  unfold Ecdh.encryptMessage, Ecdh.cipher. run_eff.
  destruct (Ecdh.deriveSharedSecret P (privateKey A) pubB w) as [[secret|msg] w1];
    cbn [fst snd] in *.
  - rewrite He, Hc.
    match goal with
    | |- context [chacha20poly1305_encrypt P ?k ?n ?d] =>
        destruct (chacha20poly1305_encrypt P k n d) as [[ct tag]|msg]
    end; run_eff.
    + match goal with
      | |- context [Ecdh.sign P ?d ?k ?w0] =>
          destruct (ecdh_sign_throws d k w0) as (message & -> & _)
      end.
      cbn [fst snd cursor ops]. split; [eexists; reflexivity|].
      intros secret' w1' [= <- <-]. rewrite <- app_assoc. auto.
    + cbn [fst snd cursor ops]. split; [eexists; reflexivity|].
      intros secret' w1' [= <- <-]. rewrite <- app_assoc. auto.
  - split; [eexists; reflexivity|]. intros secret' w1' [=].
Qed.

(** A call of [decryptMessage]: whatever the envelope and the primitives,
    it returns a failure and leaves the record of the operations as it was:
    nothing was verified, agreed on or decrypted. *)
Lemma ecdh_decrypt_fails (env : Ecdh.EncryptedMessage) (B : Keypair) (w : World) :
  exists message,
    Ecdh.decryptMessage P env B w = (Returned (Failure message), w)
    /\ (forall key,
          createPublicKey P (Ecdh.spki_ed25519 ++ Buffer_from_hex (Ecdh.senderPubKey env))
          = Returned key ->
          message = invalid_algorithm).
Proof.
  unfold Ecdh.decryptMessage. run_eff.
  match goal with
  | |- context [Ecdh.verify P ?d ?s ?k ?w0] =>
      destruct (ecdh_verify_throws d s k w0) as (message & -> & Hm)
  end.
  exists message. split; [reflexivity | exact Hm].
Qed.

End EcdhCodec.

(** C1, where the code departs from it. A plaintext that consists of an
    unpaired surrogate is encrypted and decrypted without error by the codec
    of [src/unnamed/part_003], and comes back as another text, the
    replacement character; and [encryptMessage] of [src/relay/encryption.ts]
    returns no envelope for the plaintext "ping": it throws. *)
Lemma roundtrip_fails_on_unpaired_surrogate :
  (exists env w',
      Sealed.encryptMessage Toy.primitives Toy.lone_surrogate Toy.alice (publicKey Toy.bob)
        Toy.world = (Returned env, w')
      /\ (Sealed.decryptMessage Toy.primitives env Toy.bob w').1
         = Returned (Success Toy.replacement_text)
      /\ Toy.replacement_text <> Toy.lone_surrogate)
  /\ (Ecdh.encryptMessage Toy.primitives "ping" Toy.alice (publicKey Toy.bob) Toy.world).1
     = Thrown invalid_algorithm.
Proof.
  split.
  - eexists; eexists. split; [vm_compute; reflexivity|].
    split; [vm_compute; reflexivity | discriminate].
  - vm_compute. reflexivity.
Qed.





(** ** Further properties of the codecs, of identities and of wire events *)

Lemma Buffer_toString_hex_length (b : Buffer) :
  String.length (Buffer_toString_hex b) = 2 * length b.
Proof.
  induction b as [|x b IH]; [reflexivity|].
  cbn [Buffer_toString_hex String.length length]. rewrite IH. lia.
Qed.

(** X16. The hex form of a public key identifies it: decoding the hex form
    gives the key back, the hex form has two characters for each byte, and
    two keys with the same hex form are the same key. *)
Theorem identity_hex_is_faithful (pk pk' : Buffer) :
  hexToPublicKey (publicKeyToHex pk) = pk
  /\ String.length (publicKeyToHex pk) = 2 * length pk
  /\ (publicKeyToHex pk = publicKeyToHex pk' -> pk = pk').
Proof.
  unfold hexToPublicKey, publicKeyToHex.
  split; [apply Buffer_from_hex_toString|].
  split; [apply Buffer_toString_hex_length|].
  intros Heq. rewrite <- (Buffer_from_hex_toString pk), Heq.
  apply Buffer_from_hex_toString.
Qed.

(** X17. Neither codec's [decryptMessage] ever throws: whatever the envelope
    and whatever the primitives do (return, refuse a key, fail to
    authenticate), the call returns a success or a failure value. *)
Theorem decryptMessage_never_throws (P : Primitives) :
  (forall (env : Sealed.EncryptedMessage) (B : Keypair) (w : World),
      exists r, (Sealed.decryptMessage P env B w).1 = Returned r)
  /\ (forall (env : Ecdh.EncryptedMessage) (B : Keypair) (w : World),
        exists r, (Ecdh.decryptMessage P env B w).1 = Returned r).
Proof.
  split; intros env B w.
  - unfold Sealed.decryptMessage, Sealed.verify, Sealed.createHash_sha256, Sealed.decipher.
    run_eff.
    destruct (cryptoVerify P _ _ _) as [[|]|msg]; cbn [negb]; run_eff;
      try (eexists; reflexivity).
    destruct (chacha20poly1305_decrypt P _ _ _ _) as [pt|msg]; run_eff;
      eexists; reflexivity.
  - destruct (ecdh_decrypt_fails P env B w) as (message & -> & _).
    eexists. reflexivity.
Qed.

(** X18. The codec keyed by the sorted public keys needs no private key to
    decrypt: [decryptMessage] gives the same result for any two keypairs
    with the same public key, so the envelope a valid sender makes for a
    recipient is opened by whoever knows the recipient's public key, to the
    text Node reads back from the encoding of the plaintext, which is the
    plaintext when it is well formed. *)
Theorem sealed_envelope_opens_without_private_key (P : Primitives) (plaintext : string)
    (A : Keypair) (pubB : Buffer) (w : World) :
  base64_sound P -> sha256_sound P -> ed25519_sound P -> aead_sound P ->
  valid_keypair P A ->
  (forall (env : Sealed.EncryptedMessage) (B B' : Keypair) (w2 : World),
      publicKey B = publicKey B' ->
      Sealed.decryptMessage P env B w2 = Sealed.decryptMessage P env B' w2)
  /\ exists env w',
       Sealed.encryptMessage P plaintext A pubB w = (Returned env, w')
       /\ forall (anyPrivateKey : Buffer) (w2 : World),
            let opened := (Sealed.decryptMessage P env
                             {| publicKey := pubB; privateKey := anyPrivateKey |} w2).1 in
            opened = Returned (Success (Buffer_toString_utf8 (Buffer_from_utf8 plaintext)))
            /\ (well_formed plaintext -> opened = Returned (Success plaintext)).
Proof.
  intros H64 Hsha Hed Haead HA. split.
  - intros env B B' w2 Hpub. unfold Sealed.decryptMessage. rewrite Hpub. reflexivity.
  - destruct (sealed_opens P plaintext A pubB w H64 Hsha Hed Haead HA)
      as (env & w' & Henc & Hdec).
    exists env, w'. split; [exact Henc|].
    intros anyPrivateKey w2 opened. subst opened.
    rewrite (Hdec {| publicKey := pubB; privateKey := anyPrivateKey |} w2 eq_refl).
    split; [reflexivity|]. intros Hwf. rewrite (Buffer_utf8_roundtrip plaintext Hwf).
    reflexivity.
Qed.

(** What [createNostrEvent] returns, in terms of what the library returns. *)
Lemma createNostrEvent_returns (P : Primitives) (H : Host) (kind : Z) (content : string)
    (tags : list (list string)) (privateKey : Buffer) (now : Z) (e : Nostr.Event) :
  createNostrEvent P H kind content tags privateKey now = Returned e ->
  let secpPriv := deriveSecp256k1Key P privateKey in
  exists pub signature,
    schnorr_getPublicKey H secpPriv = Returned pub
    /\ Nostr.pubkey e = Buffer_toString_hex pub
    /\ Nostr.created_at e = (now / 1000)%Z
    /\ Nostr.kind e = kind /\ Nostr.tags e = tags /\ Nostr.content e = content
    /\ Nostr.id e
       = Buffer_toString_hex
           (sha256 P (Buffer_from_utf8
                        (JSON_stringify H
                           (JArr [JNum 0; JStr (Buffer_toString_hex pub);
                                  JNum (now / 1000)%Z; JNum kind; tags_to_json tags;
                                  JStr content]))))
    /\ schnorr_sign H (Buffer_from_hex (Nostr.id e)) secpPriv = Returned signature
    /\ Nostr.sig e = Buffer_toString_hex signature.
Proof.
  intros Hc. cbv zeta. unfold createNostrEvent in Hc.
  destruct (schnorr_getPublicKey H (deriveSecp256k1Key P privateKey)) as [pub|m];
    [|discriminate].
  destruct (schnorr_sign H _ (deriveSecp256k1Key P privateKey)) as [signature|m] eqn:Hs;
    [|discriminate].
  injection Hc as <-. exists pub, signature.
  cbn [Nostr.id Nostr.sig Nostr.pubkey Nostr.created_at Nostr.kind Nostr.tags Nostr.content].
  repeat (split; [reflexivity|]). split; [exact Hs | reflexivity].
Qed.

(** [createNostrEvent] returns whenever the library signs with the key. *)
Lemma createNostrEvent_signs (P : Primitives) (H : Host) (keypair : Keypair) (kind : Z)
    (content : string) (tags : list (list string)) (now : Z) :
  signs_events P H keypair ->
  exists e, createNostrEvent P H kind content tags (privateKey keypair) now = Returned e
            /\ Nostr.tags e = tags /\ Nostr.content e = content /\ Nostr.kind e = kind.
Proof.
  intros [[pub Hpub] Hsign]. unfold createNostrEvent. rewrite Hpub.
  match goal with
  | |- context [schnorr_sign H ?m ?k] => destruct (Hsign m) as [signature ->]
  end.
  eexists. split; [reflexivity|]. auto.
Qed.

(** X19. An event [createNostrEvent] returns is consistent with itself: its
    id is 64 hex characters, the hash of the serialization
    [[0, pubkey, created_at, kind, tags, content]] of its own fields; its
    signature is the Schnorr signature the library returned for that hash
    under the secp256k1 key derived from the Ed25519 private key; its pubkey
    is the one [getNostrPubkey] gives for that private key; and its time is
    the clock in whole seconds. When [createNostrEvent] throws, it throws
    what the library threw, on the key or on the signature. *)
Theorem created_event_is_consistent (P : Primitives) (H : Host) (kind : Z)
    (content : string) (tags : list (list string)) (privateKey : Buffer) (now : Z) :
  sha256_sound P ->
  let secpPriv := deriveSecp256k1Key P privateKey in
  (forall e : Nostr.Event,
      createNostrEvent P H kind content tags privateKey now = Returned e ->
      let digest :=
        sha256 P (Buffer_from_utf8
                    (JSON_stringify H
                       (JArr [JNum 0; JStr (Nostr.pubkey e); JNum (Nostr.created_at e);
                              JNum (Nostr.kind e); tags_to_json (Nostr.tags e);
                              JStr (Nostr.content e)]))) in
      String.length (Nostr.id e) = 64
      /\ Buffer_from_hex (Nostr.id e) = digest
      /\ schnorr_sign H digest secpPriv = Returned (Buffer_from_hex (Nostr.sig e))
      /\ getNostrPubkey P H privateKey = Returned (Nostr.pubkey e)
      /\ (Nostr.created_at e * 1000 <= now < Nostr.created_at e * 1000 + 1000)%Z
      /\ Nostr.kind e = kind /\ Nostr.content e = content /\ Nostr.tags e = tags)
  /\ (forall message : string,
        createNostrEvent P H kind content tags privateKey now = Thrown message ->
        schnorr_getPublicKey H secpPriv = Thrown message
        \/ exists digest, schnorr_sign H digest secpPriv = Thrown message).
Proof.
  intros Hsha secpPriv. subst secpPriv. split.
  - intros e He digest. subst digest.
    destruct (createNostrEvent_returns P H kind content tags privateKey now e He)
      as (pub & signature & Hpub & Hk & Ht & Hkind & Htags & Hcontent & Hid & Hs & Hsig).
    rewrite Hk, Ht, Hkind, Htags, Hcontent.
    split; [rewrite Hid, Buffer_toString_hex_length, Hsha; reflexivity|].
    split; [rewrite Hid; apply Buffer_from_hex_toString|].
    split.
    { rewrite Hsig, Buffer_from_hex_toString. rewrite <- Hs. f_equal.
      rewrite Hid. symmetry. apply Buffer_from_hex_toString. }
    split; [unfold getNostrPubkey; rewrite Hpub; reflexivity|].
    split; [|auto].
    pose proof (Z.div_mod now 1000 ltac:(lia)) as Hdm.
    pose proof (Z.mod_pos_bound now 1000 ltac:(lia)) as Hb. lia.
  - intros message. unfold createNostrEvent.
    destruct (schnorr_getPublicKey H (deriveSecp256k1Key P privateKey)) as [pub|m];
      [|intros [= <-]; left; reflexivity].
    match goal with
    | |- context [schnorr_sign H ?m ?k] => destruct (schnorr_sign H m k) as [sig|m'] eqn:Hs
    end; [discriminate|].
    intros [= <-]. right. eexists. exact Hs.
Qed.

(** * The orchestrator *)

Import RelayTransport.
Import Statements.

Ltac run_act :=
  unfold mbind, Act_bind, pure, skip, act, read, raise, codec in *;
  cbn [fst snd] in *.

Ltac simpl_state :=
  cbn [config identity clients pendingRequests timers next_timer settled next_promise
       now random random_cursor world handled logged journal
       pending_delete pending_set clearTimeout setTimeout add_journal
       set_pending set_timers set_settled set_world set_clients set_random_cursor
       add_handled log publish_all send_register send_rollback] in *.

Ltac unfold_state :=
  unfold settle in *; simpl_state.

Section Responses.
Context (H : Host).

(** A response whose id finds no entry changes nothing. *)
Lemma handleResponse_no_entry (st : State) (r : json) (id : option json) :
  get (Some r) "id" = Returned id ->
  pending_get id st = None ->
  handleResponse H r st = (Returned tt, st).
Proof.
  intros Hid Hget. unfold handleResponse. run_act. rewrite Hid, Hget. reflexivity.
Qed.

(** The state a response leaves when its id finds the entry [e]: the entry
    is deleted and its timer cleared first; then the resolver is called,
    unless reading the text part throws. *)
Lemma handleResponse_entry (st : State) (r : json) (key : string) (e : PendingRequest) :
  get (Some r) "id" = Returned (Some (JStr key)) ->
  pendingRequests st !! key = Some e ->
  let st0 := pending_delete key (clearTimeout (timeout e) st) in
  (exists result, handleResponse H r st = (Returned tt, settle (resolve e) result st0))
  \/ (exists message, handleResponse H r st = (Thrown message, st0)).
Proof.
  intros Hid He st0. unfold handleResponse. run_act. rewrite Hid.
  unfold pending_get. rewrite He. cbn [fmap option_fmap option_map].
  destruct r as [| b | n | s | items | fields]; try discriminate; cbn [get].
  all: try (destruct (truthy None) eqn:Hn; [discriminate Hn|]; cbn [get_opt truthy];
            left; eexists; reflexivity).
  destruct (truthy (assoc "error" fields)).
  { left. eexists. reflexivity. }
  destruct (truthy (get_opt (get_opt (assoc "result" fields) "message") "parts")).
  - destruct (parts_find _ "text") as [textPart|message].
    + left. eexists. reflexivity.
    + right. eexists. reflexivity.
  - left. eexists. reflexivity.
Qed.

Lemma settle_fields (p : nat) (result : RelaySendResult) (st : State) :
  pendingRequests (settle p result st) = pendingRequests st
  /\ timers (settle p result st) = timers st
  /\ journal (settle p result st) = journal st ++ [ResolveCalled p]
  /\ handled (settle p result st) = handled st
  /\ clients (settle p result st) = clients st.
Proof.
  unfold settle, add_journal, set_settled. cbn [settled].
  destruct (settled st !! p); cbn; auto.
Qed.

(** C3. When a response arrives whose id matches a pending entry, the entry
    is deleted and its timer cleared before the resolver is called, and the
    resolver is called at most once; after that a second response with the
    same id, and the deadline timer of the request, leave the whole state as
    it is, the delivered result included. *)
Theorem response_resolves_at_most_once (st : State) (r : json) (key : string)
    (e : PendingRequest) :
  get (Some r) "id" = Returned (Some (JStr key)) ->
  pendingRequests st !! key = Some e ->
  let st1 := (handleResponse H r st).2 in
  pendingRequests st1 = delete key (pendingRequests st)
  /\ timers st1 = delete (timeout e) (timers st)
  /\ (journal st1 = journal st ++ [PendingDelete key; ResolveCalled (resolve e)]
      \/ journal st1 = journal st ++ [PendingDelete key])
  /\ (forall r2, get (Some r2) "id" = Returned (Some (JStr key)) ->
                 handleResponse H r2 st1 = (Returned tt, st1))
  /\ fire (timeout e) st1 = st1.
Proof.
  intros Hid He st1.
  assert (Hp : pendingRequests st1 = delete key (pendingRequests st)
               /\ timers st1 = delete (timeout e) (timers st)
               /\ (journal st1 = journal st ++ [PendingDelete key; ResolveCalled (resolve e)]
                   \/ journal st1 = journal st ++ [PendingDelete key])).
  { subst st1.
    destruct (handleResponse_entry st r key e Hid He) as [[result ->]|[message ->]];
      cbn [snd].
    - destruct (settle_fields (resolve e) result
                  (pending_delete key (clearTimeout (timeout e) st)))
        as (-> & -> & -> & _).
      unfold_state. rewrite <- app_assoc. auto.
    - unfold_state. auto. }
  destruct Hp as (Hp & Ht & Hj). repeat split; try assumption.
  - intros r2 Hid2. apply (handleResponse_no_entry st1 r2 _ Hid2).
    unfold pending_get. rewrite Hp, lookup_delete_eq. reflexivity.
  - unfold fire. rewrite Ht, lookup_delete_eq. reflexivity.
Qed.

End Responses.

Section Sending.
Context (P : Primitives) (H : Host) (C : Codec).
Local Abbreviation send_plaintext := (send_plaintext H).
Local Abbreviation send_event := (send_event P H C).

(** [send] when the encryption and the creation of the event return: the
    request is registered, the event is handed to the connected links, and
    if there was none the registration is undone and the promise resolved. *)
Lemma send_run (message : RelayMessage) (ms : Z) (st : State) (env : Envelope C) (w' : World)
    (event : Nostr.Event) :
  encryptMessage C (send_plaintext message st) (keypair (config st))
    (hexToPublicKey (recipientPubKey message)) (world st) = (Returned env, w') ->
  send_event message st env = Returned event ->
  let p := next_promise st in
  let st1 := set_world w' (set_random_cursor (S (random_cursor st))
                             (set_settled (settled st) (S p) st)) in
  let st2 := publish_all event (send_register (send_id st) p ms st1) in
  send P H C message ms st =
    (p, if any_connected st then st2
        else send_rollback (send_id st) p (next_timer st) st2).
Proof.
  intros Henc Hev p st1 st2. subst p st1 st2.
  unfold send, generateMessageId. run_act.
  unfold send_plaintext, send_id, send_rollback, any_connected, send_register,
    send_event in *.
  unfold_state. rewrite Henc. cbn [fst snd]. simpl_state. rewrite Hev.
  destruct (existsb isConnected (clients st)); reflexivity.
Qed.

(** [send] when the encryption throws: the promise is resolved with the
    error and nothing is registered. *)
Lemma send_throws (message : RelayMessage) (ms : Z) (st : State) (msg : string) (w' : World) :
  encryptMessage C (send_plaintext message st) (keypair (config st))
    (hexToPublicKey (recipientPubKey message)) (world st) = (Thrown msg, w') ->
  let p := next_promise st in
  send P H C message ms st =
    (p, settle p (failure msg)
          (set_world w' (set_random_cursor (S (random_cursor st))
                           (set_settled (settled st) (S p) st)))).
Proof.
  intros Henc p. subst p.
  unfold send, generateMessageId. run_act.
  unfold send_plaintext, send_id in *.
  unfold_state. rewrite Henc. reflexivity.
Qed.

(** [send] when the encryption returns and the creation of the event
    throws: the same, with the error of the creation. *)
Lemma send_event_throws (message : RelayMessage) (ms : Z) (st : State) (env : Envelope C)
    (w' : World) (msg : string) :
  encryptMessage C (send_plaintext message st) (keypair (config st))
    (hexToPublicKey (recipientPubKey message)) (world st) = (Returned env, w') ->
  send_event message st env = Thrown msg ->
  let p := next_promise st in
  send P H C message ms st =
    (p, settle p (failure msg)
          (set_world w' (set_random_cursor (S (random_cursor st))
                           (set_settled (settled st) (S p) st)))).
Proof.
  intros Henc Hev p. subst p.
  unfold send, generateMessageId. run_act.
  unfold send_plaintext, send_id, send_event in *.
  unfold_state. rewrite Henc. cbn [fst snd]. simpl_state. rewrite Hev. reflexivity.
Qed.

Lemma publish_all_none (event : Nostr.Event) (links : list Link) :
  existsb isConnected links = false -> map (publish_to event) links = links.
Proof.
  induction links as [|l links IH]; [reflexivity|]. cbn.
  destruct (isConnected l) eqn:Hl; [discriminate|]. cbn. intros Hrest.
  unfold publish_to at 1. rewrite Hl, IH by assumption. reflexivity.
Qed.

(** What a call of [send] that resolves with a caught error leaves. *)
Lemma send_failed_state (st : State) (w' : World) (msg : string) :
  settled st !! next_promise st = None ->
  let p := next_promise st in
  let st' := settle p (failure msg)
               (set_world w' (set_random_cursor (S (random_cursor st))
                                (set_settled (settled st) (S p) st))) in
  settled st' !! p = Some (failure msg)
  /\ pendingRequests st' = pendingRequests st
  /\ timers st' = timers st
  /\ clients st' = clients st
  /\ journal st' = journal st ++ [ResolveCalled p].
Proof.
  intros Hfresh p st'. subst p st'.
  unfold settle. simpl_state. rewrite Hfresh. simpl_state.
  rewrite lookup_insert_eq. auto.
Qed.

(** C5, as the code has it. With no connected link, [send] resolves its
    promise within the call with a failure, hands nothing to a link and
    leaves the table as it was before the call (the generated id being
    fresh). The failure is the error of the encryption or of the creation
    of the event when one of them throws, and nothing is registered then;
    when both return, the request and its timer are registered, then deleted
    and cleared again within the call, and the failure is the
    no-connected-relays failure. *)
Theorem send_without_links_fails_within_the_call (message : RelayMessage) (ms : Z)
    (st : State) :
  any_connected st = false ->
  settled st !! next_promise st = None ->
  pendingRequests st !! send_id st = None ->
  let r := send P H C message ms st in
  let id := send_id st in
  clients r.2 = clients st
  /\ pendingRequests r.2 = pendingRequests st
  /\ match encryptMessage C (send_plaintext message st) (keypair (config st))
            (hexToPublicKey (recipientPubKey message)) (world st) with
     | (Thrown msg, _) =>
         settled r.2 !! r.1 = Some (failure msg)
         /\ journal r.2 = journal st ++ [ResolveCalled r.1]
         /\ timers r.2 = timers st
     | (Returned env, _) =>
         match send_event message st env with
         | Thrown msg =>
             settled r.2 !! r.1 = Some (failure msg)
             /\ journal r.2 = journal st ++ [ResolveCalled r.1]
             /\ timers r.2 = timers st
         | Returned _ =>
             settled r.2 !! r.1 = Some (failure "No connected relays")
             /\ journal r.2 = journal st ++ [PendingSet id; PendingDelete id; ResolveCalled r.1]
             /\ timers r.2 = delete (next_timer st) (timers st)
         end
     end.
Proof.
  intros Hnone Hfresh Hid r id. subst r id.
  destruct (encryptMessage C (send_plaintext message st) (keypair (config st))
              (hexToPublicKey (recipientPubKey message)) (world st))
    as [[env|msg] w'] eqn:Henc.
  - destruct (send_event message st env) as [event|msg] eqn:Hev.
    + rewrite (send_run message ms st env w' event Henc Hev), Hnone. cbn [fst snd].
      unfold send_rollback, send_register, any_connected in *. unfold_state.
      rewrite Hfresh. simpl_state.
      rewrite lookup_insert_eq, !delete_insert_eq, delete_id by exact Hid.
      rewrite publish_all_none by exact Hnone.
      rewrite <- !app_assoc. auto.
    + rewrite (send_event_throws message ms st env w' msg Henc Hev). cbn [fst snd].
      destruct (send_failed_state st w' msg Hfresh) as (Hs & Hp & Ht & Hc & Hj). auto.
  - rewrite (send_throws message ms st msg w' Henc). cbn [fst snd].
    destruct (send_failed_state st w' msg Hfresh) as (Hs & Hp & Ht & Hc & Hj). auto.
Qed.

(** X6. The deadline of a request. With a connected link, and the encryption
    and the creation of the event returning, [send] leaves the request
    registered under its id, with a timer of the given delay, its promise
    unsettled, and the event handed to every connected link; when the timer
    comes due, the promise is resolved with the timeout failure and the
    entry is deleted. *)
Theorem send_deadline_resolves_with_timeout (message : RelayMessage) (ms : Z) (st : State)
    (env : Envelope C) (w' : World) (event : Nostr.Event) :
  any_connected st = true ->
  encryptMessage C (send_plaintext message st) (keypair (config st))
    (hexToPublicKey (recipientPubKey message)) (world st) = (Returned env, w') ->
  send_event message st env = Returned event ->
  settled st !! next_promise st = None ->
  let p := (send P H C message ms st).1 in
  let st' := (send P H C message ms st).2 in
  let t := next_timer st in
  pendingRequests st' !! send_id st = Some {| resolve := p; timeout := t |}
  /\ timers st' !! t = Some {| delay := ms; reqId := send_id st; promise := p |}
  /\ settled st' !! p = None
  /\ clients st' = map (publish_to event) (clients st)
  /\ settled (fire t st') !! p
     = Some (failure ("Request timed out after " +:+ pretty ms +:+ "ms"))
  /\ pendingRequests (fire t st') !! send_id st = None.
Proof.
  intros Hany Henc Hev Hfresh p st' t. subst p st' t.
  rewrite (send_run message ms st env w' event Henc Hev), Hany. cbn [fst snd].
  unfold send_register, fire. simpl_state. rewrite !lookup_insert_eq.
  split; [reflexivity|]. split; [reflexivity|]. split; [exact Hfresh|].
  split; [reflexivity|].
  unfold settle. simpl_state. cbn [promise delay reqId]. rewrite Hfresh. simpl_state.
  rewrite !lookup_insert_eq, lookup_delete_eq. auto.
Qed.

End Sending.

Section Receiving.
Context (P : Primitives) (H : Host) (C : Codec).
Local Abbreviation reply_plaintext := (reply_plaintext H).
Local Abbreviation reply_event := (reply_event P H C).
Local Abbreviation handleIncomingMessage := (handleIncomingMessage P H C).
Local Abbreviation dispatch := (dispatch P H C).
Local Abbreviation handleEvent := (handleEvent P H C).

(** A response changes neither the handler's invocations nor what the
    links were handed. *)
Lemma handleResponse_frame (st : State) (r : json) :
  handled (handleResponse H r st).2 = handled st
  /\ clients (handleResponse H r st).2 = clients st.
Proof.
  destruct (get (Some r) "id") as [id|message] eqn:Hid.
  - destruct (pending_get id st) as [[key e]|] eqn:Hget.
    + unfold pending_get in Hget.
      destruct id as [[| | | s | |]|]; try discriminate.
      destruct (pendingRequests st !! s) as [e'|] eqn:He; [|discriminate].
      cbn in Hget. injection Hget as <- <-.
      destruct (handleResponse_entry H st r s e' Hid He) as [[result ->]|[message ->]];
        cbn [snd].
      * destruct (settle_fields (resolve e') result
                    (pending_delete s (clearTimeout (timeout e') st)))
          as (_ & _ & _ & -> & ->).
        unfold_state. auto.
      * unfold_state. auto.
    + rewrite (handleResponse_no_entry H st r id Hid Hget). auto.
  - unfold handleResponse. run_act. rewrite Hid. auto.
Qed.

Lemma find_kind_found (kind : string) (items : list json) (p : json) :
  find_kind kind items = Returned (Some p) ->
  p ∈ items /\ is_string (get_opt (Some p) "kind") kind = true.
Proof.
  induction items as [|x items IH]; cbn [find_kind]; [discriminate|].
  assert (Hstep :
    (if is_string (get_opt (Some x) "kind") kind then Returned (Some x)
     else find_kind kind items) = Returned (Some p) ->
    p ∈ x :: items /\ is_string (get_opt (Some p) "kind") kind = true).
  { destruct (is_string (get_opt (Some x) "kind") kind) eqn:Hk.
    - intros [= <-]. split; [left | exact Hk].
    - intros Hrest. destruct (IH Hrest) as [Hin Hp]. split; [right; exact Hin | exact Hp]. }
  destruct x; try exact Hstep. discriminate.
Qed.

(** A request that lacks a text is handed to no handler: the first part of
    [handleIncomingMessage] returns without a call, or throws. *)
Lemma lacks_text_incoming (req : json) (senderPubKey : string) :
  lacks_text req ->
  incoming_of req senderPubKey = Returned None
  \/ exists message, incoming_of req senderPubKey = Thrown message.
Proof.
  unfold lacks_text, incoming_of. intros Hl.
  destruct (get (Some req) "params") as [params|message] eqn:Hp; [|right; eauto].
  assert (Hparams : get_opt (Some req) "params" = params).
  { destruct req; cbn in Hp |- *; congruence. }
  rewrite Hparams in Hl. clear Hparams Hp.
  set (message := get_opt params "message") in *.
  destruct (truthy message) eqn:Hm; cbn [negb]; [|left; reflexivity].
  destruct Hl as [Hl|Hl]; [discriminate|].
  destruct (parts_find (get_opt message "parts") "text") as [textPart|msg] eqn:Ht;
    [|right; eauto].
  destruct (parts_find (get_opt message "parts") "data") as [dataPart|msg] eqn:Hd;
    [|right; eauto].
  destruct textPart as [p|]; [|left; reflexivity].
  unfold parts_find in Ht.
  destruct (get_opt message "parts") as [[| | | | items |]|] eqn:Hparts; try discriminate.
  destruct (find_kind_found "text" items p Ht) as [Hin Hk].
  change (get_opt (Some p) "text") with (get_opt (Some p) "text").
  rewrite (Hl items p eq_refl Hin Hk). left. reflexivity.
Qed.

(** [handleIncomingMessage] calls the handler exactly when its first part
    yields a message, whatever happens afterwards. *)
Lemma handleIncomingMessage_handled (req : json) (senderPubKey : string) (st : State) :
  match incoming_of req senderPubKey with
  | Returned (Some call) =>
      handled (handleIncomingMessage req senderPubKey st).2 = handled st ++ [call]
  | _ => (handleIncomingMessage req senderPubKey st).2 = st
  end.
Proof.
  unfold RelayTransport.handleIncomingMessage. run_act.
  destruct (incoming_of req senderPubKey) as [[[im si]|]|message]; try reflexivity.
  unfold generateTaskId.
  destruct (onMessage (config st) im si) as [t d|message]; run_act; unfold_state.
  all: match goal with
       | |- context [encryptMessage C ?pt ?kp ?pk ?w] =>
           destruct (encryptMessage C pt kp pk w) as [[env|msg] w']
       end; cbn [fst snd]; try reflexivity.
  all: match goal with
       | |- context [createNostrEvent P H ?k ?c ?tags ?pk ?n] =>
           destruct (createNostrEvent P H k c tags pk n) as [event|msg]
       end; cbn [fst snd]; try reflexivity.
  all: destruct (incoming_text im); reflexivity.
Qed.

(** [handleIncomingMessage] when its first part yields a message and the
    encryption of the response and the creation of its event return. *)
Lemma handleIncomingMessage_publishes (req : json) (senderPubKey : string) (st : State)
    (im : IncomingMessage) (si : SenderInfo) (env : Envelope C) (w' : World)
    (event : Nostr.Event) :
  incoming_of req senderPubKey = Returned (Some (im, si)) ->
  encryptMessage C (reply_plaintext req st im si) (keypair (config st))
    (hexToPublicKey senderPubKey) (world st) = (Returned env, w') ->
  reply_event senderPubKey st env = Returned event ->
  let st' := (handleIncomingMessage req senderPubKey st).2 in
  handled st' = handled st ++ [(im, si)]
  /\ clients st' = map (publish_to event) (clients st)
  /\ (forall m, onMessage (config st) im si = HandlerThrows m ->
                (Error, "Handler error: " +:+ m) ∈ logged st')
  /\ pendingRequests st' = pendingRequests st
  /\ settled st' = settled st.
Proof.
  intros Hin Henc Hev st'. subst st'.
  unfold RelayTransport.handleIncomingMessage. run_act. rewrite Hin.
  unfold generateTaskId, Statements.reply_plaintext, reply_json, task_id,
    Statements.reply_event in *.
  destruct (onMessage (config st) im si) as [t d|message] eqn:Hh;
    run_act; unfold_state; cbn [reply_of fst snd] in *;
    rewrite Henc; cbn [fst snd]; simpl_state; rewrite Hev; cbn [fst snd];
    destruct (incoming_text im); cbn [fst snd handled clients logged pendingRequests settled];
    (split; [reflexivity|]); (split; [reflexivity|]);
    (split; [|split; reflexivity]); intros m' Hm'; try discriminate;
    injection Hm' as <-; apply elem_of_app; first [left; apply elem_of_app; right; left | right; left].
Qed.

(** [handleIncomingMessage] when its first part yields a message, the
    encryption of the response returns and the creation of its event
    throws: the handler was called, the error leaves the function, and
    nothing is handed to a link. *)
Lemma handleIncomingMessage_unsigned (req : json) (senderPubKey : string) (st : State)
    (im : IncomingMessage) (si : SenderInfo) (env : Envelope C) (w' : World)
    (msg : string) :
  incoming_of req senderPubKey = Returned (Some (im, si)) ->
  encryptMessage C (reply_plaintext req st im si) (keypair (config st))
    (hexToPublicKey senderPubKey) (world st) = (Returned env, w') ->
  reply_event senderPubKey st env = Thrown msg ->
  let r := handleIncomingMessage req senderPubKey st in
  r.1 = Thrown msg
  /\ handled r.2 = handled st ++ [(im, si)]
  /\ clients r.2 = clients st
  /\ logged r.2 = logged st ++ match onMessage (config st) im si with
                               | HandlerThrows m => [(Error, "Handler error: " +:+ m)]
                               | HandlerReturns _ _ => []
                               end
  /\ pendingRequests r.2 = pendingRequests st
  /\ settled r.2 = settled st.
Proof.
  intros Hin Henc Hev r. subst r.
  unfold RelayTransport.handleIncomingMessage. run_act. rewrite Hin.
  unfold generateTaskId, Statements.reply_plaintext, reply_json, task_id,
    Statements.reply_event in *.
  destruct (onMessage (config st) im si) as [t d|message] eqn:Hh;
    run_act; unfold_state; cbn [reply_of fst snd] in *;
    rewrite Henc; cbn [fst snd]; simpl_state; rewrite Hev; cbn [fst snd];
    cbn [handled clients logged pendingRequests settled];
    rewrite ?app_nil_r; auto 10.
Qed.

(** [handleEvent] on an event whose content parses to an envelope that
    decrypts: the payload is dispatched, and what the dispatch throws is
    logged. *)
Lemma handleEvent_decrypted (event : Nostr.Event) (st : State) (encrypted : json)
    (env : Envelope C) (plaintext : string) (w' : World) :
  JSON_parse H (Nostr.content event) = Returned encrypted ->
  envelope_of_json C encrypted = Some env ->
  decryptMessage C env (keypair (config st)) (world st) = (Returned (Success plaintext), w') ->
  handleEvent event st =
    match dispatch plaintext (default "" (string_field "senderPubKey" encrypted))
            (set_world w' st) with
    | (Returned _, st') => st'
    | (Thrown message, st') => log Error ("Error processing event: " +:+ message) st'
    end.
Proof.
  intros Hparse Henv Hdec. unfold RelayTransport.handleEvent, decrypt_parsed. run_act.
  rewrite Hparse, Henv. run_act. rewrite Hdec. reflexivity.
Qed.

Lemma log_frame (level : LogLevel) (line : string) (st : State) :
  handled (log level line st) = handled st
  /\ clients (log level line st) = clients st
  /\ pendingRequests (log level line st) = pendingRequests st
  /\ settled (log level line st) = settled st.
Proof. unfold log. cbn. auto. Qed.

(** A decrypted payload with a truthy [result] or [error] is handed to
    [handleResponse], and what that throws is logged. *)
Lemma handleEvent_response (event : Nostr.Event) (st : State)
    (encrypted : json) (env : Envelope C) (plaintext : string) (w' : World)
    (jsonRpc : json) :
  JSON_parse H (Nostr.content event) = Returned encrypted ->
  envelope_of_json C encrypted = Some env ->
  decryptMessage C env (keypair (config st)) (world st) = (Returned (Success plaintext), w') ->
  JSON_parse H plaintext = Returned jsonRpc ->
  truthy (get_opt (Some jsonRpc) "result") || truthy (get_opt (Some jsonRpc) "error") = true ->
  handleEvent event st =
    match handleResponse H jsonRpc (set_world w' st) with
    | (Returned _, st') => st'
    | (Thrown message, st') => log Error ("Error processing event: " +:+ message) st'
    end.
Proof.
  intros Hparse Henv Hdec Hjson Htruthy.
  rewrite (handleEvent_decrypted event st encrypted env plaintext w' Hparse Henv Hdec).
  unfold RelayTransport.dispatch. run_act. rewrite Hjson.
  destruct jsonRpc as [| b | n | s | items | fields]; try discriminate Htruthy.
  cbn [get get_opt] in *. rewrite Htruthy. reflexivity.
Qed.

(** When no pending request has the id of the response, the event leaves
    the state as decryption left it. *)
Lemma handleEvent_unmatched_response (event : Nostr.Event) (st : State)
    (encrypted : json) (env : Envelope C) (plaintext : string) (w' : World)
    (jsonRpc : json) :
  JSON_parse H (Nostr.content event) = Returned encrypted ->
  envelope_of_json C encrypted = Some env ->
  decryptMessage C env (keypair (config st)) (world st) = (Returned (Success plaintext), w') ->
  JSON_parse H plaintext = Returned jsonRpc ->
  truthy (get_opt (Some jsonRpc) "result") || truthy (get_opt (Some jsonRpc) "error") = true ->
  pending_get (get_opt (Some jsonRpc) "id") st = None ->
  handleEvent event st = set_world w' st.
Proof.
  intros Hparse Henv Hdec Hjson Htruthy Hnone.
  rewrite (handleEvent_response event st encrypted env plaintext w' jsonRpc
             Hparse Henv Hdec Hjson Htruthy).
  destruct jsonRpc as [| b | n | s | items | fields]; try discriminate Htruthy.
  cbn [get get_opt] in *.
  rewrite (handleResponse_no_entry H (set_world w' st) (JObj fields)
             (assoc "id" fields) eq_refl); [reflexivity|].
  destruct (assoc "id" fields) as [[| | | s | |]|]; try reflexivity. exact Hnone.
Qed.

(** C9. Every successfully decrypted payload with a truthy [result] or
    [error] is handled as a response: the handler is not invoked and
    nothing is published, whether or not a pending request matches; when
    none matches its id, the payload is dropped without a trace (the state
    is the one decryption left). *)
Theorem response_payload_never_reaches_handler (event : Nostr.Event) (st : State)
    (encrypted : json) (env : Envelope C) (plaintext : string) (w' : World)
    (jsonRpc : json) :
  JSON_parse H (Nostr.content event) = Returned encrypted ->
  envelope_of_json C encrypted = Some env ->
  decryptMessage C env (keypair (config st)) (world st) = (Returned (Success plaintext), w') ->
  JSON_parse H plaintext = Returned jsonRpc ->
  truthy (get_opt (Some jsonRpc) "result") || truthy (get_opt (Some jsonRpc) "error") = true ->
  let st' := handleEvent event st in
  handled st' = handled st
  /\ clients st' = clients st
  /\ (pending_get (get_opt (Some jsonRpc) "id") st = None -> st' = set_world w' st).
Proof.
  intros Hparse Henv Hdec Hjson Htruthy st'. subst st'.
  split; [|split].
  - rewrite (handleEvent_response event st encrypted env plaintext w' jsonRpc
               Hparse Henv Hdec Hjson Htruthy).
    pose proof (handleResponse_frame (set_world w' st) jsonRpc) as [Hh Hc].
    destruct (handleResponse H jsonRpc (set_world w' st)) as [[[]|message] st1];
      cbn [snd] in *; [|rewrite (proj1 (log_frame _ _ _))]; exact Hh.
  - rewrite (handleEvent_response event st encrypted env plaintext w' jsonRpc
               Hparse Henv Hdec Hjson Htruthy).
    pose proof (handleResponse_frame (set_world w' st) jsonRpc) as [Hh Hc].
    destruct (handleResponse H jsonRpc (set_world w' st)) as [[[]|message] st1];
      cbn [snd] in *; [|rewrite (proj1 (proj2 (log_frame _ _ _)))]; exact Hc.
  - apply (handleEvent_unmatched_response event st encrypted env plaintext w' jsonRpc
             Hparse Henv Hdec Hjson Htruthy).
Qed.

(** [handleEvent] on an event whose envelope does not decrypt. *)
Lemma handleEvent_undecryptable (event : Nostr.Event) (st : State)
    (encrypted : json) (env : Envelope C) (message : string) (w' : World) :
  JSON_parse H (Nostr.content event) = Returned encrypted ->
  envelope_of_json C encrypted = Some env ->
  decryptMessage C env (keypair (config st)) (world st) = (Returned (Failure message), w') ->
  handleEvent event st = log Warn ("Failed to decrypt message: " +:+ message) (set_world w' st).
Proof.
  intros Hparse Henv Hdec. unfold RelayTransport.handleEvent, decrypt_parsed. run_act.
  rewrite Hparse, Henv. run_act. rewrite Hdec. reflexivity.
Qed.

(** X4. An event whose envelope does not decrypt (its signature does not
    verify, or its ciphertext does not open) is dropped with a warning: the
    handler is not invoked, nothing is published, no request is resolved. *)
Theorem undecryptable_event_is_dropped (event : Nostr.Event) (st : State)
    (encrypted : json) (env : Envelope C) (message : string) (w' : World) :
  JSON_parse H (Nostr.content event) = Returned encrypted ->
  envelope_of_json C encrypted = Some env ->
  decryptMessage C env (keypair (config st)) (world st) = (Returned (Failure message), w') ->
  let st' := handleEvent event st in
  logged st' = logged st ++ [(Warn, "Failed to decrypt message: " +:+ message)]
  /\ handled st' = handled st
  /\ clients st' = clients st
  /\ pendingRequests st' = pendingRequests st
  /\ settled st' = settled st.
Proof.
  intros Hparse Henv Hdec st'. subst st'.
  rewrite (handleEvent_undecryptable event st encrypted env message w' Hparse Henv Hdec).
  unfold log, set_world. cbn. auto.
Qed.

(** C10. A decrypted request that has no message, or whose message has no
    text part with a nonempty text, is dropped: [handleIncomingMessage]
    leaves the state as it is, and [handleEvent] neither invokes the handler
    nor hands anything to a link, nor touches the pending requests and the
    settled results. *)
Theorem request_without_text_is_dropped (event : Nostr.Event) (st : State)
    (encrypted : json) (env : Envelope C) (plaintext : string) (w' : World)
    (req : json) :
  JSON_parse H (Nostr.content event) = Returned encrypted ->
  envelope_of_json C encrypted = Some env ->
  decryptMessage C env (keypair (config st)) (world st) = (Returned (Success plaintext), w') ->
  JSON_parse H plaintext = Returned req ->
  truthy (get_opt (Some req) "result") || truthy (get_opt (Some req) "error") = false ->
  is_string (get_opt (Some req) "method") "message/send" = true ->
  lacks_text req ->
  let st' := handleEvent event st in
  (forall senderPubKey st0, (handleIncomingMessage req senderPubKey st0).2 = st0)
  /\ handled st' = handled st
  /\ clients st' = clients st
  /\ pendingRequests st' = pendingRequests st
  /\ settled st' = settled st.
Proof.
  intros Hparse Henv Hdec Hjson Hreq Hmethod Hlacks st'. subst st'.
  assert (Hdrop : forall senderPubKey st0, (handleIncomingMessage req senderPubKey st0).2 = st0).
  { intros senderPubKey st0.
    pose proof (handleIncomingMessage_handled req senderPubKey st0) as Hh.
    destruct (lacks_text_incoming req senderPubKey Hlacks) as [Hi|[message Hi]];
      rewrite Hi in Hh; exact Hh. }
  split; [exact Hdrop|].
  rewrite (handleEvent_decrypted event st encrypted env plaintext w' Hparse Henv Hdec).
  unfold RelayTransport.dispatch. run_act. rewrite Hjson.
  destruct req as [| b | n | s | items | fields]; try discriminate Hmethod.
  cbn [get get_opt] in *. rewrite Hreq, Hmethod.
  set (sender := default "" (string_field "senderPubKey" encrypted)).
  pose proof (Hdrop sender (set_world w' st)) as Hst.
  destruct (RelayTransport.handleIncomingMessage P H C (JObj fields) sender (set_world w' st))
    as [[[]|message] st1]; cbn [snd] in Hst; subst st1.
  - unfold set_world. cbn. auto.
  - unfold log, set_world. cbn. auto.
Qed.

(** What the sender does with the event that carries a response to one of
    its pending requests: the promise of the request is resolved with the
    text of the response. *)
Lemma response_event_resolves (event : Nostr.Event) (st : State) (env : Envelope C)
    (w' : World) (taskId text key : string) (e : PendingRequest) :
  json_sound H ->
  Nostr.content event = JSON_stringify H (envelope_to_json C env) ->
  envelope_of_json C (envelope_to_json C env) = Some env ->
  decryptMessage C env (keypair (config st)) (world st)
  = (Returned (Success (JSON_stringify H
                          (response_json taskId text None (Some (JStr key))))), w') ->
  pendingRequests st !! key = Some e ->
  settled st !! resolve e = None ->
  let st' := handleEvent event st in
  settled st' !! resolve e
  = Some {| success := true; taskId := Some (JStr taskId);
            response := Some (JStr text); error := None |}
  /\ pendingRequests st' !! key = None
  /\ timers st' !! timeout e = None.
Proof.
  intros Hjson Hcontent Henv Hdec He Hfresh st'. subst st'.
  rewrite (handleEvent_decrypted event st (envelope_to_json C env) env
             (JSON_stringify H (response_json taskId text None (Some (JStr key)))) w');
    [|rewrite Hcontent; apply Hjson | exact Henv | exact Hdec].
  unfold RelayTransport.dispatch. run_act. rewrite Hjson.
  unfold response_json, object. cbn [omap list_omap snd fst get get_opt assoc String.eqb
    Ascii.eqb Bool.eqb truthy orb].
  unfold handleResponse. run_act.
  cbn [get get_opt assoc String.eqb Ascii.eqb Bool.eqb truthy orb].
  unfold pending_get. cbn [pendingRequests set_world]. rewrite He.
  cbn [fmap option_fmap option_map].
  cbn [get get_opt assoc String.eqb Ascii.eqb Bool.eqb truthy orb parts_find find_kind
       text_part is_string].
  unfold_state. rewrite Hfresh. simpl_state.
  rewrite lookup_insert_eq, !lookup_delete_eq. auto.
Qed.

(** C8, as the code has it. When the handler throws on an inbound request,
    the error is caught and logged and the fallback acknowledgement, a
    response with the default text and the request's id, is encrypted for
    the sender. What follows depends on the creation of the wire event, which
    is outside the handler's [try]. When it returns, the event, tagged for
    the sender, is handed to every connected link, and when it reaches the
    sender, whose request is still pending, the sender's promise is resolved
    with the default text instead of waiting for its deadline. When it
    throws, the error leaves [handleIncomingMessage] and nothing is handed to
    a link. *)
Theorem handler_error_fallback_needs_the_event (valid : Keypair -> Prop)
    (stB stA : State) (req : json) (senderPubKey key : string)
    (im : IncomingMessage) (si : SenderInfo) (m : string) (e : PendingRequest) :
  json_sound H ->
  stringify_well_formed H ->
  codec_sound C valid ->
  valid (keypair (config stB)) ->
  incoming_of req senderPubKey = Returned (Some (im, si)) ->
  onMessage (config stB) im si = HandlerThrows m ->
  get_opt (Some req) "id" = Some (JStr key) ->
  hexToPublicKey senderPubKey = publicKey (keypair (config stA)) ->
  pendingRequests stA !! key = Some e ->
  settled stA !! resolve e = None ->
  let r := handleIncomingMessage req senderPubKey stB in
  (Error, "Handler error: " +:+ m) ∈ logged r.2
  /\ handled r.2 = handled stB ++ [(im, si)]
  /\ exists env w',
       encryptMessage C
         (JSON_stringify H
            (response_json (task_id stB) fallback_text None (Some (JStr key))))
         (keypair (config stB)) (hexToPublicKey senderPubKey) (world stB)
       = (Returned env, w')
       /\ match reply_event senderPubKey stB env with
          | Returned event =>
              clients r.2 = map (publish_to event) (clients stB)
              /\ Nostr.tags event = recipient_tags senderPubKey
              /\ let stA' := handleEvent event stA in
                 settled stA' !! resolve e
                 = Some {| success := true; taskId := Some (JStr (task_id stB));
                           response := Some (JStr fallback_text); error := None |}
                 /\ pendingRequests stA' !! key = None
                 /\ timers stA' !! timeout e = None
          | Thrown message =>
              r.1 = Thrown message
              /\ clients r.2 = clients stB
          end.
Proof.
  intros Hjson Hwf Hcodec HvalidB Hin Hthrows Hid Hsender He Hfresh r. subst r.
  assert (Hplain : reply_plaintext req stB im si
                   = JSON_stringify H
                       (response_json (task_id stB) fallback_text None (Some (JStr key)))).
  { unfold Statements.reply_plaintext, reply_json. rewrite Hthrows, Hid. reflexivity. }
  destruct (Hcodec (reply_plaintext req stB im si) (keypair (config stB))
              (hexToPublicKey senderPubKey) (world stB) (Hwf _) HvalidB)
    as (env & w' & Henc & Henv & Hdec).
  destruct (reply_event senderPubKey stB env) as [event|message] eqn:Hev.
  - destruct (handleIncomingMessage_publishes req senderPubKey stB im si env w' event
                Hin Henc Hev) as (Hh & Hc & Hlog & _ & _).
    split; [apply (Hlog m Hthrows)|]. split; [exact Hh|].
    exists env, w'. split; [rewrite <- Hplain; exact Henc|]. rewrite Hev.
    destruct (createNostrEvent_returns P H _ _ _ _ _ event Hev)
      as (pub & signature & _ & _ & _ & _ & Htags & Hcontent & _).
    split; [exact Hc|]. split; [exact Htags|].
    destruct (Hdec (keypair (config stA)) (world stA) (eq_sym Hsender)) as (w3 & Hd).
    apply (response_event_resolves event stA env w3
             (task_id stB) fallback_text key e Hjson Hcontent Henv);
      [|exact He|exact Hfresh].
    rewrite Hd, Hplain. reflexivity.
  - destruct (handleIncomingMessage_unsigned req senderPubKey stB im si env w' message
                Hin Henc Hev) as (Hr & Hh & Hc & Hlog & _ & _).
    rewrite Hthrows in Hlog.
    split; [rewrite Hlog; apply elem_of_app; right; left|]. split; [exact Hh|].
    exists env, w'. split; [rewrite <- Hplain; exact Henc|]. rewrite Hev. auto.
Qed.

End Receiving.

Section Frame.
Context (P : Primitives) (H : Host) (C : Codec).

Lemma keeps_bind {A B} (m : Act A) (k : A -> Act B) :
  keeps_config m -> (forall a, keeps_config (k a)) -> keeps_config (mbind k m).
Proof.
  intros Hm Hk st. unfold mbind, Act_bind.
  specialize (Hm st). destruct (m st) as [[a|msg] st1]; cbn [snd] in *.
  - rewrite (Hk a st1). exact Hm.
  - exact Hm.
Qed.

Lemma keeps_pure {A} (a : A) : keeps_config (pure a).
Proof. intros st. reflexivity. Qed.

Lemma keeps_skip : keeps_config skip.
Proof. intros st. reflexivity. Qed.

Lemma keeps_raise {A} (o : outcome A) : keeps_config (raise o).
Proof. intros st. reflexivity. Qed.

Lemma keeps_read {A} (f : State -> A) : keeps_config (read f).
Proof. intros st. reflexivity. Qed.

Lemma keeps_codec {A} (m : Eff A) : keeps_config (codec m).
Proof. intros st. reflexivity. Qed.

Lemma keeps_act (f : State -> State) :
  (forall st, config (f st) = config st) -> keeps_config (act f).
Proof. intros Hf st. apply Hf. Qed.

Lemma keeps_generateTaskId : keeps_config generateTaskId.
Proof. intros st. reflexivity. Qed.

Lemma settle_config (p : nat) (r : RelaySendResult) (st : State) :
  config (settle p r st) = config st.
Proof. unfold settle. simpl_state. destruct (settled st !! p); reflexivity. Qed.

Ltac keeps :=
  repeat first
    [ apply keeps_bind; [|intros ?]
    | apply keeps_pure | apply keeps_skip | apply keeps_raise | apply keeps_read
    | apply keeps_codec | apply keeps_generateTaskId
    | apply keeps_act; intros ?; first [apply settle_config | reflexivity]
    | match goal with
      | |- keeps_config (match ?x with _ => _ end) => destruct x
      end ].

(** Handling an event leaves the configuration (the keypair, the handler)
    as it is. *)
Lemma handleEvent_config (event : Nostr.Event) (st : State) :
  config (handleEvent P H C event st) = config st.
Proof.
  unfold handleEvent.
  match goal with |- config (match ?m st with _ => _ end) = _ =>
    assert (Hk : keeps_config m) end.
  { unfold decrypt_parsed, dispatch. keeps. }
  specialize (Hk st).
  match goal with |- config (match ?m st with _ => _ end) = _ =>
    destruct (m st) as [[[]|msg] st1] end; cbn [snd] in Hk; exact Hk.
Qed.

End Frame.

Section Duplicates.
Context (P : Primitives) (H : Host) (C : Codec).
Local Abbreviation handleEvent := (handleEvent P H C).
Local Abbreviation handleIncomingMessage := (handleIncomingMessage P H C).

(** After a response event was handled, no pending request has its id. *)
Lemma response_event_clears_entry (event : Nostr.Event) (st : State) (encrypted : json)
    (env : Envelope C) (plaintext : string) (w' : World) (payload : json) :
  JSON_parse H (Nostr.content event) = Returned encrypted ->
  envelope_of_json C encrypted = Some env ->
  decryptMessage C env (keypair (config st)) (world st) = (Returned (Success plaintext), w') ->
  JSON_parse H plaintext = Returned payload ->
  truthy (get_opt (Some payload) "result") || truthy (get_opt (Some payload) "error") = true ->
  pending_get (get_opt (Some payload) "id") (handleEvent event st) = None.
Proof.
  intros Hparse Henv Hdec Hjson Htruthy.
  destruct (pending_get (get_opt (Some payload) "id") st) as [[key e]|] eqn:Hget.
  - unfold pending_get in Hget |- *.
    destruct (get_opt (Some payload) "id") as [[| | | s | |]|] eqn:Hid; try reflexivity.
    destruct (pendingRequests st !! s) as [e'|] eqn:He; [|discriminate].
    cbn in Hget. injection Hget as <- <-.
    rewrite (handleEvent_decrypted P H C event st encrypted env plaintext w' Hparse Henv Hdec).
    unfold RelayTransport.dispatch. run_act. rewrite Hjson.
    destruct payload as [| b | n | s' | items | fields]; try discriminate Htruthy.
    cbn [get get_opt] in *. rewrite Htruthy.
    destruct (handleResponse_entry H (set_world w' st) (JObj fields) s e')
      as [[result ->]|[message ->]]; [cbn; rewrite Hid; reflexivity | exact He | |].
    + destruct (settle_fields (resolve e') result
                  (pending_delete s (clearTimeout (timeout e') (set_world w' st))))
        as (-> & _). simpl_state. rewrite lookup_delete_eq. reflexivity.
    + simpl_state. rewrite lookup_delete_eq. reflexivity.
  - rewrite (handleEvent_unmatched_response P H C event st encrypted env plaintext
               w' payload Hparse Henv Hdec Hjson Htruthy Hget). exact Hget.
Qed.

(** Every delivery of a request event invokes the handler. *)
Lemma request_event_invokes_handler (event : Nostr.Event) (st : State) (encrypted : json)
    (env : Envelope C) (plaintext : string) (w' : World) (req : json)
    (call : IncomingMessage * SenderInfo) :
  JSON_parse H (Nostr.content event) = Returned encrypted ->
  envelope_of_json C encrypted = Some env ->
  decryptMessage C env (keypair (config st)) (world st) = (Returned (Success plaintext), w') ->
  JSON_parse H plaintext = Returned req ->
  truthy (get_opt (Some req) "result") || truthy (get_opt (Some req) "error") = false ->
  is_string (get_opt (Some req) "method") "message/send" = true ->
  incoming_of req (default "" (string_field "senderPubKey" encrypted)) = Returned (Some call) ->
  handled (handleEvent event st) = handled st ++ [call].
Proof.
  intros Hparse Henv Hdec Hjson Hreq Hmethod Hin.
  rewrite (handleEvent_decrypted P H C event st encrypted env plaintext w' Hparse Henv Hdec).
  unfold RelayTransport.dispatch. run_act. rewrite Hjson.
  destruct req as [| b | n | s | items | fields]; try discriminate Hmethod.
  cbn [get get_opt] in *. rewrite Hreq, Hmethod.
  pose proof (handleIncomingMessage_handled P H C (JObj fields)
                (default "" (string_field "senderPubKey" encrypted)) (set_world w' st)) as Hh.
  rewrite Hin in Hh.
  destruct (RelayTransport.handleIncomingMessage P H C (JObj fields) _ (set_world w' st))
    as [[[]|message] st1]; cbn [snd] in Hh |- *;
    [|rewrite (proj1 (log_frame _ _ _))]; exact Hh.
Qed.

(** Every delivery of a request event to a transport whose codec is sound
    and whose library signs publishes a response. *)
Lemma request_event_publishes (valid : Keypair -> Prop) (event : Nostr.Event) (st : State)
    (encrypted : json) (env : Envelope C) (plaintext : string) (w' : World) (req : json)
    (call : IncomingMessage * SenderInfo) :
  stringify_well_formed H ->
  codec_sound C valid ->
  valid (keypair (config st)) ->
  signs_events P H (keypair (config st)) ->
  JSON_parse H (Nostr.content event) = Returned encrypted ->
  envelope_of_json C encrypted = Some env ->
  decryptMessage C env (keypair (config st)) (world st) = (Returned (Success plaintext), w') ->
  JSON_parse H plaintext = Returned req ->
  truthy (get_opt (Some req) "result") || truthy (get_opt (Some req) "error") = false ->
  is_string (get_opt (Some req) "method") "message/send" = true ->
  incoming_of req (default "" (string_field "senderPubKey" encrypted)) = Returned (Some call) ->
  exists response, clients (handleEvent event st) = map (publish_to response) (clients st).
Proof.
  intros Hwf Hcodec Hvalid Hsigns Hparse Henv Hdec Hjson Hreq Hmethod Hin.
  rewrite (handleEvent_decrypted P H C event st encrypted env plaintext w' Hparse Henv Hdec).
  unfold RelayTransport.dispatch. run_act. rewrite Hjson.
  destruct req as [| b | n | s | items | fields]; try discriminate Hmethod.
  cbn [get get_opt] in *. rewrite Hreq, Hmethod.
  set (sender := default "" (string_field "senderPubKey" encrypted)) in *.
  destruct call as [im si].
  destruct (Hcodec (reply_plaintext H (JObj fields) (set_world w' st) im si)
              (keypair (config (set_world w' st))) (hexToPublicKey sender)
              (world (set_world w' st)) (Hwf _) Hvalid) as (renv & w2 & Henc & _).
  destruct (createNostrEvent_signs P H (keypair (config st)) 4
              (JSON_stringify H (envelope_to_json C renv)) (recipient_tags sender)
              (now st) Hsigns) as (response & Hev & _).
  destruct (handleIncomingMessage_publishes P H C (JObj fields) sender (set_world w' st)
              im si renv w2 response Hin Henc Hev) as (_ & Hc & _).
  exists response.
  destruct (RelayTransport.handleIncomingMessage P H C (JObj fields) sender (set_world w' st))
    as [[[]|message] st1]; cbn [snd] in Hc |- *;
    [|rewrite (proj1 (proj2 (log_frame _ _ _)))]; exact Hc.
Qed.

(** C4, as the code has it. Of the same event delivered twice: when it
    carries a response, the second delivery is stopped by the correlation
    id, no pending request has it any more, and nothing changes but the
    record of the codec's operations; when it carries a request, nothing
    stops it: the handler is invoked at each delivery, and, where the codec
    is sound and the library signs the wire event, a response is published
    at each delivery. *)
Theorem duplicate_delivery_is_stopped_for_responses_only (valid : Keypair -> Prop)
    (event : Nostr.Event) (st : State)
    (encrypted : json) (env : Envelope C) (plaintext : string) (payload : json) :
  JSON_parse H (Nostr.content event) = Returned encrypted ->
  envelope_of_json C encrypted = Some env ->
  (forall w, exists w', decryptMessage C env (keypair (config st)) w
                        = (Returned (Success plaintext), w')) ->
  JSON_parse H plaintext = Returned payload ->
  let st1 := handleEvent event st in
  let st2 := handleEvent event st1 in
  (truthy (get_opt (Some payload) "result") || truthy (get_opt (Some payload) "error") = true ->
   exists w'', st2 = set_world w'' st1)
  /\ (truthy (get_opt (Some payload) "result") || truthy (get_opt (Some payload) "error") = false ->
      is_string (get_opt (Some payload) "method") "message/send" = true ->
      forall call,
        incoming_of payload (default "" (string_field "senderPubKey" encrypted))
        = Returned (Some call) ->
        handled st1 = handled st ++ [call]
        /\ handled st2 = handled st ++ [call; call]
        /\ (stringify_well_formed H -> codec_sound C valid ->
            valid (keypair (config st)) -> signs_events P H (keypair (config st)) ->
            exists first second,
              clients st2 = map (publish_to second) (map (publish_to first) (clients st)))).
Proof.
  intros Hparse Henv Hdec Hjson st1 st2.
  assert (Hcfg : config st1 = config st) by apply handleEvent_config.
  destruct (Hdec (world st)) as (w1 & Hd1).
  destruct (Hdec (world st1)) as (w2 & Hd2). rewrite <- Hcfg in Hd2.
  split.
  - intros Htruthy. exists w2. subst st2.
    apply (handleEvent_unmatched_response P H C event st1 encrypted env plaintext
             w2 payload Hparse Henv Hd2 Hjson Htruthy).
    apply (response_event_clears_entry event st encrypted env plaintext w1 payload
             Hparse Henv Hd1 Hjson Htruthy).
  - intros Hreq Hmethod call Hin.
    assert (H1 : handled st1 = handled st ++ [call]).
    { apply (request_event_invokes_handler event st encrypted env plaintext w1 payload call
               Hparse Henv Hd1 Hjson Hreq Hmethod Hin). }
    split; [exact H1|]. subst st2. split.
    + rewrite (request_event_invokes_handler event st1 encrypted env plaintext w2 payload call
                 Hparse Henv Hd2 Hjson Hreq Hmethod Hin).
      rewrite H1, <- app_assoc. reflexivity.
    + intros Hwf Hcodec Hvalid Hsigns.
      destruct (request_event_publishes valid event st encrypted env plaintext w1 payload call
                  Hwf Hcodec Hvalid Hsigns Hparse Henv Hd1 Hjson Hreq Hmethod Hin)
        as (first & Hc1).
      assert (Hvalid1 : valid (keypair (config st1))) by (rewrite Hcfg; exact Hvalid).
      assert (Hsigns1 : signs_events P H (keypair (config st1)))
        by (rewrite Hcfg; exact Hsigns).
      destruct (request_event_publishes valid event st1 encrypted env plaintext w2 payload call
                  Hwf Hcodec Hvalid1 Hsigns1 Hparse Henv Hd2 Hjson Hreq Hmethod Hin)
        as (second & Hc2).
      exists first, second. rewrite Hc2. f_equal. exact Hc1.
Qed.

End Duplicates.

Section Forgery.
Context (P : Primitives) (H : Host).

(** X3. With the codec keyed by the sorted public keys, an event whose
    signature does not verify over ciphertext‖nonce under the sender's key
    it names never reaches the handler: the only cryptographic operation
    performed on it is the verification, and nothing is invoked, published
    or resolved. *)
Theorem forged_event_never_reaches_handler (event : Nostr.Event) (st : State)
    (encrypted : json) (env : Sealed.EncryptedMessage) :
  JSON_parse H (Nostr.content event) = Returned encrypted ->
  envelope_of_json (sealed_codec P) encrypted = Some env ->
  cryptoVerify P
    (base64_decode P (Sealed.ciphertext env) ++ base64_decode P (Sealed.nonce env))
    (Buffer_from_hex (Sealed.senderPubKey env))
    (base64_decode P (Sealed.signature env)) = Returned false ->
  let st' := handleEvent P H (sealed_codec P) event st in
  ops (world st')
  = ops (world st)
    ++ [OpVerify (base64_decode P (Sealed.ciphertext env)
                  ++ base64_decode P (Sealed.nonce env))
                 (Buffer_from_hex (Sealed.senderPubKey env))
                 (base64_decode P (Sealed.signature env))]
  /\ logged st' = logged st ++ [(Warn, "Failed to decrypt message: Invalid signature")]
  /\ handled st' = handled st
  /\ clients st' = clients st
  /\ settled st' = settled st.
Proof.
  intros Hparse Henv Hv st'. subst st'.
  pose proof (sealed_decrypt_verifies_first P env (keypair (config st)) (world st)) as Hd.
  cbv zeta in Hd. rewrite Hv in Hd.
  rewrite (handleEvent_undecryptable P H (sealed_codec P) event st encrypted env
             "Invalid signature" _ Hparse Henv Hd).
  unfold log, set_world. cbn. auto.
Qed.

End Forgery.

(** * The orchestrator: shutdown *)

Section Shutdown.
Context (P : Primitives) (H : Host) (C : Codec).

Local Abbreviation disconnected := (failure "Transport disconnected").

(** One turn of the loop of [disconnect()]. *)
Lemma reject_pending_spec (st : State) (entry : string * PendingRequest) :
  let st' := reject_pending st entry in
  clients st' = clients st
  /\ pendingRequests st' = pendingRequests st
  /\ handled st' = handled st
  /\ timers st' = delete (timeout entry.2) (timers st)
  /\ settled st' = match settled st !! resolve entry.2 with
                   | Some _ => settled st
                   | None => <[resolve entry.2 := disconnected]> (settled st)
                   end.
Proof.
  unfold reject_pending, settle. simpl_state.
  destruct (settled st !! resolve entry.2); simpl_state; auto.
Qed.

(** The whole loop. *)
Lemma reject_all_spec (entries : list (string * PendingRequest)) (st : State) :
  let st' := fold_left reject_pending entries st in
  clients st' = clients st
  /\ pendingRequests st' = pendingRequests st
  /\ handled st' = handled st
  /\ (forall t, timers st' !! t
                = if bool_decide (t ∈ (timeout ∘ snd) <$> entries) then None
                  else timers st !! t)
  /\ (forall p, settled st' !! p
                = match settled st !! p with
                  | Some r => Some r
                  | None => if bool_decide (p ∈ (resolve ∘ snd) <$> entries)
                            then Some disconnected else None
                  end).
Proof.
  revert st. induction entries as [|entry entries IH]; intros st; cbn [fold_left].
  - cbv zeta. split; [reflexivity|]. split; [reflexivity|]. split; [reflexivity|].
    split; intros x; cbn.
    + rewrite bool_decide_eq_false_2 by apply not_elem_of_nil. reflexivity.
    + rewrite bool_decide_eq_false_2 by apply not_elem_of_nil.
      destruct (settled st !! x); reflexivity.
  - destruct (IH (reject_pending st entry)) as (Hc & Hp & Hh & Ht & Hs).
    destruct (reject_pending_spec st entry) as (Hc1 & Hp1 & Hh1 & Ht1 & Hs1).
    cbv zeta. rewrite Hc, Hp, Hh, Hc1, Hp1, Hh1.
    split; [reflexivity|]. split; [reflexivity|]. split; [reflexivity|]. split.
    + intros t. rewrite Ht, Ht1, fmap_cons. cbn [compose].
      destruct (decide (t = timeout entry.2)) as [->|Hne].
      * rewrite lookup_delete_eq, (bool_decide_eq_true_2 (_ ∈ _ :: _)) by left.
        destruct (bool_decide _); reflexivity.
      * rewrite lookup_delete_ne by congruence.
        destruct (bool_decide (t ∈ (timeout ∘ snd) <$> entries)) eqn:Hin.
        -- apply bool_decide_eq_true in Hin.
           rewrite bool_decide_eq_true_2 by (right; exact Hin). reflexivity.
        -- apply bool_decide_eq_false in Hin.
           rewrite bool_decide_eq_false_2; [reflexivity|].
           intros Hin'. apply elem_of_cons in Hin'. destruct Hin'; [congruence|contradiction].
    + intros p. rewrite Hs, Hs1, fmap_cons. cbn [compose].
      destruct (decide (p = resolve entry.2)) as [->|Hne].
      * rewrite (bool_decide_eq_true_2 (_ ∈ _ :: _)) by left.
        destruct (settled st !! resolve entry.2) as [r|] eqn:Hr.
        -- rewrite Hr. reflexivity.
        -- rewrite lookup_insert_eq. reflexivity.
      * assert (Hsame : match settled st !! resolve entry.2 with
                        | Some _ => settled st
                        | None => <[resolve entry.2 := disconnected]> (settled st)
                        end !! p = settled st !! p).
        { destruct (settled st !! resolve entry.2); [reflexivity|].
          apply lookup_insert_ne. congruence. }
        rewrite Hsame. destruct (settled st !! p); [reflexivity|].
        destruct (bool_decide (p ∈ (resolve ∘ snd) <$> entries)) eqn:Hin.
        -- apply bool_decide_eq_true in Hin.
           rewrite bool_decide_eq_true_2 by (right; exact Hin). reflexivity.
        -- apply bool_decide_eq_false in Hin.
           rewrite bool_decide_eq_false_2; [reflexivity|].
           intros Hin'. apply elem_of_cons in Hin'. destruct Hin'; [congruence|contradiction].
Qed.

(** What [disconnect()] leaves. *)
Lemma disconnect_spec (st : State) :
  let st' := disconnect st in
  clients st' = []
  /\ pendingRequests st' = ∅
  /\ handled st' = handled st
  /\ (forall id e, pendingRequests st !! id = Some e ->
        timers st' !! timeout e = None
        /\ settled st' !! resolve e
           = Some (default disconnected (settled st !! resolve e)))
  /\ (forall p r, settled st !! p = Some r -> settled st' !! p = Some r).
Proof.
  unfold disconnect.
  destruct (reject_all_spec (map_to_list (pendingRequests (set_clients [] st)))
              (set_clients [] st)) as (Hc & Hp & Hh & Ht & Hs).
  cbv zeta in *. unfold log, pending_clear. cbn [clients pendingRequests handled timers settled].
  rewrite Hc, Hh. split; [reflexivity|]. split; [reflexivity|]. split; [reflexivity|].
  split.
  - intros id e He.
    assert (Hin : (id, e) ∈ map_to_list (pendingRequests (set_clients [] st))).
    { apply elem_of_map_to_list. exact He. }
    split.
    + rewrite Ht, bool_decide_eq_true_2; [reflexivity|].
      apply list_elem_of_fmap. exists (id, e). split; [reflexivity|exact Hin].
    + rewrite Hs. cbn [settled set_clients].
      destruct (settled st !! resolve e); [reflexivity|].
      rewrite bool_decide_eq_true_2; [reflexivity|].
      apply list_elem_of_fmap. exists (id, e). split; [reflexivity|exact Hin].
  - intros p r Hr. rewrite Hs. cbn [settled set_clients]. rewrite Hr. reflexivity.
Qed.

(** X12. [disconnect()] leaves no request pending: the table and the list of
    links are empty, the timer of every request that was pending is
    cleared, every such request whose promise was not settled is resolved
    with the failure "Transport disconnected", and the results delivered
    before stay as they are. That result is final: a response that comes
    later, whatever its id, finds no entry and changes nothing, and the
    deadline of the request can no longer fire. *)
Theorem disconnect_resolves_every_pending_request (st : State) (id : string)
    (e : PendingRequest) :
  pendingRequests st !! id = Some e ->
  settled st !! resolve e = None ->
  let st' := disconnect st in
  settled st' !! resolve e = Some (failure "Transport disconnected")
  /\ timers st' !! timeout e = None
  /\ pendingRequests st' = ∅
  /\ clients st' = []
  /\ (forall p r, settled st !! p = Some r -> settled st' !! p = Some r)
  /\ (forall fields, handleResponse H (JObj fields) st' = (Returned tt, st'))
  /\ fire (timeout e) st' = st'.
Proof.
  intros He Hfresh st'. subst st'.
  destruct (disconnect_spec st) as (Hc & Hp & _ & Hent & Hold).
  destruct (Hent id e He) as (Ht & Hs). rewrite Hfresh in Hs.
  split; [exact Hs|]. split; [exact Ht|]. split; [exact Hp|]. split; [exact Hc|].
  split; [exact Hold|]. split.
  - intros fields.
    apply (handleResponse_no_entry H _ (JObj fields) (assoc "id" fields) eq_refl).
    unfold pending_get. rewrite Hp.
    destruct (assoc "id" fields) as [[| | | key | |]|]; reflexivity.
  - unfold fire. rewrite Ht. reflexivity.
Qed.

(** A [send] after [disconnect()] (the encryption and the creation of the
    event returning) is resolved within the call with the
    no-connected-relays failure, hands nothing to any link and leaves the
    table empty. *)
Lemma send_after_disconnect_fails_at_once (message : RelayMessage) (ms : Z) (st : State)
    (env : Envelope C) (w' : World) (event : Nostr.Event) :
  let st' := disconnect st in
  encryptMessage C (send_plaintext H message st') (keypair (config st'))
    (hexToPublicKey (recipientPubKey message)) (world st') = (Returned env, w') ->
  send_event P H C message st' env = Returned event ->
  settled st' !! next_promise st' = None ->
  let r := send P H C message ms st' in
  settled r.2 !! r.1 = Some (failure "No connected relays")
  /\ pendingRequests r.2 = ∅
  /\ clients r.2 = []
  /\ timers r.2 !! next_timer st' = None.
Proof.
  intros st' Henc Hev Hfresh r. subst r.
  destruct (disconnect_spec st) as (Hc & Hp & _). fold st' in Hc, Hp.
  assert (Hnone : any_connected st' = false).
  { unfold any_connected. rewrite Hc. reflexivity. }
  rewrite (send_run P H C message ms st' env w' event Henc Hev), Hnone. cbn [fst snd].
  unfold send_rollback, send_register. unfold_state.
  rewrite Hfresh. simpl_state.
  rewrite lookup_insert_eq, Hp, Hc, delete_insert_eq, delete_empty.
  split; [reflexivity|]. split; [reflexivity|]. split; [reflexivity|].
  apply lookup_delete_eq.
Qed.

End Shutdown.

(** * The orchestrator: a message from one transport to another *)

Section Delivery.
Context (P : Primitives) (H : Host) (C : Codec).
Import Delivery.
Local Abbreviation handleEvent := (handleEvent P H C).
Local Abbreviation handleIncomingMessage := (handleIncomingMessage P H C).
Local Abbreviation send := (send P H C).

Lemma or_string_nonempty (a : option string) (b : string) :
  b <> "" -> or_string a b <> "".
Proof.
  intros Hb. unfold or_string. destruct a as [s|]; [|exact Hb].
  destruct (String.eqb s "") eqn:Hs; [exact Hb|].
  apply String.eqb_neq. exact Hs.
Qed.

Lemma sender_of_nonempty (message : RelayMessage) (st : State) :
  sender_of message st <> "".
Proof. apply or_string_nonempty, or_string_nonempty. discriminate. Qed.

(** The request [send] builds, read by [handleIncomingMessage]. *)
Lemma incoming_of_request (message : RelayMessage) (sender id senderPubKey : string) :
  sender <> "" ->
  incoming_of (request_json message sender id) senderPubKey
  = Returned (if String.eqb (text message) "" then None
              else Some (incoming message sender)).
Proof.
  intros Hs. apply String.eqb_neq in Hs.
  unfold incoming_of, request_json, incoming, parts_of.
  destruct (data message) as [d|]; [destruct (truthy (Some d)) eqn:Hd|];
    cbn [get get_opt assoc String.eqb Ascii.eqb Bool.eqb negb parts_find find_kind
         text_part data_part is_string];
    cbn [truthy default]; rewrite ?Hs;
    destruct (String.eqb (text message) ""); reflexivity.
Qed.

(** The payload [send] builds is dispatched to [handleIncomingMessage]. *)
Lemma dispatch_request (message : RelayMessage) (sender id senderPubKey : string)
    (st : State) :
  json_sound H ->
  dispatch P H C (JSON_stringify H (request_json message sender id)) senderPubKey st
  = handleIncomingMessage (request_json message sender id) senderPubKey st.
Proof.
  intros Hjson. unfold RelayTransport.dispatch. run_act. rewrite Hjson. reflexivity.
Qed.

(** A request that yields no message is dropped. *)
Lemma handleIncomingMessage_none (req : json) (senderPubKey : string) (st : State) :
  incoming_of req senderPubKey = Returned None ->
  handleIncomingMessage req senderPubKey st = (Returned tt, st).
Proof.
  intros Hin. unfold RelayTransport.handleIncomingMessage. run_act. rewrite Hin. reflexivity.
Qed.

(** What the recipient does with a request event whose payload yields a
    message: the handler is called once and the response is handed to the
    connected links. *)
Lemma request_event_reply (event : Nostr.Event) (st : State) (encrypted : json)
    (env renv : Envelope C) (plaintext : string) (w' w2 : World) (req : json)
    (im : IncomingMessage) (si : SenderInfo) (reply : Nostr.Event) :
  let sender := default "" (string_field "senderPubKey" encrypted) in
  JSON_parse H (Nostr.content event) = Returned encrypted ->
  envelope_of_json C encrypted = Some env ->
  decryptMessage C env (keypair (config st)) (world st) = (Returned (Success plaintext), w') ->
  JSON_parse H plaintext = Returned req ->
  truthy (get_opt (Some req) "result") || truthy (get_opt (Some req) "error") = false ->
  is_string (get_opt (Some req) "method") "message/send" = true ->
  incoming_of req sender = Returned (Some (im, si)) ->
  encryptMessage C (reply_plaintext H req (set_world w' st) im si) (keypair (config st))
    (hexToPublicKey sender) w' = (Returned renv, w2) ->
  reply_event P H C sender (set_world w' st) renv = Returned reply ->
  handled (handleEvent event st) = handled st ++ [(im, si)]
  /\ clients (handleEvent event st) = map (publish_to reply) (clients st)
  /\ pendingRequests (handleEvent event st) = pendingRequests st
  /\ settled (handleEvent event st) = settled st.
Proof.
  intros sender Hparse Henv Hdec Hjson Hreq Hmethod Hin Henc Hev.
  rewrite (handleEvent_decrypted P H C event st encrypted env plaintext w' Hparse Henv Hdec).
  unfold RelayTransport.dispatch. run_act. rewrite Hjson.
  destruct req as [| b | n | s | items | fields]; try discriminate Hmethod.
  cbn [get get_opt] in *. rewrite Hreq, Hmethod. fold sender.
  destruct (handleIncomingMessage_publishes P H C (JObj fields) sender (set_world w' st)
              im si renv w2 reply Hin Henc Hev) as (Hh & Hc & _ & Hp & Hs).
  destruct (RelayTransport.handleIncomingMessage P H C (JObj fields) sender (set_world w' st))
    as [[[]|message] st1]; cbn [snd] in Hh, Hc, Hp, Hs |- *.
  - auto.
  - destruct (log_frame Error ("Error processing event: " +:+ message) st1)
      as (-> & -> & -> & ->). auto.
Qed.

(** What the sender does with the event that carries the response to one
    of its pending requests, whatever data the response carries. *)
Lemma response_event_resolves_with (event : Nostr.Event) (st : State) (env : Envelope C)
    (w' : World) (taskId text key : string) (d : option json) (e : PendingRequest) :
  json_sound H ->
  Nostr.content event = JSON_stringify H (envelope_to_json C env) ->
  envelope_of_json C (envelope_to_json C env) = Some env ->
  decryptMessage C env (keypair (config st)) (world st)
  = (Returned (Success (JSON_stringify H
                          (response_json taskId text d (Some (JStr key))))), w') ->
  pendingRequests st !! key = Some e ->
  settled st !! resolve e = None ->
  let st' := handleEvent event st in
  settled st' !! resolve e
  = Some {| success := true; taskId := Some (JStr taskId);
            response := Some (JStr text); error := None |}
  /\ pendingRequests st' !! key = None
  /\ timers st' !! timeout e = None.
Proof.
  intros Hjson Hcontent Henv Hdec He Hfresh st'. subst st'.
  rewrite (handleEvent_decrypted P H C event st (envelope_to_json C env) env
             (JSON_stringify H (response_json taskId text d (Some (JStr key)))) w');
    [|rewrite Hcontent; apply Hjson | exact Henv | exact Hdec].
  unfold RelayTransport.dispatch. run_act. rewrite Hjson.
  unfold response_json, object. cbn [omap list_omap snd fst get get_opt assoc String.eqb
    Ascii.eqb Bool.eqb truthy orb].
  unfold handleResponse. run_act.
  cbn [get get_opt assoc String.eqb Ascii.eqb Bool.eqb truthy orb].
  unfold pending_get. cbn [pendingRequests set_world]. rewrite He.
  cbn [fmap option_fmap option_map].
  cbn [get get_opt assoc String.eqb Ascii.eqb Bool.eqb truthy orb parts_find find_kind
       text_part is_string].
  unfold_state. rewrite Hfresh. simpl_state.
  rewrite lookup_insert_eq, !lookup_delete_eq. auto.
Qed.

(** X10. A message from one transport to another, there and back. The sender
    has a connected link; the codec is sound and names the sender; the
    library signs the wire events of both; the recipient's key is the one
    the message is addressed to; the text is not empty; the recipient's
    handler answers the call with a text (and maybe data). Then: [send]
    hands one event, tagged for the recipient, to the sender's connected
    links; the recipient, on that event, calls its handler once with the
    text, the data and the sender's name, and hands one event, tagged for
    the sender, to its connected links; and the sender, on that event,
    resolves the promise of [send] with the handler's text and the task id,
    deletes the request and clears its timer. *)
Theorem message_round_trip (valid : Keypair -> Prop) (stA stB : State)
    (message : RelayMessage) (ms : Z) (t : string) (d : option json) :
  json_sound H ->
  stringify_well_formed H ->
  codec_sound C valid ->
  names_sender C ->
  signs_events P H (keypair (config stA)) ->
  signs_events P H (keypair (config stB)) ->
  valid (keypair (config stA)) ->
  valid (keypair (config stB)) ->
  hexToPublicKey (recipientPubKey message) = publicKey (keypair (config stB)) ->
  text message <> "" ->
  any_connected stA = true ->
  settled stA !! next_promise stA = None ->
  let call := incoming message (sender_of message stA) in
  onMessage (config stB) call.1 call.2 = HandlerReturns t d ->
  let p := (send message ms stA).1 in
  let stA1 := (send message ms stA).2 in
  exists request reply,
    clients stA1 = map (publish_to request) (clients stA)
    /\ Nostr.tags request = recipient_tags (recipientPubKey message)
    /\ let stB1 := handleEvent request stB in
       handled stB1 = handled stB ++ [call]
       /\ clients stB1 = map (publish_to reply) (clients stB)
       /\ Nostr.tags reply
          = recipient_tags (publicKeyToHex (publicKey (keypair (config stA))))
       /\ let stA2 := handleEvent reply stA1 in
          settled stA2 !! p
          = Some {| success := true; taskId := Some (JStr (task_id stB));
                    response := Some (JStr t); error := None |}
          /\ pendingRequests stA2 !! send_id stA = None
          /\ timers stA2 !! next_timer stA = None.
Proof.
  intros Hjson Hwf Hcodec Hnames HsignsA HsignsB HvalidA HvalidB Hrecipient Htext Hany
    Hfresh call Hhandler p stA1.
  destruct (Hcodec (send_plaintext H message stA) (keypair (config stA))
              (hexToPublicKey (recipientPubKey message)) (world stA) (Hwf _) HvalidA)
    as (env & w1 & Henc & Henvj & HdecB).
  pose proof (Hnames _ _ _ _ _ _ Henc) as Hsender.
  destruct (createNostrEvent_signs P H (keypair (config stA)) 4
              (JSON_stringify H (envelope_to_json C env))
              (recipient_tags (recipientPubKey message)) (now stA) HsignsA)
    as (request & Hrequest & Hrtags & Hrcontent & _).
  assert (Hsend : send message ms stA
                  = (next_promise stA,
                     publish_all request
                       (send_register (send_id stA) (next_promise stA) ms
                          (set_world w1 (set_random_cursor (S (random_cursor stA))
                             (set_settled (settled stA) (S (next_promise stA)) stA)))))).
  { rewrite (send_run P H C message ms stA env w1 request Henc Hrequest), Hany.
    reflexivity. }
  subst p stA1. rewrite Hsend. cbn [fst snd].
  set (senderHex := publicKeyToHex (publicKey (keypair (config stA)))).
  destruct (HdecB (keypair (config stB)) (world stB) (eq_sym Hrecipient)) as (w3 & Hd3).
  assert (Hin : incoming_of (request_json message (sender_of message stA) (send_id stA))
                  (default "" (string_field "senderPubKey" (envelope_to_json C env)))
                = Returned (Some (call.1, call.2))).
  { rewrite incoming_of_request by apply sender_of_nonempty.
    apply String.eqb_neq in Htext. rewrite Htext. subst call. destruct (incoming _ _).
    reflexivity. }
  assert (HsenderKey : hexToPublicKey
                         (default "" (string_field "senderPubKey" (envelope_to_json C env)))
                       = publicKey (keypair (config stA))).
  { rewrite Hsender. apply Buffer_from_hex_toString. }
  destruct (Hcodec (reply_plaintext H
                      (request_json message (sender_of message stA) (send_id stA))
                      (set_world w3 stB) call.1 call.2)
              (keypair (config stB))
              (hexToPublicKey
                 (default "" (string_field "senderPubKey" (envelope_to_json C env))))
              w3 (Hwf _) HvalidB)
    as (renv & w4 & Henc2 & Henvj2 & HdecA).
  destruct (createNostrEvent_signs P H (keypair (config stB)) 4
              (JSON_stringify H (envelope_to_json C renv))
              (recipient_tags
                 (default "" (string_field "senderPubKey" (envelope_to_json C env))))
              (now stB) HsignsB)
    as (reply & Hreply & Hptags & Hpcontent & _).
  assert (Hparse : JSON_parse H (Nostr.content request) = Returned (envelope_to_json C env)).
  { rewrite Hrcontent. apply Hjson. }
  destruct (request_event_reply request stB (envelope_to_json C env) env renv
              (send_plaintext H message stA) w3 w4
              (request_json message (sender_of message stA) (send_id stA))
              call.1 call.2 reply Hparse Henvj Hd3 (Hjson _) eq_refl eq_refl Hin Henc2 Hreply)
    as (Hh & Hc & _ & _).
  exists request, reply.
  split; [reflexivity|]. split; [exact Hrtags|].
  cbv zeta. split; [rewrite Hh; destruct call; reflexivity|].
  split; [exact Hc|].
  split; [rewrite Hptags, Hsender; reflexivity|].
  set (stA1 := publish_all _ _).
  destruct (HdecA (keypair (config stA)) (world stA1) (eq_sym HsenderKey)) as (w5 & Hd5).
  apply (response_event_resolves_with reply stA1 renv w5
           (task_id stB) t (send_id stA) d
           {| resolve := next_promise stA; timeout := next_timer stA |}
           Hjson Hpcontent Henvj2).
  - etransitivity; [exact Hd5|]. unfold Statements.reply_plaintext, reply_json.
    cbn [config set_world]. rewrite Hhandler. reflexivity.
  - subst stA1. unfold send_register. simpl_state. apply lookup_insert_eq.
  - subst stA1. unfold send_register. simpl_state. exact Hfresh.
Qed.

(** X11. A message whose text is empty is sent like any other, and dropped
    by the recipient: [send] does not refuse it; the encryption and the
    creation of the event returning, it registers the request and hands the
    event to the connected links, leaving the promise unsettled; the
    recipient decrypts the event and returns without calling its handler,
    without a response and without a log line. *)
Theorem empty_text_message_is_dropped_by_recipient (valid : Keypair -> Prop)
    (stA stB : State) (message : RelayMessage) (ms : Z) :
  json_sound H ->
  stringify_well_formed H ->
  codec_sound C valid ->
  signs_events P H (keypair (config stA)) ->
  valid (keypair (config stA)) ->
  hexToPublicKey (recipientPubKey message) = publicKey (keypair (config stB)) ->
  text message = "" ->
  any_connected stA = true ->
  settled stA !! next_promise stA = None ->
  let p := (send message ms stA).1 in
  let stA1 := (send message ms stA).2 in
  exists request,
    clients stA1 = map (publish_to request) (clients stA)
    /\ settled stA1 !! p = None
    /\ pendingRequests stA1 !! send_id stA
       = Some {| resolve := p; timeout := next_timer stA |}
    /\ let stB1 := handleEvent request stB in
       handled stB1 = handled stB
       /\ clients stB1 = clients stB
       /\ logged stB1 = logged stB.
Proof.
  intros Hjson Hwf Hcodec HsignsA HvalidA Hrecipient Htext Hany Hfresh p stA1.
  destruct (Hcodec (send_plaintext H message stA) (keypair (config stA))
              (hexToPublicKey (recipientPubKey message)) (world stA) (Hwf _) HvalidA)
    as (env & w1 & Henc & Henvj & HdecB).
  destruct (createNostrEvent_signs P H (keypair (config stA)) 4
              (JSON_stringify H (envelope_to_json C env))
              (recipient_tags (recipientPubKey message)) (now stA) HsignsA)
    as (request & Hrequest & _ & Hrcontent & _).
  subst p stA1.
  rewrite (send_run P H C message ms stA env w1 request Henc Hrequest), Hany. cbn [fst snd].
  exists request.
  unfold send_register. simpl_state. rewrite lookup_insert_eq.
  split; [reflexivity|]. split; [exact Hfresh|]. split; [reflexivity|].
  destruct (HdecB (keypair (config stB)) (world stB) (eq_sym Hrecipient)) as (w3 & Hd3).
  cbv zeta.
  assert (Hparse : JSON_parse H (Nostr.content request) = Returned (envelope_to_json C env)).
  { rewrite Hrcontent. apply Hjson. }
  rewrite (handleEvent_decrypted P H C request stB
             (envelope_to_json C env) env (send_plaintext H message stA) w3
             Hparse Henvj Hd3).
  unfold Statements.send_plaintext. fold (sender_of message stA).
  rewrite (dispatch_request _ _ _ _ _ Hjson).
  rewrite handleIncomingMessage_none.
  - unfold set_world. cbn. auto.
  - rewrite incoming_of_request by apply sender_of_nonempty.
    rewrite Htext. reflexivity.
Qed.

End Delivery.

(** The codec keyed by the sorted public keys names its sender. *)
Lemma sealed_codec_names_sender (P : Primitives) : names_sender (sealed_codec P).
Proof.
  intros plaintext A pubB w w' env Henc.
  destruct (sealed_encrypt_inv P plaintext A pubB w w' env Henc)
    as (ct & tag & sig & _ & _ & -> & _).
  reflexivity.
Qed.

(** * The orchestrator: failures and what is never done *)

Section Edges.
Context (P : Primitives) (H : Host) (C : Codec).
Local Abbreviation handleEvent := (handleEvent P H C).
Local Abbreviation send := (send P H C).

(** X13. When the encryption of the request throws, [send] resolves its
    promise with the error's message and does nothing else: no request is
    registered, no timer is set, no link is handed anything, and the only
    entry added to the journal is the call of the resolver. *)
Theorem send_encryption_failure_is_reported (message : RelayMessage) (ms : Z) (st : State)
    (msg : string) (w' : World) :
  encryptMessage C (send_plaintext H message st) (keypair (config st))
    (hexToPublicKey (recipientPubKey message)) (world st) = (Thrown msg, w') ->
  settled st !! next_promise st = None ->
  let r := send message ms st in
  settled r.2 !! r.1 = Some (failure msg)
  /\ pendingRequests r.2 = pendingRequests st
  /\ timers r.2 = timers st
  /\ clients r.2 = clients st
  /\ journal r.2 = journal st ++ [ResolveCalled r.1].
Proof.
  intros Henc Hfresh r. subst r.
  rewrite (send_throws P H C message ms st msg w' Henc). cbn [fst snd].
  unfold settle. simpl_state. rewrite Hfresh. simpl_state.
  rewrite lookup_insert_eq. auto.
Qed.

(** X14. A response that carries a truthy [error] resolves the pending
    request of its id with a failure made of the error's code and message,
    whether or not it carries a result as well; the request is deleted and
    its timer cleared. *)
Theorem error_response_resolves_with_failure (event : Nostr.Event) (st : State)
    (encrypted : json) (env : Envelope C) (plaintext : string) (w' : World)
    (jsonRpc : json) (key : string) (e : PendingRequest) :
  JSON_parse H (Nostr.content event) = Returned encrypted ->
  envelope_of_json C encrypted = Some env ->
  decryptMessage C env (keypair (config st)) (world st) = (Returned (Success plaintext), w') ->
  JSON_parse H plaintext = Returned jsonRpc ->
  truthy (get_opt (Some jsonRpc) "error") = true ->
  get_opt (Some jsonRpc) "id" = Some (JStr key) ->
  pendingRequests st !! key = Some e ->
  settled st !! resolve e = None ->
  let st' := handleEvent event st in
  let err := get_opt (Some jsonRpc) "error" in
  settled st' !! resolve e
  = Some (failure (String_of H (get_opt err "code") +:+ ": "
                   +:+ String_of H (get_opt err "message")))
  /\ pendingRequests st' !! key = None
  /\ timers st' !! timeout e = None
  /\ handled st' = handled st
  /\ clients st' = clients st.
Proof.
  intros Hparse Henv Hdec Hjson Herr Hid He Hfresh st' err. subst st' err.
  assert (Htruthy : truthy (get_opt (Some jsonRpc) "result")
                    || truthy (get_opt (Some jsonRpc) "error") = true).
  { rewrite Herr. apply orb_true_r. }
  rewrite (handleEvent_response P H C event st encrypted env plaintext w' jsonRpc
             Hparse Henv Hdec Hjson Htruthy).
  destruct jsonRpc as [| b | n | s | items | fields]; try discriminate Herr.
  cbn [get_opt] in *.
  unfold handleResponse. run_act. cbn [get]. rewrite Hid.
  unfold pending_get. cbn [pendingRequests set_world]. rewrite He.
  cbn [fmap option_fmap option_map]. rewrite Herr.
  unfold_state. rewrite Hfresh. simpl_state.
  rewrite lookup_insert_eq, !lookup_delete_eq. auto.
Qed.

(** X15. Of an event whose content is not JSON, or is JSON in which the
    fields of the envelope are strings: the handler is called, and a
    response published, only for a request that decrypted. Whenever
    [handleEvent] adds to the handler's invocations or hands an event to a
    link, the content of the event parsed to an envelope that decrypted
    successfully, to a payload without truthy [result] or [error] whose
    method is "message/send" and which yields a message; and the handler was
    called exactly once, with that message. *)
Theorem handler_runs_only_for_decrypted_requests (event : Nostr.Event) (st : State) :
  (forall encrypted, JSON_parse H (Nostr.content event) = Returned encrypted ->
                     is_Some (envelope_of_json C encrypted)) ->
  let st' := handleEvent event st in
  handled st' <> handled st \/ clients st' <> clients st ->
  exists encrypted env plaintext w' req call,
    JSON_parse H (Nostr.content event) = Returned encrypted
    /\ envelope_of_json C encrypted = Some env
    /\ decryptMessage C env (keypair (config st)) (world st)
       = (Returned (Success plaintext), w')
    /\ JSON_parse H plaintext = Returned req
    /\ truthy (get_opt (Some req) "result") || truthy (get_opt (Some req) "error") = false
    /\ is_string (get_opt (Some req) "method") "message/send" = true
    /\ incoming_of req (default "" (string_field "senderPubKey" encrypted))
       = Returned (Some call)
    /\ handled st' = handled st ++ [call].
Proof.
  intros Hfields st' Hchanged.
  assert (Hsame : forall st0, handled st0 = handled st -> clients st0 = clients st ->
                              st' = st0 -> False).
  { intros st0 Hh Hc Heq. rewrite Heq in Hchanged. destruct Hchanged; contradiction. }
  assert (Hlog : forall level line st0, handled st0 = handled st -> clients st0 = clients st ->
                   st' = log level line st0 -> False).
  { intros level line st0 Hh Hc Heq. apply (Hsame (log level line st0)); auto. }
  subst st'. revert Hchanged Hsame Hlog.
  unfold RelayTransport.handleEvent, decrypt_parsed. run_act.
  destruct (JSON_parse H (Nostr.content event)) as [encrypted|m] eqn:Hparse;
    [|intros _ _ Hlog; exfalso; eapply Hlog; eauto].
  destruct (envelope_of_json C encrypted) as [env|] eqn:Henv; run_act;
    [|exfalso; destruct (Hfields encrypted eq_refl) as [env He]; congruence].
  destruct (decryptMessage C env (keypair (config st)) (world st)) as [[[plaintext|m]|m] w']
    eqn:Hdec; cbn [fst snd];
    [|intros _ _ Hlog; exfalso; eapply (Hlog _ _ (set_world w' st)); eauto
     |intros _ _ Hlog; exfalso; eapply (Hlog _ _ (set_world w' st)); eauto].
  unfold RelayTransport.dispatch. run_act.
  destruct (JSON_parse H plaintext) as [req|m] eqn:Hjson;
    [|intros _ _ Hlog; exfalso; eapply (Hlog _ _ (set_world w' st)); eauto].
  destruct (get (Some req) "result") as [result|m] eqn:Hres;
    [|intros _ _ Hlog; exfalso; eapply (Hlog _ _ (set_world w' st)); eauto].
  assert (Hobj : get_opt (Some req) "result" = result
                 /\ get (Some req) "error" = Returned (get_opt (Some req) "error")
                 /\ get (Some req) "method" = Returned (get_opt (Some req) "method")).
  { destruct req; cbn in Hres |- *; try discriminate; injection Hres as <-; auto. }
  destruct Hobj as (Hr & -> & ->). subst result.
  destruct (truthy (get_opt (Some req) "result") || truthy (get_opt (Some req) "error"))
    eqn:Htruthy.
  { intros _ Hsame Hlog. exfalso.
    pose proof (handleResponse_frame H (set_world w' st) req) as [Hh Hc].
    destruct (handleResponse H req (set_world w' st)) as [[[]|m] st1]; cbn [snd] in *.
    - eapply (Hsame st1); eauto.
    - eapply (Hlog _ _ st1); eauto. }
  destruct (is_string (get_opt (Some req) "method") "message/send") eqn:Hmethod;
    [|intros _ Hsame _; exfalso; eapply (Hsame (set_world w' st)); eauto].
  pose proof (handleIncomingMessage_handled P H C req
                (default "" (string_field "senderPubKey" encrypted)) (set_world w' st)) as Hh.
  destruct (incoming_of req (default "" (string_field "senderPubKey" encrypted)))
    as [[call|]|m] eqn:Hin.
  - intros _ _ _. exists encrypted, env, plaintext, w', req, call.
    repeat (split; [reflexivity || assumption|]).
    destruct (RelayTransport.handleIncomingMessage P H C req _ (set_world w' st))
      as [[[]|m] st1]; cbn [snd] in Hh |- *; [exact Hh|].
    rewrite (proj1 (log_frame _ _ _)). exact Hh.
  - intros _ Hsame Hlog. exfalso.
    destruct (RelayTransport.handleIncomingMessage P H C req _ (set_world w' st))
      as [[[]|m] st1]; cbn [snd] in Hh; subst st1.
    + eapply (Hsame (set_world w' st)); eauto.
    + eapply (Hlog _ _ (set_world w' st)); eauto.
  - intros _ Hsame Hlog. exfalso.
    destruct (RelayTransport.handleIncomingMessage P H C req _ (set_world w' st))
      as [[[]|m0] st1]; cbn [snd] in Hh; subst st1.
    + eapply (Hsame (set_world w' st)); eauto.
    + eapply (Hlog _ _ (set_world w' st)); eauto.
Qed.

End Edges.

Section OverEncryptionTs.
Context (P : Primitives) (H : Host).

(** X5. Over the codec of [src/relay/encryption.ts], the file whose name
    [relay-transport.ts] imports, the transport neither sends nor accepts a
    message, whatever the keys and the primitives: [sign] and [verify] of
    that file call [createSign(null)] and [createVerify(null)], which throw.
    Every [send] resolves its promise within the call with a failure,
    registering nothing, setting no timer and handing nothing to a link;
    and every event is dropped with one log line: the handler is not
    called, nothing is published, no request is resolved. *)
Theorem transport_over_encryption_ts_is_mute :
  (forall (message : RelayMessage) (ms : Z) (st : State),
      settled st !! next_promise st = None ->
      let r := send P H (ecdh_codec P) message ms st in
      (exists error, settled r.2 !! r.1 = Some (failure error))
      /\ pendingRequests r.2 = pendingRequests st
      /\ timers r.2 = timers st
      /\ clients r.2 = clients st
      /\ journal r.2 = journal st ++ [ResolveCalled r.1])
  /\ (forall (event : Nostr.Event) (st : State),
        let st' := handleEvent P H (ecdh_codec P) event st in
        handled st' = handled st
        /\ clients st' = clients st
        /\ pendingRequests st' = pendingRequests st
        /\ settled st' = settled st
        /\ exists line, logged st' = logged st ++ [line]).
Proof.
  split.
  - intros message ms st Hfresh r. subst r.
    destruct (ecdh_encrypt_run P (send_plaintext H message st) (keypair (config st))
                (hexToPublicKey (recipientPubKey message)) (world st))
      as ((msg & Hthrown) & _).
    destruct (Ecdh.encryptMessage P (send_plaintext H message st) (keypair (config st))
                (hexToPublicKey (recipientPubKey message)) (world st))
      as [o w'] eqn:Henc.
    cbn [fst] in Hthrown. subst o.
    rewrite (send_throws P H (ecdh_codec P) message ms st msg w' Henc). cbn [fst snd].
    destruct (send_failed_state st w' msg Hfresh) as (Hs & Hp & Ht & Hc & Hj).
    split; [exists msg; exact Hs|]. auto.
  - intros event st st'. subst st'.
    unfold handleEvent, decrypt_parsed. run_act.
    destruct (JSON_parse H (Nostr.content event)) as [encrypted|m].
    + destruct (envelope_of_json (ecdh_codec P) encrypted) as [env|]; run_act.
      * cbn [decryptMessage ecdh_codec].
        destruct (ecdh_decrypt_fails P env (keypair (config st)) (world st))
          as (message & -> & _).
        cbn [fst snd]. unfold log, set_world. cbn. repeat (split; [reflexivity|]).
        eexists. reflexivity.
      * unfold log. cbn. repeat (split; [reflexivity|]). eexists. reflexivity.
    + unfold log. cbn. repeat (split; [reflexivity|]). eexists. reflexivity.
Qed.

End OverEncryptionTs.

(** * One relay link *)

Section Publish.
Context (H : Host).
Import RelayClient.

Ltac simpl_client :=
  cbn [connected ws autoReconnect reconnectDelay reconnectTimer subscriptions
       RelayClient.timers RelayClient.next_timer promises RelayClient.next_promise emitted
       set_connected set_ws set_autoReconnect set_reconnectTimer set_subscriptions
       RelayClient.set_timers set_promises emit RelayClient.setTimeout
       RelayClient.clearTimeout sent listeners delay callback] in *.

(** X7. A link that is not connected rejects at once, and nothing is queued:
    the socket, the timers and the listeners are as before. *)
Lemma publish_not_connected (event : Nostr.Event) (st : RelayClient.State) :
  connected st = false ->
  promises st !! next_promise st = None ->
  let p := (publish H event st).1 in
  let st' := (publish H event st).2 in
  promises st' !! p = Some (Rejected "Not connected to relay")
  /\ ws st' = ws st
  /\ RelayClient.timers st' = RelayClient.timers st.
Proof.
  intros Hc Hfresh p st'. subst p st'. unfold publish. simpl_client.
  rewrite Hc. cbn [negb fst snd]. unfold RelayClient.settle. simpl_client.
  rewrite Hfresh. simpl_client. rewrite lookup_insert_eq. auto.
Qed.

(** A connected link with its socket writes the frame [["EVENT", event]],
    sets a timer of 10 seconds and listens for the acknowledgement; its
    promise is not settled yet. *)
Lemma publish_connected (event : Nostr.Event) (st : RelayClient.State) (s : WebSocket) :
  connected st = true ->
  ws st = Some s ->
  promises st !! next_promise st = None ->
  let p := (publish H event st).1 in
  let st' := (publish H event st).2 in
  let t := RelayClient.next_timer st in
  let l := OnMessage (Nostr.id event) p t in
  p = next_promise st
  /\ ws st' = Some {| sent := sent s ++ [JSON_stringify H (JArr [JStr "EVENT"; event_to_json event])];
                      listeners := listeners s ++ [l] |}
  /\ RelayClient.timers st'
     = <[t := {| delay := 10000; callback := PublishTimeout l p |}]> (RelayClient.timers st)
  /\ promises st' !! p = None.
Proof.
  intros Hc Hs Hfresh p st' t l. subst p st' t l. unfold publish. simpl_client.
  rewrite Hc. cbn [negb fst snd].
  unfold addEventListener, RelayClient.send. simpl_client. rewrite Hs, Hc. simpl_client.
  auto.
Qed.

(** The acknowledgement: a message [["OK", id, ok, reason]] whose id is the
    event's settles the promise, resolved when [ok] is truthy and rejected
    with the reason (or "Publish failed") otherwise; the timer is cleared
    and the listener removed. *)
Lemma onMessage_acknowledged (eventId : string) (p t : nat) (data : string) (msg : json)
    (ok reason : option json) (st : RelayClient.State) :
  JSON_parse H data = Returned msg ->
  index msg 0 = Returned (Some (JStr "OK")) ->
  index msg 1 = Returned (Some (JStr eventId)) ->
  index msg 2 = Returned ok ->
  index msg 3 = Returned reason ->
  promises st !! p = None ->
  let st' := RelayClient.onMessage H eventId p t (Some data) st in
  promises st' !! p
  = Some (if truthy ok then Resolved
          else Rejected (if truthy reason then String_of H reason else "Publish failed"))
  /\ RelayClient.timers st' !! t = None
  /\ registered (OnMessage eventId p t) st' = false.
Proof.
  intros Hparse H0 H1 H2 H3 Hfresh st'. subst st'.
  unfold RelayClient.onMessage, onMessage_matches. rewrite Hparse, H0, H1. cbn [is_string].
  rewrite String.eqb_refl. cbn [andb]. rewrite String.eqb_refl, H2, H3.
  assert (Hreg : forall st0, registered (OnMessage eventId p t)
                               (removeEventListener (OnMessage eventId p t) st0) = false).
  { intros st0. unfold registered, removeEventListener.
    destruct (ws st0) as [s|] eqn:Hw; simpl_client; [|rewrite Hw; reflexivity].
    apply bool_decide_eq_false. rewrite list_elem_of_filter. tauto. }
  assert (Hsettle : forall r st0, promises st0 !! p = None ->
            promises (RelayClient.settle p r st0) !! p = Some r
            /\ RelayClient.timers (RelayClient.settle p r st0) = RelayClient.timers st0
            /\ ws (RelayClient.settle p r st0) = ws st0).
  { intros r st0 Hf. unfold RelayClient.settle. rewrite Hf. simpl_client.
    rewrite lookup_insert_eq. auto. }
  set (st0 := cleanup (OnMessage eventId p t) t st).
  assert (Hf0 : promises st0 !! p = None).
  { subst st0. unfold cleanup, removeEventListener.
    destruct (ws (RelayClient.clearTimeout t st)); simpl_client; exact Hfresh. }
  assert (Ht0 : RelayClient.timers st0 !! t = None).
  { subst st0. unfold cleanup, removeEventListener.
    destruct (ws (RelayClient.clearTimeout t st)); simpl_client; apply lookup_delete_eq. }
  assert (Hr0 : registered (OnMessage eventId p t) st0 = false) by apply Hreg.
  destruct (truthy ok).
  - destruct (Hsettle Resolved st0 Hf0) as (-> & -> & Hws).
    unfold registered in *. rewrite Hws. auto.
  - match goal with |- context [RelayClient.settle p ?r st0] =>
      destruct (Hsettle r st0 Hf0) as (-> & -> & Hws) end.
    unfold registered in *. rewrite Hws. auto.
Qed.

(** A message that is not the acknowledgement of this event leaves
    everything as it is. *)
Lemma onMessage_other (eventId : string) (p t : nat) (data : option string) (st : RelayClient.State) :
  match data with
  | Some text => onMessage_matches H eventId text = None
  | None => True
  end ->
  RelayClient.onMessage H eventId p t data st = st.
Proof.
  unfold RelayClient.onMessage. destruct data as [text|]; [|reflexivity].
  intros ->. reflexivity.
Qed.

(** The deadline: when the timer set by [publish] comes due, the promise,
    if it is not settled, is rejected with the timeout error. *)
Lemma publish_times_out (l : Listener) (p t : nat) (st : RelayClient.State) :
  RelayClient.timers st !! t = Some {| delay := 10000; callback := PublishTimeout l p |} ->
  promises st !! p = None ->
  promises (RelayClient.fire t st) !! p = Some (Rejected "Publish timeout").
Proof.
  intros Ht Hfresh. unfold RelayClient.fire. rewrite Ht. simpl_client.
  unfold RelayClient.settle, cleanup, removeEventListener. simpl_client.
  destruct (ws st); simpl_client; rewrite Hfresh; simpl_client; apply lookup_insert_eq.
Qed.

(** X8. [publish] on a connected link with its socket: the listener it
    registered, run on the acknowledgement of the event, settles the
    promise by the boolean of the acknowledgement, clears the timer and
    removes itself. *)
Theorem publish_settles_on_acknowledgement (event : Nostr.Event) (st : RelayClient.State)
    (s : WebSocket) (data : string) (msg : json) (ok reason : option json) :
  connected st = true ->
  ws st = Some s ->
  promises st !! next_promise st = None ->
  JSON_parse H data = Returned msg ->
  index msg 0 = Returned (Some (JStr "OK")) ->
  index msg 1 = Returned (Some (JStr (Nostr.id event))) ->
  index msg 2 = Returned ok ->
  index msg 3 = Returned reason ->
  let p := (publish H event st).1 in
  let st' := (publish H event st).2 in
  let t := RelayClient.next_timer st in
  let l := OnMessage (Nostr.id event) p t in
  let st'' := run_listener H l (Some data) st' in
  registered l st' = true
  /\ promises st'' !! p
     = Some (if truthy ok then Resolved
             else Rejected (if truthy reason then String_of H reason else "Publish failed"))
  /\ RelayClient.timers st'' !! t = None
  /\ registered l st'' = false.
Proof.
  intros Hc Hs Hfresh Hparse H0 H1 H2 H3 p st' t l st''.
  destruct (publish_connected event st s Hc Hs Hfresh) as (Hp & Hws & _ & Hunset).
  fold p st' t in Hp, Hws, Hunset. fold l in Hws.
  split.
  - unfold registered. rewrite Hws. apply bool_decide_eq_true.
    cbn [listeners]. apply elem_of_app. right. left.
  - subst st'' l. cbn [run_listener].
    apply (onMessage_acknowledged (Nostr.id event) p t data msg ok reason st'
             Hparse H0 H1 H2 H3 Hunset).
Qed.

(** X9. [publish] on a connected link with its socket, when no acknowledgement
    comes: the timer it set has a delay of 10 seconds, and when it comes
    due the promise is rejected with the timeout error. *)
Theorem publish_rejects_at_deadline (event : Nostr.Event) (st : RelayClient.State)
    (s : WebSocket) :
  connected st = true ->
  ws st = Some s ->
  promises st !! next_promise st = None ->
  let p := (publish H event st).1 in
  let st' := (publish H event st).2 in
  let t := RelayClient.next_timer st in
  (exists cb, RelayClient.timers st' !! t = Some {| delay := 10000; callback := cb |})
  /\ promises (RelayClient.fire t st') !! p = Some (Rejected "Publish timeout").
Proof.
  intros Hc Hs Hfresh p st' t.
  destruct (publish_connected event st s Hc Hs Hfresh) as (_ & _ & Ht & Hunset).
  fold p st' t in Ht, Hunset.
  assert (Hlook : RelayClient.timers st' !! t
                  = Some {| delay := 10000;
                            callback := PublishTimeout (OnMessage (Nostr.id event) p t) p |}).
  { rewrite Ht. apply lookup_insert_eq. }
  split; [eexists; exact Hlook|].
  exact (publish_times_out _ p t st' Hlook Hunset).
Qed.

(** C7, where the code departs from it. On a link whose [connected] flag
    is still set although its socket is gone (as [disconnect()] leaves it
    until the socket's close event), [publish] does not reject at once and
    writes nothing: it only sets its 10-second timer; no message can reach
    it, and the promise is rejected with the timeout error when the timer
    comes due. *)
Theorem publish_with_socket_gone_waits_for_timeout (event : Nostr.Event)
    (st : RelayClient.State) :
  RelayClient.isConnected st = true ->
  ws st = None ->
  promises st !! next_promise st = None ->
  let p := (publish H event st).1 in
  let st' := (publish H event st).2 in
  let t := RelayClient.next_timer st in
  promises st' !! p = None
  /\ ws st' = None
  /\ RelayClient.timers st'
     = <[t := {| delay := 10000;
                 callback := PublishTimeout (OnMessage (Nostr.id event) p t) p |}]>
         (RelayClient.timers st)
  /\ (forall data, on_message H data st' = st')
  /\ promises (RelayClient.fire t st') !! p = Some (Rejected "Publish timeout").
Proof.
  intros Hc Hs Hfresh p st' t. unfold RelayClient.isConnected in Hc.
  assert (Hst : st' = RelayClient.setTimeout
                        (PublishTimeout (OnMessage (Nostr.id event) (next_promise st) t)
                           (next_promise st)) 10000
                        (set_promises (promises st) (S (next_promise st)) st)).
  { subst st' t. unfold publish. simpl_client. rewrite Hc. cbn [negb snd].
    unfold addEventListener, RelayClient.send. simpl_client.
    rewrite Hs. simpl_client. rewrite Hs. reflexivity. }
  assert (Hp : p = next_promise st).
  { subst p. unfold publish. simpl_client. rewrite Hc. reflexivity. }
  rewrite Hp, Hst. simpl_client.
  split; [exact Hfresh|]. split; [exact Hs|]. split; [reflexivity|]. split.
  - intros data. unfold on_message. simpl_client. rewrite Hs. reflexivity.
  - eapply publish_times_out; simpl_client; [apply lookup_insert_eq | exact Hfresh].
Qed.

End Publish.

(** * One relay link: subscriptions, reconnection, inbound events *)

Section Link.
Context (H : Host).
Import RelayClient.

Ltac simpl_link :=
  cbn [connected ws autoReconnect reconnectDelay reconnectTimer subscriptions
       RelayClient.timers RelayClient.next_timer promises RelayClient.next_promise emitted
       set_connected set_ws set_autoReconnect set_reconnectTimer set_subscriptions
       RelayClient.set_timers set_promises emit RelayClient.setTimeout
       RelayClient.clearTimeout sent listeners delay callback] in *.

(** The frame [["REQ", subId, filter]]. *)
Local Abbreviation req_frame :=
  (fun sub : string * json => JSON_stringify H (JArr [JStr "REQ"; JStr sub.1; sub.2])).

(** Requesting a list of subscriptions on a connected link with its socket
    writes one frame for each, in order, and changes nothing else. *)
Lemma send_subscriptions (subs : list (string * json)) (st : RelayClient.State)
    (s : WebSocket) :
  connected st = true ->
  ws st = Some s ->
  fold_left (fun st sub => RelayClient.send H [JStr "REQ"; JStr sub.1; sub.2] st) subs st
  = set_ws (Some {| sent := sent s ++ map req_frame subs; listeners := listeners s |}) st.
Proof.
  revert st s. induction subs as [|sub subs IH]; intros st s Hc Hs; cbn [fold_left map].
  - rewrite app_nil_r. destruct st, s. cbn in *. subst. reflexivity.
  - assert (Hsend : RelayClient.send H [JStr "REQ"; JStr sub.1; sub.2] st
                    = set_ws (Some {| sent := sent s ++ [req_frame sub];
                                      listeners := listeners s |}) st).
    { unfold RelayClient.send. rewrite Hs, Hc. reflexivity. }
    rewrite Hsend, (IH _ {| sent := sent s ++ [req_frame sub]; listeners := listeners s |});
      [|exact Hc|reflexivity].
    simpl_link. rewrite <- app_assoc. reflexivity.
Qed.

(** What a new connection that opens leaves. *)
Lemma open_spec (st : RelayClient.State) :
  on_open H (connect st)
  = set_ws (Some {| sent := map req_frame (subscriptions st); listeners := [HandleMessage] |})
      (emit EmitConnected (set_connected true st)).
Proof.
  unfold on_open, connect. simpl_link.
  rewrite (send_subscriptions (subscriptions st) _ {| sent := []; listeners := [HandleMessage] |});
    reflexivity.
Qed.

(** When a connection opens, the link requests every subscription it
    holds, once each, in the order they were made, on the new socket, and
    announces that it is connected. *)
Lemma open_requests_every_subscription (st : RelayClient.State) :
  let st' := on_open H (connect st) in
  connected st' = true
  /\ ws st' = Some {| sent := map req_frame (subscriptions st); listeners := [HandleMessage] |}
  /\ subscriptions st' = subscriptions st
  /\ emitted st' = emitted st ++ [EmitConnected].
Proof. cbv zeta. rewrite open_spec. simpl_link. auto. Qed.

(** X20. The subscriptions are a map from ids to filters. [subscribe] of a
    new id adds it at the end; [subscribe] of a known id replaces its
    filter where it stands; the ids stay distinct; and a link that is
    not connected writes nothing. *)
Theorem subscribe_keeps_a_map (subId : string) (filter : json) (st : RelayClient.State) :
  NoDup (subscriptions st).*1 ->
  let st' := subscribe H subId filter st in
  NoDup (subscriptions st').*1
  /\ (subId, filter) ∈ subscriptions st'
  /\ (forall k v, k <> subId -> (k, v) ∈ subscriptions st' <-> (k, v) ∈ subscriptions st)
  /\ (connected st = false -> ws st' = ws st).
Proof.
  intros Hnd st'.
  set (subs := if bool_decide (subId ∈ (subscriptions st).*1)
               then map (fun kv : string * json =>
                           if String.eqb kv.1 subId then (subId, filter) else kv)
                        (subscriptions st)
               else subscriptions st ++ [(subId, filter)]).
  assert (Hsubs : subscriptions st' = subs).
  { subst st'. unfold subscribe. fold subs. simpl_link.
    destruct (connected st); [|reflexivity].
    unfold RelayClient.send. simpl_link.
    destruct (ws st); [destruct (connected st)|]; reflexivity. }
  assert (Hws : connected st = false -> ws st' = ws st).
  { intros Hc. subst st'. unfold subscribe. simpl_link. rewrite Hc. reflexivity. }
  rewrite Hsubs. clear Hsubs. subst subs.
  destruct (bool_decide (subId ∈ (subscriptions st).*1)) eqn:Hin.
  - apply bool_decide_eq_true in Hin.
    assert (Hkeys : (map (fun kv : string * json =>
                            if String.eqb kv.1 subId then (subId, filter) else kv)
                         (subscriptions st)).*1 = (subscriptions st).*1).
    { clear. induction (subscriptions st) as [|[k v] l IH]; [reflexivity|].
      cbn. rewrite IH. destruct (String.eqb k subId) eqn:Hk; [|reflexivity].
      apply String.eqb_eq in Hk. subst. reflexivity. }
    split; [rewrite Hkeys; exact Hnd|]. split; [|split; [|exact Hws]].
    + apply list_elem_of_fmap in Hin. destruct Hin as ([k v] & Hk & Hin). cbn in Hk. subst k.
      apply list_elem_of_fmap. exists (subId, v). cbn. rewrite String.eqb_refl. auto.
    + intros k v Hk. rewrite list_elem_of_fmap. split.
      * intros ([k' v'] & Heq & Hin'). cbn in Heq.
        destruct (String.eqb k' subId) eqn:Hk'; [congruence|]. congruence.
      * intros Hin'. exists (k, v). cbn.
        apply String.eqb_neq in Hk. rewrite Hk. auto.
  - apply bool_decide_eq_false in Hin.
    split; [|split; [|split; [|exact Hws]]].
    + rewrite fmap_app. apply list.NoDup_app. split; [exact Hnd|]. split.
      * intros k Hk Hk'. cbn in Hk'. apply list_elem_of_singleton in Hk'. congruence.
      * cbn. apply NoDup_singleton.
    + apply elem_of_app. right. left.
    + intros k v Hk. rewrite elem_of_app, list_elem_of_singleton. split; [|auto].
      intros [Hin'|Heq]; [exact Hin'|congruence].
Qed.

(** X21. After [unsubscribe] the id is not held any more, and it is not
    requested again when a connection opens: the frames then written are
    those of the other subscriptions. A connected link is also sent the
    frame [["CLOSE", subId]], whether or not it held the id. *)
Theorem unsubscribed_is_not_requested_again (subId : string) (st : RelayClient.State) :
  let st' := unsubscribe H subId st in
  (subId ∉ (subscriptions st').*1)
  /\ ws (on_open H (connect st'))
     = Some {| sent := map req_frame
                         (filter (fun kv : string * json => kv.1 <> subId)
                                 (subscriptions st));
               listeners := [HandleMessage] |}
  /\ (forall s, connected st = true -> ws st = Some s ->
        ws st' = Some {| sent := sent s ++ [JSON_stringify H (JArr [JStr "CLOSE"; JStr subId])];
                         listeners := listeners s |}).
Proof.
  intros st'.
  assert (Hsubs : subscriptions st'
                  = filter (fun kv : string * json => kv.1 <> subId) (subscriptions st)).
  { subst st'. unfold unsubscribe. simpl_link.
    destruct (connected st); [|reflexivity].
    unfold RelayClient.send. simpl_link.
    destruct (ws st); [destruct (connected st)|]; reflexivity. }
  split; [|split].
  - rewrite Hsubs. intros Hin. apply list_elem_of_fmap in Hin.
    destruct Hin as ([k v] & Hk & Hin). apply list_elem_of_filter in Hin.
    cbn in *. destruct Hin as [Hne _]. congruence.
  - rewrite open_spec. simpl_link. rewrite Hsubs. reflexivity.
  - intros s Hc Hs. subst st'. unfold unsubscribe. simpl_link. rewrite Hc.
    unfold RelayClient.send. simpl_link. rewrite Hs, Hc. reflexivity.
Qed.

(** X22. A link told to [disconnect()] does not reconnect: the pending
    reconnection timer, if any, is cleared, and when the socket then
    reports the close the link is marked as not connected and sets no
    timer, so that no reconnection timer is left (the only reconnection
    timer of a link being the one it holds). *)
Theorem disconnect_stops_reconnection (st : RelayClient.State) :
  (forall t tm, RelayClient.timers st !! t = Some tm -> callback tm = Reconnect ->
                reconnectTimer st = Some t) ->
  let st' := on_close (disconnect st) in
  connected st' = false
  /\ ws st' = None
  /\ autoReconnect st' = false
  /\ reconnectTimer st' = None
  /\ (forall t tm, RelayClient.timers st' !! t = Some tm -> callback tm <> Reconnect)
  /\ (forall t tm, RelayClient.timers st' !! t = Some tm -> RelayClient.timers st !! t = Some tm).
Proof.
  intros Hinv st'. subst st'. unfold on_close, disconnect. simpl_link.
  destruct (reconnectTimer st) as [t0|] eqn:Hrt; simpl_link.
  - destruct (ws st) eqn:Hw; simpl_link; rewrite ?Hw;
      (split; [reflexivity|]); (split; [reflexivity|]); (split; [reflexivity|]);
      (split; [reflexivity|]); split; intros t tm Ht.
    all: destruct (decide (t = t0)) as [->|Hne];
      [rewrite lookup_delete_eq in Ht; discriminate|rewrite lookup_delete_ne in Ht by congruence].
    all: try exact Ht.
    all: intros Hcb; specialize (Hinv t tm Ht Hcb); congruence.
  - destruct (ws st) eqn:Hw; simpl_link; rewrite ?Hw, ?Hrt;
      (split; [reflexivity|]); (split; [reflexivity|]); (split; [reflexivity|]);
      (split; [reflexivity|]); split; intros t tm Ht; try exact Ht.
    all: intros Hcb; specialize (Hinv t tm Ht Hcb); congruence.
Qed.

(** X23. A link that loses its connection comes back with its
    subscriptions. When the socket reports the close, the link is marked
    as not connected and one reconnection timer is set, with the
    configured delay (a second close report sets no other); when the timer
    comes due a new socket is created; and when that socket opens, every
    subscription is requested again on it. *)
Theorem lost_connection_is_restored (st : RelayClient.State) :
  autoReconnect st = true ->
  reconnectTimer st = None ->
  let t := RelayClient.next_timer st in
  let st1 := on_close st in
  let st2 := on_open H (RelayClient.fire t st1) in
  connected st1 = false
  /\ reconnectTimer st1 = Some t
  /\ RelayClient.timers st1 = <[t := {| delay := reconnectDelay st; callback := Reconnect |}]>
                                (RelayClient.timers st)
  /\ RelayClient.timers (on_close st1) = RelayClient.timers st1
  /\ connected st2 = true
  /\ reconnectTimer st2 = None
  /\ RelayClient.timers st2 !! t = None
  /\ ws st2 = Some {| sent := map req_frame (subscriptions st); listeners := [HandleMessage] |}.
Proof.
  intros Ha Hr t st1 st2.
  assert (H1 : st1 = set_reconnectTimer (Some t)
                       (RelayClient.setTimeout Reconnect (reconnectDelay st)
                          (emit EmitDisconnected (set_connected false st)))).
  { subst st1 t. unfold on_close. simpl_link. rewrite Ha, Hr. reflexivity. }
  assert (H2 : RelayClient.fire t st1
               = connect (set_reconnectTimer None
                            (RelayClient.set_timers (delete t (RelayClient.timers st1))
                               (RelayClient.next_timer st1) st1))).
  { unfold RelayClient.fire. rewrite H1. simpl_link. subst t.
    rewrite lookup_insert_eq. reflexivity. }
  subst st2. rewrite H2, open_spec. rewrite H1. simpl_link.
  split; [reflexivity|]. split; [reflexivity|]. split; [reflexivity|].
  split; [unfold on_close; simpl_link; rewrite Ha; reflexivity|].
  split; [reflexivity|]. split; [reflexivity|]. split; [apply lookup_delete_eq|reflexivity].
Qed.

(** Running the message listeners of a socket on a frame
    [["EVENT", subId, event, ...]]: the listener of the link emits the
    event, the listeners of [publish] let it pass. *)
Lemma run_listeners_on_event (ls : list Listener) (data : string) (sub ev : json)
    (rest : list json) (st : RelayClient.State) :
  JSON_parse H data = Returned (JArr (JStr "EVENT" :: sub :: ev :: rest)) ->
  fold_left (fun st l => if registered l st then run_listener H l (Some data) st else st) ls st
  = fold_left (fun st l => if registered l st
                           then match l with
                                | HandleMessage => emit (EmitEvent (Some ev)) st
                                | OnMessage _ _ _ => st
                                end
                           else st) ls st.
Proof.
  intros Hparse. revert st. induction ls as [|l ls IH]; intros st; [reflexivity|].
  cbn [fold_left].
  assert (Hrun : run_listener H l (Some data) st
                 = match l with
                   | HandleMessage => emit (EmitEvent (Some ev)) st
                   | OnMessage _ _ _ => st
                   end).
  { destruct l as [|eventId p t]; cbn [run_listener].
    - unfold handleMessage. rewrite Hparse. reflexivity.
    - unfold RelayClient.onMessage, onMessage_matches. rewrite Hparse. reflexivity. }
  rewrite Hrun. apply IH.
Qed.

(** X24. An event frame that arrives on a connected link is announced
    once, whatever [publish] calls are waiting for their acknowledgement:
    the link emits the event, and neither a promise nor a timer nor the
    socket changes. *)
Theorem inbound_event_is_emitted_once (st : RelayClient.State) (s : WebSocket)
    (waiting : list Listener) (data : string) (sub ev : json) (rest : list json) :
  ws st = Some s ->
  listeners s = HandleMessage :: waiting ->
  HandleMessage ∉ waiting ->
  JSON_parse H data = Returned (JArr (JStr "EVENT" :: sub :: ev :: rest)) ->
  on_message H (Some data) st = emit (EmitEvent (Some ev)) st.
Proof.
  intros Hs Hl Hnot Hparse. unfold on_message. rewrite Hs, Hl.
  rewrite (run_listeners_on_event _ data sub ev rest st Hparse). cbn [fold_left].
  assert (Hreg : registered HandleMessage st = true).
  { unfold registered. rewrite Hs, Hl. apply bool_decide_eq_true. left. }
  rewrite Hreg. clear Hreg.
  generalize (emit (EmitEvent (Some ev)) st). clear Hs Hl.
  induction waiting as [|l ls IH]; intros st0; [reflexivity|].
  cbn [fold_left].
  assert (Hl : l <> HandleMessage).
  { intros ->. apply Hnot. left. }
  assert (Hls : HandleMessage ∉ ls).
  { intros Hin. apply Hnot. right. exact Hin. }
  destruct l as [|eventId p t]; [contradiction|].
  destruct (registered _ st0); apply (IH Hls).
Qed.

End Link.

(** * The identity store *)

Section IdentityStore.
Context (P : Primitives) (H : Host) (X : KeypairStore.Platform).
Import KeypairStore.

Ltac run_io :=
  unfold mbind, mret, IO_bind, IO_ret, on_disk, ask_disk, KeypairStore.raise in *;
  cbn [fst snd disk KeypairStore.world] in *.

Lemma subarray_last_32 (prefix raw : Buffer) :
  length raw = 32 ->
  subarray (prefix ++ raw) (Z.of_nat (length (prefix ++ raw)) - 32) None = raw.
Proof.
  intros Hr. unfold subarray, adjustOffset. rewrite length_app, Hr.
  destruct (Z.ltb_spec (Z.of_nat (length prefix + 32) - 32) 0) as [Hlt|Hge]; [lia|].
  replace (Z.to_nat (Z.of_nat (length prefix + 32) - 32)) with (length prefix) by lia.
  rewrite Nat.min_l by lia. rewrite drop_app_length. apply take_ge. lia.
Qed.

Lemma subarray_16_48 (raw : Buffer) :
  length raw = 32 ->
  subarray (pkcs8_prefix ++ raw) 16 (Some 48%Z) = raw.
Proof.
  intros Hr. unfold subarray, adjustOffset. rewrite length_app, Hr.
  vm_compute Nat.min. vm_compute Nat.sub. unfold pkcs8_prefix. cbn [app drop Z.ltb Z.compare].
  apply take_ge. lia.
Qed.

(** X25. [generateKeypair] returns a keypair fit for the codec: on a platform
    that writes Ed25519 keys in DER the way [makeEdPrivateKey] and
    [makeEdPublicKey] do, the private key it cuts out is the 32-byte seed,
    the public key is the 32-byte public key of that seed, and wrapping
    the two again gives back the DER keys Node generated. Nothing is
    written to the disk. *)
Theorem generated_keypair_is_valid (env : Env X) :
  der_layout P X ->
  public_key_32 P ->
  let w := KeypairStore.world env in
  let seed := map (entropy w) (seq (cursor w) 32) in
  exists kp env',
    generateKeypair X env = (Returned kp, env')
    /\ valid_keypair P kp
    /\ length (publicKey kp) = 32
    /\ privateKey kp = seed
    /\ makeEdPrivateKey_der (privateKey kp) = pkcs8_of_seed X seed
    /\ makeEdPublicKey_der (publicKey kp) = spki_of_seed X seed
    /\ disk env' = disk env
    /\ cursor (KeypairStore.world env') = cursor w + 32.
Proof.
  intros Hder Hpub w seed.
  assert (Hseed : length seed = 32) by apply random_length.
  destruct (Hder seed Hseed) as (Hspki & Hpkcs & ko1 & ko2 & Hi1 & Hi2 & He1 & He2).
  unfold generateKeypair. fold w. fold seed. rewrite Hi1, Hi2, He1, He2.
  eexists; eexists; split; [reflexivity|].
  cbn [publicKey privateKey disk KeypairStore.world cursor].
  rewrite Hspki, Hpkcs. unfold makeEdPublicKey_der, makeEdPrivateKey_der.
  rewrite (subarray_last_32 spki_prefix _ (Hpub seed Hseed)), (subarray_16_48 seed Hseed).
  unfold valid_keypair. cbn [publicKey privateKey]. auto 10.
Qed.

(** What [saveKeypair] does when it returns. *)
Lemma saveKeypair_returns (kp : Keypair) (path : string) (env env' : Env X) :
  saveKeypair X kp path env = (Returned tt, env') ->
  exists d1,
    writeFile X path (JSON_stringify_indented X (key_file kp)) 384 d1
    = (Returned tt, disk env')
    /\ KeypairStore.world env' = KeypairStore.world env
    /\ (d1 = disk env
        \/ exists r, mkdir_recursive X (dirname X path) (disk env) = (r, d1)).
Proof.
  unfold saveKeypair. run_io.
  destruct (existsSync X (dirname X path) (disk env)); cbn [negb]; run_io.
  - destruct (writeFile X path (JSON_stringify_indented X (key_file kp)) 384 (disk env))
      as [[[]|m] d2] eqn:Hw; cbn [fst snd]; [|discriminate].
    intros Heq. injection Heq as <-. exists (disk env). cbn. auto.
  - destruct (mkdir_recursive X (dirname X path) (disk env)) as [[[]|m] d1] eqn:Hm;
      cbn [fst snd]; [|discriminate].
    destruct (writeFile X path (JSON_stringify_indented X (key_file kp)) 384 d1)
      as [[[]|m] d2] eqn:Hw; cbn [fst snd]; [|discriminate].
    intros Heq. injection Heq as <-. exists d1. cbn. eauto.
Qed.

(** What [loadKeypair] returns on a file that holds a key file. *)
Lemma loadKeypair_reads (kp : Keypair) (path : string) (env : Env X) :
  indented_sound H X ->
  readFile X path (disk env)
  = (Returned (JSON_stringify_indented X (key_file kp)), disk env) ->
  loadKeypair H X path env = (Returned kp, env).
Proof.
  intros Hjson Hread. unfold loadKeypair. run_io. rewrite Hread. cbn [fst snd].
  rewrite (proj2 (Hjson _)). unfold key_file.
  cbn [get assoc String.eqb Ascii.eqb Bool.eqb Buffer_from_value_hex].
  rewrite !Buffer_from_hex_toString. destruct kp, env. reflexivity.
Qed.

Lemma saved_keypair_loads_back_aux (kp : Keypair) (path : string) (env env' : Env X) :
  indented_sound H X ->
  disk_sound X ->
  saveKeypair X kp path env = (Returned tt, env') ->
  loadKeypair H X path env' = (Returned kp, env').
Proof.
  intros Hjson (_ & Hwrite & _) Hsave.
  destruct (saveKeypair_returns kp path env env' Hsave) as (d1 & Hw & _).
  apply loadKeypair_reads; [exact Hjson|].
  apply (proj1 (Hwrite _ _ _ _ _ Hw)), (proj1 (Hjson _)).
Qed.

(** X26. A keypair that was saved loads back as it was: when [saveKeypair]
    returns, [loadKeypair] of the same path returns the same keypair,
    whatever the length of its keys, and leaves the disk as it is. *)
Theorem saved_keypair_loads_back (kp : Keypair) (path : string) (env env' : Env X) :
  indented_sound H X ->
  disk_sound X ->
  saveKeypair X kp path env = (Returned tt, env') ->
  loadKeypair H X path env' = (Returned kp, env').
Proof.
  intros Hjson Hdisk Hsave.
  exact (saved_keypair_loads_back_aux kp path env env' Hjson Hdisk Hsave).
Qed.

(** [loadKeypair] leaves the disk and the random source as they are. *)
Lemma loadKeypair_pure (path : string) (env env' : Env X) (r : outcome Keypair) :
  disk_sound X ->
  loadKeypair H X path env = (r, env') -> env' = env.
Proof.
  intros (Hread & _). unfold loadKeypair. run_io.
  destruct (readFile X path (disk env)) as [raw d1] eqn:Hr. cbn [fst snd].
  pose proof (Hread _ _ _ _ Hr) as ->.
  assert (Henv : {| disk := disk env; KeypairStore.world := KeypairStore.world env |} = env)
    by (destruct env; reflexivity).
  rewrite Henv.
  destruct raw as [raw|m]; [|intros Heq; injection Heq; auto].
  destruct (JSON_parse H raw) as [data|m]; [|intros Heq; injection Heq; auto].
  destruct (get (Some data) "publicKey") as [pk|m]; [|intros Heq; injection Heq; auto].
  destruct (Buffer_from_value_hex X pk) as [pkb|m]; [|intros Heq; injection Heq; auto].
  destruct (get (Some data) "privateKey") as [sk|m]; [|intros Heq; injection Heq; auto].
  destruct (Buffer_from_value_hex X sk) as [skb|m]; intros Heq; injection Heq; auto.
Qed.

(** X27. [loadOrGenerateKeypair] gives one identity for a path: once a call
    has returned a keypair, every later call on the same path returns that
    same keypair, and changes neither the disk nor the random source. *)
Theorem identity_is_stable (path : string) (env env' : Env X) (kp : Keypair) :
  indented_sound H X ->
  disk_sound X ->
  loadOrGenerateKeypair H X path env = (Returned kp, env') ->
  loadOrGenerateKeypair H X path env' = (Returned kp, env').
Proof.
  intros Hjson Hdisk Hfirst. pose proof Hdisk as (_ & Hwrite & _).
  revert Hfirst. unfold loadOrGenerateKeypair. run_io.
  destruct (existsSync X path (disk env)) eqn:Hex.
  - intros Hload. pose proof (loadKeypair_pure path env env' _ Hdisk Hload) as ->.
    rewrite Hex. exact Hload.
  - destruct (generateKeypair X env) as [[kp0|m] env1] eqn:Hgen; [|discriminate].
    destruct (saveKeypair X kp0 path env1) as [[[]|m] env2] eqn:Hsave; [|discriminate].
    intros Heq. injection Heq as <- <-.
    destruct (saveKeypair_returns kp0 path env1 env2 Hsave) as (d1 & Hw & _).
    destruct (Hwrite _ _ _ _ _ Hw) as (_ & ->).
    apply (saved_keypair_loads_back_aux kp0 path env1 env2 Hjson Hdisk Hsave).
Qed.

(** [generateKeypair] does not touch the disk. *)
Lemma generateKeypair_disk (env env' : Env X) (r : outcome Keypair) :
  generateKeypair X env = (r, env') -> disk env' = disk env.
Proof.
  unfold generateKeypair.
  match goal with
  | |- (match ?keys with _ => _ end) = _ -> _ => destruct keys as [[pubKeyRaw privKeyRaw]|m]
  end; intros Heq; injection Heq as <- <-; reflexivity.
Qed.

(** X28. A key file that exists is taken as it is. On a path that exists,
    [loadOrGenerateKeypair] generates nothing and writes nothing, whether
    it returns or throws: the disk and the random source are as before.
    And it checks nothing: when the file parses to an object whose
    [publicKey] and [privateKey] are strings, the call returns the bytes
    their leading hex digits spell, of whatever length. *)
Theorem existing_key_file_is_taken_as_it_is (path : string) (env env' : Env X)
    (r : outcome Keypair) :
  disk_sound X ->
  existsSync X path (disk env) = true ->
  loadOrGenerateKeypair H X path env = (r, env') ->
  env' = env
  /\ forall raw data publicKeyText privateKeyText,
       readFile X path (disk env) = (Returned raw, disk env) ->
       JSON_parse H raw = Returned data ->
       get_opt (Some data) "publicKey" = Some (JStr publicKeyText) ->
       get_opt (Some data) "privateKey" = Some (JStr privateKeyText) ->
       r = Returned {| publicKey := Buffer_from_hex publicKeyText;
                       privateKey := Buffer_from_hex privateKeyText |}.
Proof.
  intros Hdisk Hex. unfold loadOrGenerateKeypair. run_io. rewrite Hex. intros Hload.
  split; [exact (loadKeypair_pure path env env' r Hdisk Hload)|].
  intros raw data pk sk Hread Hparse Hpk Hsk. revert Hload.
  unfold loadKeypair. run_io. rewrite Hread. cbn [fst snd]. rewrite Hparse.
  destruct data as [| b | n | s | items | fields]; try discriminate Hpk.
  cbn [get get_opt] in *. rewrite Hpk, Hsk. cbn [Buffer_from_value_hex].
  intros Heq. injection Heq as <- _. reflexivity.
Qed.

Lemma no_bits_outside_0o600 (bits : Z) :
  Z.land bits (Z.lnot 384) = 0%Z -> Z.land bits 63 = 0%Z.
Proof.
  intros Hb.
  change 63%Z with (Z.land (Z.lnot 384) 63). rewrite Z.land_assoc, Hb. reflexivity.
Qed.

(** X29. The key file [loadOrGenerateKeypair] creates is private: when the
    path did not exist and the call returns, the file has no permission
    bit for the group or for others ([0o077]), whatever the umask. *)
Theorem generated_key_file_is_private (path : string) (env env' : Env X) (kp : Keypair) :
  disk_sound X ->
  existsSync X path (disk env) = false ->
  loadOrGenerateKeypair H X path env = (Returned kp, env') ->
  exists bits, mode_of X path (disk env') = Some bits /\ Z.land bits 63 = 0%Z.
Proof.
  intros (_ & _ & Hmkdir & Hmode) Hex. unfold loadOrGenerateKeypair. run_io. rewrite Hex.
  destruct (generateKeypair X env) as [[kp0|m] env1] eqn:Hgen; [|discriminate].
  destruct (saveKeypair X kp0 path env1) as [[[]|m] env2] eqn:Hsave; [|discriminate].
  intros Heq. injection Heq as <- <-.
  pose proof (generateKeypair_disk env env1 _ Hgen) as Hd.
  destruct (saveKeypair_returns kp0 path env1 env2 Hsave) as (d1 & Hw & _ & Hd1).
  assert (Hfresh : existsSync X path d1 = false).
  { destruct Hd1 as [->|[r Hm]].
    - rewrite Hd. exact Hex.
    - rewrite (Hmkdir _ _ _ _ Hm), Hd. exact Hex. }
  destruct (Hmode _ _ _ _ _ Hw Hfresh) as (bits & Hbits & Hland).
  exists bits. split; [exact Hbits|]. apply no_bits_outside_0o600. exact Hland.
Qed.

(** A call is its two halves, one after the other. *)
Lemma loadOrGenerateKeypair_halves (path : string) (env : Env X) :
  loadOrGenerateKeypair H X path env
  = (progress ← loadOrGenerateKeypair_begin H X path;
     loadOrGenerateKeypair_resume X path progress) env.
Proof.
  unfold loadOrGenerateKeypair, loadOrGenerateKeypair_begin, loadOrGenerateKeypair_resume,
    saveKeypair. run_io.
  destruct (existsSync X path (disk env)).
  - destruct (loadKeypair H X path env) as [[kp|m] env1]; reflexivity.
  - destruct (generateKeypair X env) as [[kp|m] env1]; [|reflexivity].
    cbn [fst snd]. destruct (existsSync X (dirname X path) (disk env1)); cbn [negb].
    + destruct (writeFile X path (JSON_stringify_indented X (key_file kp)) 384 (disk env1))
        as [[[]|m] d2]; reflexivity.
    + destruct (mkdir_recursive X (dirname X path) (disk env1)) as [[[]|m] d1];
        cbn [fst snd disk]; [|reflexivity].
      destruct (writeFile X path (JSON_stringify_indented X (key_file kp)) 384 d1)
        as [[[]|m] d2]; reflexivity.
Qed.

(** X30. Two calls of [loadOrGenerateKeypair] that overlap on a path that
    does not exist give two identities. When the second call begins after
    the first has generated its key and before the file is there, each
    call generates a key of its own from the random bytes it draws and
    returns it; if the two draws differ the keypairs returned differ, and
    the file ends up holding the key of the call that wrote last. *)
Theorem overlapping_calls_give_two_identities (path : string) (env : Env X) :
  der_layout P X ->
  indented_sound H X ->
  disk_sound X ->
  existsSync X path (disk env) = false ->
  let w := KeypairStore.world env in
  let seed1 := map (entropy w) (seq (cursor w) 32) in
  let seed2 := map (entropy w) (seq (cursor w + 32) 32) in
  seed1 <> seed2 ->
  forall p1 env1 p2 env2 kp2 env3 kp1 env4,
    loadOrGenerateKeypair_begin H X path env = (Returned p1, env1) ->
    loadOrGenerateKeypair_begin H X path env1 = (Returned p2, env2) ->
    loadOrGenerateKeypair_resume X path p2 env2 = (Returned kp2, env3) ->
    loadOrGenerateKeypair_resume X path p1 env3 = (Returned kp1, env4) ->
    privateKey kp1 = seed1
    /\ privateKey kp2 = seed2
    /\ kp1 <> kp2
    /\ loadKeypair H X path env4 = (Returned kp1, env4).
Proof.
  intros Hder Hjson Hdisk Hex w seed1 seed2 Hdiff p1 env1 p2 env2 kp2 env3 kp1 env4.
  pose proof Hdisk as (_ & Hwrite & _).
  assert (Hbegin : forall e p e', existsSync X path (disk e) = false ->
            loadOrGenerateKeypair_begin H X path e = (Returned p, e') ->
            disk e' = disk e
            /\ cursor (KeypairStore.world e') = cursor (KeypairStore.world e) + 32
            /\ entropy (KeypairStore.world e') = entropy (KeypairStore.world e)
            /\ exists kp b, p = Saving kp b
                 /\ privateKey kp
                    = map (entropy (KeypairStore.world e))
                          (seq (cursor (KeypairStore.world e)) 32)).
  { intros e p e' Hfresh. unfold loadOrGenerateKeypair_begin. run_io. rewrite Hfresh.
    unfold generateKeypair.
    set (seed := map (entropy (KeypairStore.world e)) (seq (cursor (KeypairStore.world e)) 32)).
    assert (Hseed : length seed = 32) by apply random_length.
    destruct (Hder seed Hseed) as (Hspki & Hpkcs & ko1 & ko2 & Hi1 & Hi2 & He1 & He2).
    rewrite Hi1, Hi2, He1, He2. cbn [fst snd disk KeypairStore.world].
    intros Heq. injection Heq as <- <-. cbn [disk KeypairStore.world cursor entropy].
    split; [reflexivity|]. split; [reflexivity|]. split; [reflexivity|].
    eexists; eexists; split; [reflexivity|]. cbn [privateKey].
    rewrite Hpkcs. apply (subarray_16_48 seed Hseed). }
  intros H1 H2 H3 H4.
  destruct (Hbegin env p1 env1 Hex H1) as (Hd1 & Hc1 & He1 & kpa & ba & -> & Hka).
  assert (Hex1 : existsSync X path (disk env1) = false) by (rewrite Hd1; exact Hex).
  destruct (Hbegin env1 p2 env2 Hex1 H2) as (_ & _ & _ & kpb & bb & -> & Hkb).
  rewrite Hc1, He1 in Hkb. fold w in Hka, Hkb. fold seed1 in Hka. fold seed2 in Hkb.
  assert (Hresume : forall kp b e k e',
            loadOrGenerateKeypair_resume X path (Saving kp b) e = (Returned k, e') ->
            k = kp /\ loadKeypair H X path e' = (Returned kp, e')).
  { intros kp b e k e'. unfold loadOrGenerateKeypair_resume. run_io.
    destruct (if negb b then _ else _) as [[[]|m] e1]; [|discriminate].
    destruct (writeFile X path (JSON_stringify_indented X (key_file kp)) 384 (disk e1))
      as [[[]|m] d2] eqn:Hw; cbn [fst snd]; [|discriminate].
    intros Heq. injection Heq as <- <-. split; [reflexivity|].
    apply loadKeypair_reads; [exact Hjson|].
    apply (proj1 (Hwrite _ _ _ _ _ Hw)), (proj1 (Hjson _)). }
  destruct (Hresume _ _ _ _ _ H3) as (-> & _).
  destruct (Hresume _ _ _ _ _ H4) as (-> & Hload).
  split; [exact Hka|]. split; [exact Hkb|]. split; [|exact Hload].
  intros Heq. apply Hdiff. rewrite <- Hka, <- Hkb, Heq. reflexivity.
Qed.

End IdentityStore.

(** * The theorems at concrete transports *)

Lemma toy_codec_sound : codec_sound ToyNet.codec (valid_keypair Toy.primitives).
Proof.
  apply sealed_codec_sound;
    [apply toy_base64_sound | apply toy_sha256_sound | apply toy_ed25519_sound
    | apply toy_aead_sound].
Qed.

(** The envelope of a plaintext survives the JSON conversion and decrypts,
    with the recipient's keypair, to the plaintext. *)
Lemma toy_envelope_for (plaintext : string) (A B : Keypair) :
  well_formed plaintext ->
  valid_keypair Toy.primitives A ->
  let env := ToyNet.envelope_for plaintext A (publicKey B) in
  envelope_of_json ToyNet.codec (envelope_to_json ToyNet.codec env) = Some env
  /\ forall w, exists w',
       decryptMessage ToyNet.codec env B w = (Returned (Success plaintext), w').
Proof.
  intros Hwf HA env. subst env. unfold ToyNet.envelope_for.
  destruct (toy_codec_sound plaintext A (publicKey B) Toy.world Hwf HA)
    as (env & w' & Henc & Hj & Hd).
  rewrite Henc. cbn [fst]. split; [exact Hj|].
  intros w. apply Hd. reflexivity.
Qed.

(** The content of an event that carries a payload parses to the envelope
    of the payload. *)
Lemma toy_event_carrying (payload : json) (A B : Keypair) :
  JSON_parse ToyHost.host (Nostr.content (ToyNet.event_carrying payload A B))
  = Returned (envelope_to_json ToyNet.codec
                (ToyNet.envelope_for (JSON_stringify ToyHost.host payload) A (publicKey B))).
Proof. apply toy_json_sound. Qed.

(** What Alice's [send] of [ping] encrypts and wraps, in the state [st] of
    a node of hers. *)
Lemma toy_send_facts (st : State) :
  keypair (config st) = Toy.alice ->
  world st = Toy.world ->
  exists env w' event,
    encryptMessage ToyNet.codec (send_plaintext ToyHost.host ToyNet.ping st)
      (keypair (config st)) (hexToPublicKey (recipientPubKey ToyNet.ping)) (world st)
    = (Returned env, w')
    /\ send_event Toy.primitives ToyHost.host ToyNet.codec ToyNet.ping st env = Returned event
    /\ send_event Toy.primitives ToyHost.unconfigured ToyNet.codec ToyNet.ping st env
       = Thrown "hashes.sha256 not set".
Proof.
  intros Hk Hw.
  destruct (toy_codec_sound (send_plaintext ToyHost.host ToyNet.ping st)
              (keypair (config st)) (hexToPublicKey (recipientPubKey ToyNet.ping)) (world st)
              (toy_stringify_well_formed _) ltac:(rewrite Hk; exact toy_alice_valid))
    as (env & w' & Henc & _).
  destruct (createNostrEvent_signs Toy.primitives ToyHost.host (keypair (config st)) 4
              (JSON_stringify ToyHost.host (envelope_to_json ToyNet.codec env))
              (recipient_tags (recipientPubKey ToyNet.ping)) (now st)
              (toy_signs_events _)) as (event & Hev & _).
  exists env, w', event. split; [exact Henc|]. split; [exact Hev|]. reflexivity.
Qed.

(** [encryptMessage] of [src/relay/encryption.ts] over the model of the
    primitives, where every key is accepted: it throws what
    [createSign(null)] throws. *)
Lemma toy_ecdh_encrypt_throws (plaintext : string) (A : Keypair) (pubB : Buffer) (w : World) :
  exists w',
    Ecdh.encryptMessage Toy.primitives plaintext A pubB w = (Thrown invalid_algorithm, w').
Proof.
  unfold Ecdh.encryptMessage, Ecdh.deriveSharedSecret, Ecdh.ed25519PrivateToX25519,
    Ecdh.ed25519PublicToX25519, Ecdh.cipher, Ecdh.sign, createSign.
  run_eff.
  cbn [createPrivateKey createPublicKey diffieHellman chacha20poly1305_encrypt
       Toy.primitives Toy.agree fst snd].
  run_eff. unfold Toy.seal.
  rewrite bool_decide_eq_true_2.
  - cbn [fst snd]. eexists. reflexivity.
  - split.
    + unfold subarray, adjustOffset, Toy.hash. cbn [Z.ltb Z.compare Z.to_nat].
      rewrite !length_take, !length_drop, !length_take, !length_app, repeat_length.
      change (Pos.to_nat 32) with 32. lia.
    + unfold subarray, adjustOffset. cbn [Z.ltb Z.compare Z.to_nat].
      rewrite !length_take, !length_drop, random_length.
      change (Pos.to_nat 12) with 12. lia.
Qed.

(** C3 at Alice waiting for the response to [msg-1]. *)
Lemma response_resolves_at_most_once_witness :
  let st1 := (handleResponse ToyHost.host ToyNet.a_response ToyNet.alice_waiting).2 in
  pendingRequests st1 = delete "msg-1" (pendingRequests ToyNet.alice_waiting)
  /\ (forall r2, get (Some r2) "id" = Returned (Some (JStr "msg-1")) ->
                 handleResponse ToyHost.host r2 st1 = (Returned tt, st1))
  /\ RelayTransport.fire 0 st1 = st1.
Proof.
  destruct (response_resolves_at_most_once ToyHost.host ToyNet.alice_waiting
              ToyNet.a_response "msg-1" {| resolve := 0; timeout := 0 |}
              eq_refl eq_refl) as (Hp & _ & _ & Hr & Hf).
  exact (conj Hp (conj Hr Hf)).
Defined.

(** C5, against the claim as stated. Alice has no connected link. Over
    the codec of [src/relay/encryption.ts], [send] resolves with the error of
    [createSign(null)]; over the codec of [src/unnamed/part_003] and a
    library that is not configured, with the error of [schnorr.sign]:
    neither is the no-connected-relays failure. Over the codec of
    [src/unnamed/part_003] and a library that signs, [send] registers a
    pending request all the same (and deletes it before it returns). *)
Lemma send_without_links_reports_another_failure :
  let st := ToyNet.alice_offline in
  let r1 := send Toy.primitives ToyHost.host (ecdh_codec Toy.primitives) ToyNet.ping 30000 st in
  let r2 := send Toy.primitives ToyHost.unconfigured ToyNet.codec ToyNet.ping 30000 st in
  let r3 := send Toy.primitives ToyHost.host ToyNet.codec ToyNet.ping 30000 st in
  any_connected st = false
  /\ journal st = []
  /\ settled r1.2 !! r1.1 = Some (failure invalid_algorithm)
  /\ settled r2.2 !! r2.1 = Some (failure "hashes.sha256 not set")
  /\ failure invalid_algorithm <> failure "No connected relays"
  /\ failure "hashes.sha256 not set" <> failure "No connected relays"
  /\ PendingSet (send_id st) ∈ journal r3.2.
Proof.
  cbv zeta. split; [reflexivity|]. split; [reflexivity|].
  destruct (toy_send_facts ToyNet.alice_offline eq_refl eq_refl)
    as (env & w' & event & Henc & Hev & Hthrows).
  split; [|split; [|split; [discriminate|split; [discriminate|]]]].
  - destruct (toy_ecdh_encrypt_throws
                (send_plaintext ToyHost.host ToyNet.ping ToyNet.alice_offline)
                (keypair (config ToyNet.alice_offline))
                (hexToPublicKey (recipientPubKey ToyNet.ping))
                (world ToyNet.alice_offline)) as (w1 & Hw1).
    rewrite (send_throws Toy.primitives ToyHost.host (ecdh_codec Toy.primitives)
               ToyNet.ping 30000 ToyNet.alice_offline invalid_algorithm w1 Hw1).
    cbn [fst snd].
    exact (proj1 (send_failed_state ToyNet.alice_offline w1 invalid_algorithm eq_refl)).
  - rewrite (send_event_throws Toy.primitives ToyHost.unconfigured ToyNet.codec
               ToyNet.ping 30000 ToyNet.alice_offline env w' "hashes.sha256 not set"
               Henc Hthrows).
    cbn [fst snd].
    exact (proj1 (send_failed_state ToyNet.alice_offline w' "hashes.sha256 not set" eq_refl)).
  - rewrite (send_run Toy.primitives ToyHost.host ToyNet.codec ToyNet.ping 30000
               ToyNet.alice_offline env w' event Henc Hev).
    cbn [snd]. replace (any_connected ToyNet.alice_offline) with false by reflexivity.
    unfold send_rollback, settle. simpl_state.
    destruct (settled _ !! _); simpl_state;
      rewrite !elem_of_app; left; left; right; left.
Qed.

Lemma send_without_links_fails_within_the_call_witness :
  let st := ToyNet.alice_offline in
  let r := send Toy.primitives ToyHost.host ToyNet.codec ToyNet.ping 30000 st in
  settled r.2 !! r.1 = Some (failure "No connected relays")
  /\ pendingRequests r.2 = pendingRequests st
  /\ clients r.2 = clients st.
Proof.
  cbv zeta.
  destruct (toy_send_facts ToyNet.alice_offline eq_refl eq_refl)
    as (env & w' & event & Henc & Hev & _).
  destruct (send_without_links_fails_within_the_call Toy.primitives ToyHost.host ToyNet.codec
              ToyNet.ping 30000 ToyNet.alice_offline eq_refl eq_refl eq_refl)
    as (Hc & Hp & Hm).
  rewrite Henc, Hev in Hm. destruct Hm as (Hs & _).
  exact (conj Hs (conj Hp Hc)).
Defined.

(** What Bob makes of Alice's request event. *)
Lemma toy_request_event_facts :
  let env := ToyNet.envelope_for (JSON_stringify ToyHost.host ToyNet.request) Toy.alice
               (publicKey Toy.bob) in
  JSON_parse ToyHost.host (Nostr.content ToyNet.request_event)
  = Returned (envelope_to_json ToyNet.codec env)
  /\ envelope_of_json ToyNet.codec (envelope_to_json ToyNet.codec env) = Some env
  /\ (forall w, exists w',
        decryptMessage ToyNet.codec env Toy.bob w
        = (Returned (Success (JSON_stringify ToyHost.host ToyNet.request)), w'))
  /\ JSON_parse ToyHost.host (JSON_stringify ToyHost.host ToyNet.request)
     = Returned ToyNet.request
  /\ incoming_of ToyNet.request
       (default "" (string_field "senderPubKey" (envelope_to_json ToyNet.codec env)))
     = Returned (Some ToyNet.call).
Proof.
  cbv zeta.
  destruct (toy_envelope_for (JSON_stringify ToyHost.host ToyNet.request) Toy.alice Toy.bob
              (toy_stringify_well_formed _) toy_alice_valid) as (Hj & Hd).
  split; [apply toy_event_carrying|]. split; [exact Hj|]. split; [exact Hd|].
  split; [apply toy_json_sound|]. reflexivity.
Qed.

(** The handler is invoked at each delivery of Alice's request event,
    whether or not the library signs the response. *)
Lemma toy_duplicate_request (H : Host) :
  JSON_parse H = JSON_parse ToyHost.host ->
  let handleEvent := handleEvent Toy.primitives H ToyNet.codec in
  handled (handleEvent ToyNet.request_event
             (handleEvent ToyNet.request_event ToyNet.bob_answers))
  = [ToyNet.call; ToyNet.call].
Proof.
  intros Hparser. cbv zeta.
  destruct toy_request_event_facts as (Hparse & Henv & Hdec & Hjson & Hin).
  rewrite <- Hparser in Hparse, Hjson.
  set (st1 := handleEvent Toy.primitives H ToyNet.codec ToyNet.request_event
                ToyNet.bob_answers).
  assert (Hcfg : config st1 = config ToyNet.bob_answers) by apply handleEvent_config.
  destruct (Hdec (world ToyNet.bob_answers)) as (w1 & Hd1).
  destruct (Hdec (world st1)) as (w2 & Hd2).
  assert (Hd2' : decryptMessage ToyNet.codec
                   (ToyNet.envelope_for (JSON_stringify ToyHost.host ToyNet.request)
                      Toy.alice (publicKey Toy.bob))
                   (keypair (config st1)) (world st1)
                 = (Returned (Success (JSON_stringify ToyHost.host ToyNet.request)), w2)).
  { rewrite Hcfg. exact Hd2. }
  assert (H1 : handled st1 = [ToyNet.call]).
  { apply (request_event_invokes_handler Toy.primitives H ToyNet.codec
             ToyNet.request_event ToyNet.bob_answers _ _ _ w1 ToyNet.request ToyNet.call
             Hparse Henv Hd1 Hjson eq_refl eq_refl Hin). }
  rewrite (request_event_invokes_handler Toy.primitives H ToyNet.codec
             ToyNet.request_event st1 _ _ _ w2 ToyNet.request ToyNet.call
             Hparse Henv Hd2' Hjson eq_refl eq_refl Hin).
  rewrite H1. reflexivity.
Qed.

(** C4, against the claim as stated: Bob is delivered Alice's request
    event twice, and his handler is invoked twice, with a library that
    signs his responses and with one that does not. *)
Lemma duplicate_request_is_handled_twice :
  handled ToyNet.bob_answers = []
  /\ handled (handleEvent Toy.primitives ToyHost.host ToyNet.codec ToyNet.request_event
                (handleEvent Toy.primitives ToyHost.host ToyNet.codec ToyNet.request_event
                   ToyNet.bob_answers))
     = [ToyNet.call; ToyNet.call]
  /\ handled (handleEvent Toy.primitives ToyHost.unconfigured ToyNet.codec
                ToyNet.request_event
                (handleEvent Toy.primitives ToyHost.unconfigured ToyNet.codec
                   ToyNet.request_event ToyNet.bob_answers))
     = [ToyNet.call; ToyNet.call].
Proof.
  split; [reflexivity|]. split.
  - exact (toy_duplicate_request ToyHost.host eq_refl).
  - exact (toy_duplicate_request ToyHost.unconfigured eq_refl).
Qed.

Lemma duplicate_delivery_is_stopped_for_responses_only_witness :
  let handleEvent := handleEvent Toy.primitives ToyHost.host ToyNet.codec in
  handled (handleEvent ToyNet.request_event
             (handleEvent ToyNet.request_event ToyNet.bob_answers))
  = [ToyNet.call; ToyNet.call].
Proof.
  cbv zeta. destruct toy_request_event_facts as (Hparse & Henv & Hdec & Hjson & Hin).
  destruct (duplicate_delivery_is_stopped_for_responses_only Toy.primitives ToyHost.host
              ToyNet.codec (valid_keypair Toy.primitives) ToyNet.request_event
              ToyNet.bob_answers _ _ _ ToyNet.request Hparse Henv Hdec Hjson)
    as (_ & Hrequests).
  destruct (Hrequests eq_refl eq_refl ToyNet.call Hin) as (_ & H2 & _).
  exact H2.
Defined.

(** What Bob's fallback acknowledgement of Alice's request is wrapped in. *)
Lemma toy_fallback_facts :
  exists env w',
    encryptMessage ToyNet.codec
      (reply_plaintext ToyHost.host ToyNet.request ToyNet.bob_fails ToyNet.call.1
         ToyNet.call.2)
      (keypair (config ToyNet.bob_fails)) (hexToPublicKey ToyNet.alice_hex)
      (world ToyNet.bob_fails) = (Returned env, w')
    /\ (exists event,
          reply_event Toy.primitives ToyHost.host ToyNet.codec ToyNet.alice_hex
            ToyNet.bob_fails env = Returned event)
    /\ reply_event Toy.primitives ToyHost.unconfigured ToyNet.codec ToyNet.alice_hex
         ToyNet.bob_fails env = Thrown "hashes.sha256 not set".
Proof.
  destruct (toy_codec_sound
              (reply_plaintext ToyHost.host ToyNet.request ToyNet.bob_fails ToyNet.call.1
                 ToyNet.call.2)
              (keypair (config ToyNet.bob_fails)) (hexToPublicKey ToyNet.alice_hex)
              (world ToyNet.bob_fails) (toy_stringify_well_formed _) toy_bob_valid)
    as (env & w' & Henc & _).
  exists env, w'. split; [exact Henc|]. split; [|reflexivity].
  destruct (createNostrEvent_signs Toy.primitives ToyHost.host
              (keypair (config ToyNet.bob_fails)) 4
              (JSON_stringify ToyHost.host (envelope_to_json ToyNet.codec env))
              (recipient_tags ToyNet.alice_hex) (now ToyNet.bob_fails)
              (toy_signs_events _)) as (event & Hev & _).
  exists event. exact Hev.
Qed.

(** C8, against the claim as stated: Bob's handler throws on Alice's
    request and the library Bob signs with is not configured, as in the
    repository. The handler's error is logged, the creation of the wire
    event throws, and nothing is handed to Bob's link: no acknowledgement is
    published. *)
Lemma fallback_is_lost_when_event_creation_throws :
  let r := handleIncomingMessage Toy.primitives ToyHost.unconfigured ToyNet.codec
             ToyNet.request ToyNet.alice_hex ToyNet.bob_fails in
  onMessage (config ToyNet.bob_fails) ToyNet.call.1 ToyNet.call.2 = HandlerThrows "boom"
  /\ handled r.2 = [ToyNet.call]
  /\ logged r.2 = [(Error, "Handler error: boom")]
  /\ r.1 = Thrown "hashes.sha256 not set"
  /\ clients ToyNet.bob_fails = [ToyNet.up]
  /\ clients r.2 = [ToyNet.up].
Proof.
  cbv zeta. split; [reflexivity|].
  destruct toy_fallback_facts as (env & w' & Henc & _ & Hthrows).
  destruct (handleIncomingMessage_unsigned Toy.primitives ToyHost.unconfigured ToyNet.codec
              ToyNet.request ToyNet.alice_hex ToyNet.bob_fails ToyNet.call.1 ToyNet.call.2
              env w' "hashes.sha256 not set" eq_refl Henc Hthrows)
    as (Hr & Hh & Hc & Hl & _).
  split; [exact Hh|]. split; [exact Hl|]. split; [exact Hr|]. split; [reflexivity|exact Hc].
Qed.

(** C8 at Bob, whose handler throws and whose library signs, and Alice
    waiting for the response to [msg-1]. *)
Lemma handler_error_fallback_needs_the_event_witness :
  exists event,
    clients (handleIncomingMessage Toy.primitives ToyHost.host ToyNet.codec
               ToyNet.request ToyNet.alice_hex ToyNet.bob_fails).2
    = [{| isConnected := true; published := [event] |}]
    /\ settled (handleEvent Toy.primitives ToyHost.host ToyNet.codec event
                  ToyNet.alice_waiting) !! 0
       = Some {| success := true; taskId := Some (JStr (task_id ToyNet.bob_fails));
                 response := Some (JStr fallback_text); error := None |}.
Proof.
  destruct (handler_error_fallback_needs_the_event Toy.primitives ToyHost.host ToyNet.codec
              (valid_keypair Toy.primitives) ToyNet.bob_fails ToyNet.alice_waiting
              ToyNet.request ToyNet.alice_hex "msg-1" ToyNet.call.1 ToyNet.call.2 "boom"
              {| resolve := 0; timeout := 0 |}
              toy_json_sound toy_stringify_well_formed toy_codec_sound toy_bob_valid
              eq_refl eq_refl eq_refl
              (hexToPublicKey_publicKeyToHex (publicKey Toy.alice)) eq_refl eq_refl)
    as (_ & _ & env & w' & _ & Hm).
  destruct (createNostrEvent_signs Toy.primitives ToyHost.host
              (keypair (config ToyNet.bob_fails)) 4
              (JSON_stringify ToyHost.host (envelope_to_json ToyNet.codec env))
              (recipient_tags ToyNet.alice_hex) (now ToyNet.bob_fails)
              (toy_signs_events _)) as (event & Hev & _).
  unfold reply_event in Hm. rewrite Hev in Hm. destruct Hm as (Hc & _ & Hs & _).
  exists event. split; [exact Hc | exact Hs].
Defined.

(** What Alice makes of the event that carries a response. *)
Lemma toy_response_event_facts :
  let env := ToyNet.envelope_for (JSON_stringify ToyHost.host ToyNet.a_response) Toy.bob
               (publicKey Toy.alice) in
  JSON_parse ToyHost.host (Nostr.content ToyNet.response_event)
  = Returned (envelope_to_json ToyNet.codec env)
  /\ envelope_of_json ToyNet.codec (envelope_to_json ToyNet.codec env) = Some env
  /\ (forall w, exists w',
        decryptMessage ToyNet.codec env Toy.alice w
        = (Returned (Success (JSON_stringify ToyHost.host ToyNet.a_response)), w'))
  /\ JSON_parse ToyHost.host (JSON_stringify ToyHost.host ToyNet.a_response)
     = Returned ToyNet.a_response.
Proof.
  cbv zeta.
  destruct (toy_envelope_for (JSON_stringify ToyHost.host ToyNet.a_response) Toy.bob Toy.alice
              (toy_stringify_well_formed _) toy_bob_valid) as (Hj & Hd).
  split; [apply toy_event_carrying|]. split; [exact Hj|]. split; [exact Hd|].
  apply toy_json_sound.
Qed.

(** C9 at Alice waiting for the response to [msg-1]. *)
Lemma response_payload_never_reaches_handler_witness :
  handled (handleEvent Toy.primitives ToyHost.host ToyNet.codec ToyNet.response_event
             ToyNet.alice_waiting) = [].
Proof.
  destruct toy_response_event_facts as (Hparse & Henv & Hdec & Hjson).
  destruct (Hdec (world ToyNet.alice_waiting)) as (w' & Hd).
  destruct (response_payload_never_reaches_handler Toy.primitives ToyHost.host ToyNet.codec
              ToyNet.response_event ToyNet.alice_waiting _ _ _ w' ToyNet.a_response
              Hparse Henv Hd Hjson eq_refl) as (Hh & _).
  exact Hh.
Defined.

(** C10 at Bob, delivered a request without a message. *)
Lemma request_without_text_is_dropped_witness :
  let st' := handleEvent Toy.primitives ToyHost.host ToyNet.codec ToyNet.empty_request_event
               ToyNet.bob_answers in
  handled st' = [] /\ clients st' = [ToyNet.up].
Proof.
  cbv zeta.
  destruct (toy_envelope_for (JSON_stringify ToyHost.host ToyNet.empty_request)
              Toy.alice Toy.bob (toy_stringify_well_formed _) toy_alice_valid) as (Hj & Hd).
  destruct (Hd (world ToyNet.bob_answers)) as (w' & Hd').
  destruct (request_without_text_is_dropped Toy.primitives ToyHost.host ToyNet.codec
              ToyNet.empty_request_event ToyNet.bob_answers _ _ _ w' ToyNet.empty_request
              (toy_event_carrying ToyNet.empty_request Toy.alice Toy.bob) Hj Hd'
              (toy_json_sound ToyNet.empty_request) eq_refl eq_refl
              (or_introl eq_refl)) as (_ & Hh & Hc & _).
  exact (conj Hh Hc).
Defined.

(** C7 at a link that was connected and then told to disconnect, before
    its socket has reported the close: [isConnected()] still answers true,
    and a [publish] ends in the timeout error. *)
Lemma publish_with_socket_gone_waits_for_timeout_witness :
  let st := ToyLink.closing in
  let p := (RelayClient.publish ToyHost.host ToyLink.event st).1 in
  let st' := (RelayClient.publish ToyHost.host ToyLink.event st).2 in
  RelayClient.isConnected st = true
  /\ RelayClient.ws st = None
  /\ RelayClient.promises st' !! p = None
  /\ RelayClient.ws st' = None
  /\ RelayClient.promises (RelayClient.fire 0 st') !! p
     = Some (RelayClient.Rejected "Publish timeout").
Proof.
  cbv zeta.
  destruct (publish_with_socket_gone_waits_for_timeout ToyHost.host ToyLink.event
              ToyLink.closing eq_refl eq_refl eq_refl) as (Hp & Hw & _ & _ & Hf).
  split; [reflexivity|]. split; [reflexivity|]. split; [exact Hp|]. split; [exact Hw|].
  exact Hf.
Defined.

(** ** Further properties at concrete inputs *)

(** The signature of the envelope Alice makes for Bob is her signature of
    ciphertext‖nonce. *)
Lemma sealed_signature_covers_nonce_witness :
  exists env w',
    Sealed.encryptMessage Toy.primitives "ping" Toy.alice (publicKey Toy.bob) Toy.world
    = (Returned env, w')
    /\ cryptoSign Toy.primitives
         (base64_decode Toy.primitives (Sealed.ciphertext env)
          ++ base64_decode Toy.primitives (Sealed.nonce env))
         (privateKey Toy.alice)
       = Returned (base64_decode Toy.primitives (Sealed.signature env)).
Proof.
  destruct (sealed_opens Toy.primitives "ping" Toy.alice (publicKey Toy.bob) Toy.world
              toy_base64_sound toy_sha256_sound toy_ed25519_sound toy_aead_sound
              toy_alice_valid) as (env & w' & Henc & _).
  exists env, w'. split; [exact Henc|].
  exact (sealed_signature_covers_nonce Toy.primitives "ping" Toy.alice (publicKey Toy.bob)
           Toy.world w' env toy_base64_sound Henc).
Defined.

(** The nonce of the envelope Alice makes for Bob is 12 bytes drawn in the
    call. *)
Lemma sealed_nonce_12_witness :
  exists env w',
    Sealed.encryptMessage Toy.primitives "ping" Toy.alice (publicKey Toy.bob) Toy.world
    = (Returned env, w')
    /\ length (base64_decode Toy.primitives (Sealed.nonce env)) = 12
    /\ cursor w' = cursor Toy.world + 32 + 12.
Proof.
  destruct (sealed_opens Toy.primitives "ping" Toy.alice (publicKey Toy.bob) Toy.world
              toy_base64_sound toy_sha256_sound toy_ed25519_sound toy_aead_sound
              toy_alice_valid) as (env & w' & Henc & _).
  exists env, w'. split; [exact Henc|].
  destruct (sealed_nonce_12 Toy.primitives "ping" Toy.alice (publicKey Toy.bob)
              Toy.world w' env Henc) as (Hlen & Hn & _ & Hc).
  split; [|exact Hc]. rewrite Hn, toy_base64_sound. exact Hlen.
Defined.

(** Bob is delivered an event whose envelope names Alice and carries a
    signature she did not make. *)
Lemma toy_forged_event_facts :
  JSON_parse ToyHost.host (Nostr.content ToyNet.forged_event)
  = Returned (envelope_to_json ToyNet.codec ToyNet.forged_envelope)
  /\ envelope_of_json ToyNet.codec (envelope_to_json ToyNet.codec ToyNet.forged_envelope)
     = Some ToyNet.forged_envelope
  /\ cryptoVerify Toy.primitives
       (base64_decode Toy.primitives (Sealed.ciphertext ToyNet.forged_envelope)
        ++ base64_decode Toy.primitives (Sealed.nonce ToyNet.forged_envelope))
       (Buffer_from_hex (Sealed.senderPubKey ToyNet.forged_envelope))
       (base64_decode Toy.primitives (Sealed.signature ToyNet.forged_envelope))
     = Returned false.
Proof.
  split; [apply toy_json_sound|]. split; [reflexivity|]. vm_compute. reflexivity.
Qed.

Lemma forged_event_never_reaches_handler_witness :
  let st' := handleEvent Toy.primitives ToyHost.host ToyNet.codec ToyNet.forged_event
               ToyNet.bob_answers in
  handled st' = [] /\ clients st' = [ToyNet.up] /\ settled st' = ∅.
Proof.
  cbv zeta. destruct toy_forged_event_facts as (Hparse & Henv & Hv).
  destruct (forged_event_never_reaches_handler Toy.primitives ToyHost.host
              ToyNet.forged_event ToyNet.bob_answers _ _ Hparse Henv Hv)
    as (_ & _ & Hh & Hc & Hs).
  exact (conj Hh (conj Hc Hs)).
Defined.

Lemma undecryptable_event_is_dropped_witness :
  let st' := handleEvent Toy.primitives ToyHost.host ToyNet.codec ToyNet.forged_event
               ToyNet.bob_fails in
  logged st' = [(Warn, "Failed to decrypt message: Invalid signature")]
  /\ handled st' = [] /\ pendingRequests st' = ∅.
Proof.
  cbv zeta. destruct toy_forged_event_facts as (Hparse & Henv & Hv).
  pose proof (sealed_decrypt_verifies_first Toy.primitives ToyNet.forged_envelope
                (keypair (config ToyNet.bob_fails)) (world ToyNet.bob_fails)) as Hd.
  cbv zeta in Hd. rewrite Hv in Hd.
  destruct (undecryptable_event_is_dropped Toy.primitives ToyHost.host ToyNet.codec
              ToyNet.forged_event ToyNet.bob_fails _ ToyNet.forged_envelope
              "Invalid signature" _ Hparse Henv Hd) as (Hl & Hh & _ & Hp & _).
  exact (conj Hl (conj Hh Hp)).
Defined.

(** Alice, with one link connected, sends [ping] with a deadline of 30
    seconds and gets no response. *)
Lemma send_deadline_resolves_with_timeout_witness :
  let r := send Toy.primitives ToyHost.host ToyNet.codec ToyNet.ping 30000
             ToyNet.alice_online in
  settled r.2 !! r.1 = None
  /\ settled (fire 0 r.2) !! r.1
     = Some (failure ("Request timed out after " +:+ pretty 30000%Z +:+ "ms")).
Proof.
  cbv zeta.
  destruct (toy_send_facts ToyNet.alice_online eq_refl eq_refl)
    as (env & w' & event & Henc & Hev & _).
  destruct (send_deadline_resolves_with_timeout Toy.primitives ToyHost.host ToyNet.codec
              ToyNet.ping 30000 ToyNet.alice_online env w' event eq_refl Henc Hev eq_refl)
    as (_ & _ & Hs & _ & Hf & _).
  exact (conj Hs Hf).
Defined.

(** A link that was never connected rejects a [publish] at once. *)
Lemma publish_not_connected_witness :
  let r := RelayClient.publish ToyHost.host ToyLink.event RelayClient.initial in
  RelayClient.promises r.2 !! r.1 = Some (RelayClient.Rejected "Not connected to relay")
  /\ RelayClient.ws r.2 = None.
Proof.
  cbv zeta.
  destruct (publish_not_connected ToyHost.host ToyLink.event RelayClient.initial
              eq_refl eq_refl) as (Hp & Hw & _).
  exact (conj Hp Hw).
Defined.

(** A connected link publishes the event and the relay refuses it. *)
Lemma publish_settles_on_acknowledgement_witness :
  let r := RelayClient.publish ToyHost.host ToyLink.event ToyLink.opened in
  let l := RelayClient.OnMessage "e1" r.1 0 in
  let st'' := RelayClient.run_listener ToyHost.host l
                (Some (JSON_stringify ToyHost.host ToyLink.refusal)) r.2 in
  RelayClient.registered l r.2 = true
  /\ RelayClient.promises st'' !! r.1
     = Some (RelayClient.Rejected (String_of ToyHost.host (Some (JStr "blocked")))).
Proof.
  cbv zeta.
  destruct (publish_settles_on_acknowledgement ToyHost.host ToyLink.event ToyLink.opened
              _ (JSON_stringify ToyHost.host ToyLink.refusal) ToyLink.refusal
              (Some (JBool false)) (Some (JStr "blocked"))
              eq_refl eq_refl eq_refl (toy_json_sound ToyLink.refusal)
              eq_refl eq_refl eq_refl eq_refl) as (Hr & Hp & _).
  exact (conj Hr Hp).
Defined.

(** A connected link publishes the event and the relay stays silent. *)
Lemma publish_rejects_at_deadline_witness :
  let r := RelayClient.publish ToyHost.host ToyLink.event ToyLink.opened in
  RelayClient.promises (RelayClient.fire 0 r.2) !! r.1
  = Some (RelayClient.Rejected "Publish timeout").
Proof.
  cbv zeta.
  exact (proj2 (publish_rejects_at_deadline ToyHost.host ToyLink.event ToyLink.opened
                  _ eq_refl eq_refl eq_refl)).
Defined.

(** * The further theorems at concrete inputs *)

(** ** The model of the platform satisfies the laws *)

Lemma toy_der_layout : KeypairStore.der_layout Toy.primitives ToyPlatform.platform.
Proof.
  intros seed Hseed. split; [reflexivity|]. split; [reflexivity|].
  eexists; eexists. cbn. auto.
Qed.

Lemma toy_public_key_32 : KeypairStore.public_key_32 Toy.primitives.
Proof. intros seed Hseed. exact Hseed. Qed.

Lemma toy_indented_sound : KeypairStore.indented_sound ToyHost.host ToyPlatform.platform.
Proof. intros v. split; [apply toy_stringify_well_formed|apply toy_json_sound]. Qed.

Lemma toy_write_spec (path data : string) (mode : Z) (d : gmap string (string * Z)) :
  let d' := (ToyPlatform.write path data mode d).2 in
  ToyPlatform.read path d' = (Returned data, d')
  /\ is_Some (d' !! path)
  /\ (d !! path = None -> snd <$> d' !! path = Some (Z.land mode (Z.lnot 18))).
Proof.
  unfold ToyPlatform.write, ToyPlatform.read, ToyPlatform.files. cbn [snd].
  destruct (d !! path) as [[old bits]|] eqn:Hd; rewrite lookup_insert_eq;
    (split; [reflexivity|]); (split; [eexists; reflexivity|]); intros Hnone;
    [discriminate|reflexivity].
Qed.

Lemma toy_disk_sound : KeypairStore.disk_sound ToyPlatform.platform.
Proof.
  split; [|split; [|split]].
  - intros path d r d' Heq. injection Heq as _ <-. reflexivity.
  - intros path data mode d d' Heq. injection Heq as <-.
    destruct (toy_write_spec path data mode d) as (Hr & Hs & _). split; [intros _; exact Hr|].
    apply orb_true_intro. left. apply bool_decide_eq_true. exact Hs.
  - intros path d r d' Heq. injection Heq as _ <-. reflexivity.
  - intros path data mode d d' Heq Hex. injection Heq as <-.
    apply orb_false_elim in Hex. destruct Hex as [Hex _].
    apply bool_decide_eq_false in Hex.
    destruct (toy_write_spec path data mode d) as (_ & _ & Hm).
    exists (Z.land mode (Z.lnot 18)). split.
    + apply Hm. apply eq_None_not_Some. exact Hex.
    + rewrite <- Z.land_assoc, (Z.land_comm (Z.lnot 18)), Z.land_assoc.
      rewrite Z.land_lnot_diag. reflexivity.
Qed.

(** On the model of the platform every directory exists and every write
    returns. *)
Lemma toy_save (kp : Keypair) (path : string) (env : KeypairStore.Env ToyPlatform.platform) :
  KeypairStore.saveKeypair ToyPlatform.platform kp path env
  = (Returned tt,
     @KeypairStore.Build_Env ToyPlatform.platform
       (ToyPlatform.write path (ToyHost.stringify (KeypairStore.key_file kp)) 384
          (KeypairStore.disk env)).2
       (KeypairStore.world env)).
Proof.
  unfold KeypairStore.saveKeypair, mbind, KeypairStore.IO_bind, KeypairStore.ask_disk,
    KeypairStore.on_disk.
  cbn [KeypairStore.existsSync KeypairStore.dirname ToyPlatform.platform].
  rewrite String.eqb_refl, orb_true_r. reflexivity.
Qed.

(** On the model of the platform a first call on an empty disk generates
    and returns, and the disk then holds the key file. *)
Lemma toy_first_call :
  exists kp env',
    KeypairStore.loadOrGenerateKeypair ToyHost.host ToyPlatform.platform ToyPlatform.path
      ToyPlatform.fresh = (Returned kp, env')
    /\ KeypairStore.existsSync ToyPlatform.platform ToyPlatform.path (KeypairStore.disk env')
       = true
    /\ KeypairStore.readFile ToyPlatform.platform ToyPlatform.path (KeypairStore.disk env')
       = (Returned (ToyHost.stringify (KeypairStore.key_file kp)), KeypairStore.disk env').
Proof.
  assert (Hgen : exists kp env1,
            KeypairStore.generateKeypair ToyPlatform.platform ToyPlatform.fresh
            = (Returned kp, env1)) by (eexists; eexists; reflexivity).
  destruct Hgen as (kp & env1 & Hgen).
  exists kp.
  exists (@KeypairStore.Build_Env ToyPlatform.platform
            (ToyPlatform.write ToyPlatform.path (ToyHost.stringify (KeypairStore.key_file kp))
               384 (KeypairStore.disk env1)).2
            (KeypairStore.world env1)).
  split.
  - unfold KeypairStore.loadOrGenerateKeypair, mbind, KeypairStore.IO_bind,
      KeypairStore.ask_disk.
    change (KeypairStore.existsSync ToyPlatform.platform ToyPlatform.path
              (KeypairStore.disk ToyPlatform.fresh)) with false.
    cbv iota beta. rewrite Hgen, toy_save. reflexivity.
  - destruct (toy_write_spec ToyPlatform.path
                (ToyHost.stringify (KeypairStore.key_file kp)) 384 (KeypairStore.disk env1))
      as (Hr & Hs & _).
    split; [|exact Hr].
    apply orb_true_intro. left. apply bool_decide_eq_true. exact Hs.
Qed.

Lemma generated_keypair_is_valid_witness :
  exists kp env',
    KeypairStore.generateKeypair ToyPlatform.platform ToyPlatform.fresh = (Returned kp, env')
    /\ valid_keypair Toy.primitives kp
    /\ length (publicKey kp) = 32
    /\ KeypairStore.makeEdPrivateKey_der (privateKey kp)
       = KeypairStore.pkcs8_of_seed ToyPlatform.platform (privateKey kp).
Proof.
  destruct (generated_keypair_is_valid Toy.primitives ToyPlatform.platform ToyPlatform.fresh
              toy_der_layout toy_public_key_32) as (kp & env' & Hgen & Hv & Hl & _).
  exists kp, env'. split; [exact Hgen|]. split; [exact Hv|]. split; [exact Hl|]. reflexivity.
Defined.

Lemma saved_keypair_loads_back_witness :
  exists env',
    KeypairStore.saveKeypair ToyPlatform.platform Toy.alice ToyPlatform.path ToyPlatform.fresh
    = (Returned tt, env')
    /\ KeypairStore.loadKeypair ToyHost.host ToyPlatform.platform ToyPlatform.path env'
       = (Returned Toy.alice, env').
Proof.
  eexists. split; [apply toy_save|].
  apply (saved_keypair_loads_back ToyHost.host ToyPlatform.platform Toy.alice ToyPlatform.path
           ToyPlatform.fresh _ toy_indented_sound toy_disk_sound).
  apply toy_save.
Defined.

Lemma identity_is_stable_witness :
  exists kp env',
    KeypairStore.loadOrGenerateKeypair ToyHost.host ToyPlatform.platform ToyPlatform.path
      ToyPlatform.fresh = (Returned kp, env')
    /\ KeypairStore.loadOrGenerateKeypair ToyHost.host ToyPlatform.platform ToyPlatform.path
         env' = (Returned kp, env').
Proof.
  destruct toy_first_call as (kp & env' & Hfirst & _).
  exists kp, env'. split; [exact Hfirst|].
  exact (identity_is_stable ToyHost.host ToyPlatform.platform ToyPlatform.path
           ToyPlatform.fresh env' kp toy_indented_sound toy_disk_sound Hfirst).
Defined.

Lemma generated_key_file_is_private_witness :
  exists kp env' bits,
    KeypairStore.loadOrGenerateKeypair ToyHost.host ToyPlatform.platform ToyPlatform.path
      ToyPlatform.fresh = (Returned kp, env')
    /\ KeypairStore.mode_of ToyPlatform.platform ToyPlatform.path (KeypairStore.disk env')
       = Some bits
    /\ Z.land bits 63 = 0%Z.
Proof.
  destruct toy_first_call as (kp & env' & Hfirst & _).
  destruct (generated_key_file_is_private ToyHost.host ToyPlatform.platform ToyPlatform.path
              ToyPlatform.fresh env' kp toy_disk_sound eq_refl Hfirst) as (bits & Hb & Hl).
  exists kp, env', bits. auto.
Defined.

(** The disk after a first call holds the key file; a second call takes
    it as it is. *)
Lemma existing_key_file_is_taken_as_it_is_witness :
  exists kp env,
    KeypairStore.existsSync ToyPlatform.platform ToyPlatform.path (KeypairStore.disk env) = true
    /\ KeypairStore.loadOrGenerateKeypair ToyHost.host ToyPlatform.platform
         ToyPlatform.path env = (Returned kp, env).
Proof.
  destruct toy_first_call as (kp & env & _ & Hex & Hread).
  exists kp, env. split; [exact Hex|].
  destruct (KeypairStore.loadOrGenerateKeypair ToyHost.host ToyPlatform.platform
              ToyPlatform.path env) as [r env'] eqn:Hsecond.
  destruct (existing_key_file_is_taken_as_it_is ToyHost.host ToyPlatform.platform
              ToyPlatform.path env env' r toy_disk_sound Hex Hsecond) as (Henv & Hr).
  rewrite Henv.
  rewrite (Hr _ (KeypairStore.key_file kp) _ _ Hread
             (toy_json_sound (KeypairStore.key_file kp)) eq_refl eq_refl).
  rewrite !Buffer_from_hex_toString. destruct kp. reflexivity.
Defined.

(** Two calls that overlap on the empty disk. *)
Lemma overlapping_calls_give_two_identities_witness :
  exists p1 env1 p2 env2 kp2 env3 kp1 env4,
    KeypairStore.loadOrGenerateKeypair_begin ToyHost.host ToyPlatform.platform
      ToyPlatform.path ToyPlatform.fresh = (Returned p1, env1)
    /\ KeypairStore.loadOrGenerateKeypair_begin ToyHost.host ToyPlatform.platform
         ToyPlatform.path env1 = (Returned p2, env2)
    /\ KeypairStore.loadOrGenerateKeypair_resume ToyPlatform.platform ToyPlatform.path p2 env2
       = (Returned kp2, env3)
    /\ KeypairStore.loadOrGenerateKeypair_resume ToyPlatform.platform ToyPlatform.path p1 env3
       = (Returned kp1, env4)
    /\ kp1 <> kp2
    /\ KeypairStore.loadKeypair ToyHost.host ToyPlatform.platform ToyPlatform.path env4
       = (Returned kp1, env4).
Proof.
  do 8 eexists.
  split; [reflexivity|]. split; [reflexivity|]. split; [reflexivity|]. split; [reflexivity|].
  refine (proj2 (proj2
    (overlapping_calls_give_two_identities Toy.primitives ToyHost.host ToyPlatform.platform
       ToyPlatform.path ToyPlatform.fresh toy_der_layout toy_indented_sound toy_disk_sound
       eq_refl _ _ _ _ _ _ _ _ _ eq_refl eq_refl eq_refl eq_refl))).
  intros Heq. vm_compute in Heq. discriminate Heq.
Defined.

(** ** The codecs and the wire events *)

Lemma sealed_envelope_opens_without_private_key_witness :
  exists env w',
    Sealed.encryptMessage Toy.primitives "ping" Toy.alice (publicKey Toy.bob) Toy.world
    = (Returned env, w')
    /\ (Sealed.decryptMessage Toy.primitives env
          {| publicKey := publicKey Toy.bob; privateKey := [] |} Toy.world).1
       = Returned (Success "ping").
Proof.
  destruct (proj2 (sealed_envelope_opens_without_private_key Toy.primitives "ping" Toy.alice
                     (publicKey Toy.bob) Toy.world toy_base64_sound toy_sha256_sound
                     toy_ed25519_sound toy_aead_sound toy_alice_valid))
    as (env & w' & Henc & Hdec).
  exists env, w'. split; [exact Henc|].
  destruct (Hdec [] Toy.world) as [_ Hopened]. apply Hopened. reflexivity.
Defined.

Lemma created_event_is_consistent_witness :
  exists e,
    createNostrEvent Toy.primitives ToyHost.host 4 "c" [] (privateKey Toy.alice)
      1700000000999 = Returned e
    /\ String.length (Nostr.id e) = 64
    /\ (Nostr.created_at e * 1000 <= 1700000000999 < Nostr.created_at e * 1000 + 1000)%Z.
Proof.
  destruct (createNostrEvent_signs Toy.primitives ToyHost.host Toy.alice 4 "c" []
              1700000000999 (toy_signs_events Toy.alice)) as (e & He & _).
  exists e. split; [exact He|].
  destruct (proj1 (created_event_is_consistent Toy.primitives ToyHost.host 4 "c" []
                     (privateKey Toy.alice) 1700000000999 toy_sha256_sound) e He)
    as (Hid & _ & _ & _ & Ht & _).
  exact (conj Hid Ht).
Defined.

(** ** The orchestrator *)

(** Alice disconnects while she waits for the response to [msg-1]. *)
Lemma disconnect_resolves_every_pending_request_witness :
  let st' := disconnect ToyNet.alice_waiting in
  settled st' !! 0 = Some (failure "Transport disconnected")
  /\ pendingRequests st' = ∅
  /\ clients st' = []
  /\ fire 0 st' = st'.
Proof.
  cbv zeta.
  destruct (disconnect_resolves_every_pending_request ToyHost.host ToyNet.alice_waiting
              "msg-1" {| resolve := 0; timeout := 0 |} eq_refl eq_refl)
    as (Hs & _ & Hp & Hc & _ & _ & Hf).
  exact (conj Hs (conj Hp (conj Hc Hf))).
Defined.

Lemma toy_names_sender : names_sender ToyNet.codec.
Proof. apply sealed_codec_names_sender. Qed.

(** Alice sends [ping] to Bob, whose handler answers [pong]. *)
Lemma message_round_trip_witness :
  let r := send Toy.primitives ToyHost.host ToyNet.codec ToyNet.ping 30000
             ToyNet.alice_online in
  exists request reply,
    handled (handleEvent Toy.primitives ToyHost.host ToyNet.codec request ToyNet.bob_answers)
    = [Delivery.incoming ToyNet.ping "agent"]
    /\ settled (handleEvent Toy.primitives ToyHost.host ToyNet.codec reply r.2) !! r.1
       = Some {| success := true; taskId := Some (JStr (task_id ToyNet.bob_answers));
                 response := Some (JStr "pong"); error := None |}.
Proof.
  cbv zeta.
  destruct (message_round_trip Toy.primitives ToyHost.host ToyNet.codec
              (valid_keypair Toy.primitives) ToyNet.alice_online ToyNet.bob_answers
              ToyNet.ping 30000 "pong" None
              toy_json_sound toy_stringify_well_formed toy_codec_sound toy_names_sender
              (toy_signs_events Toy.alice) (toy_signs_events Toy.bob)
              toy_alice_valid toy_bob_valid
              (Buffer_from_hex_toString (publicKey Toy.bob))
              ltac:(discriminate) eq_refl eq_refl eq_refl)
    as (request & reply & _ & _ & Hh & _ & _ & Hs & _).
  exists request, reply. split; [exact Hh|exact Hs].
Defined.

(** Alice sends a message without text to Bob. *)
Lemma empty_text_message_is_dropped_by_recipient_witness :
  let r := send Toy.primitives ToyHost.host ToyNet.codec ToyNet.blank 30000
             ToyNet.alice_online in
  exists request,
    clients r.2 = map (publish_to request) (clients ToyNet.alice_online)
    /\ settled r.2 !! r.1 = None
    /\ handled (handleEvent Toy.primitives ToyHost.host ToyNet.codec request
                  ToyNet.bob_answers) = []
    /\ clients (handleEvent Toy.primitives ToyHost.host ToyNet.codec request
                  ToyNet.bob_answers) = [ToyNet.up].
Proof.
  cbv zeta.
  destruct (empty_text_message_is_dropped_by_recipient Toy.primitives ToyHost.host
              ToyNet.codec (valid_keypair Toy.primitives) ToyNet.alice_online
              ToyNet.bob_answers ToyNet.blank 30000
              toy_json_sound toy_stringify_well_formed toy_codec_sound
              (toy_signs_events Toy.alice) toy_alice_valid
              (Buffer_from_hex_toString (publicKey Toy.bob)) eq_refl eq_refl eq_refl)
    as (request & Hc & Hs & _ & Hh & Hcb & _).
  exists request. auto.
Defined.

(** Alice sends with a codec that refuses her key. *)
Lemma send_encryption_failure_is_reported_witness :
  let r := send Toy.primitives ToyHost.host ToyNet.refusing ToyNet.ping 30000
             ToyNet.alice_online in
  settled r.2 !! r.1 = Some (failure "Unsupported key")
  /\ pendingRequests r.2 = ∅
  /\ timers r.2 = ∅.
Proof.
  cbv zeta.
  destruct (send_encryption_failure_is_reported Toy.primitives ToyHost.host ToyNet.refusing
              ToyNet.ping 30000 ToyNet.alice_online "Unsupported key" Toy.world
              eq_refl eq_refl) as (Hs & Hp & Ht & _).
  exact (conj Hs (conj Hp Ht)).
Defined.

(** What Alice makes of the event that carries an error for [msg-1]. *)
Lemma toy_error_event_facts :
  let env := ToyNet.envelope_for (JSON_stringify ToyHost.host ToyNet.an_error) Toy.bob
               (publicKey Toy.alice) in
  JSON_parse ToyHost.host (Nostr.content ToyNet.error_event)
  = Returned (envelope_to_json ToyNet.codec env)
  /\ envelope_of_json ToyNet.codec (envelope_to_json ToyNet.codec env) = Some env
  /\ (forall w, exists w',
        decryptMessage ToyNet.codec env Toy.alice w
        = (Returned (Success (JSON_stringify ToyHost.host ToyNet.an_error)), w')).
Proof.
  cbv zeta.
  destruct (toy_envelope_for (JSON_stringify ToyHost.host ToyNet.an_error) Toy.bob Toy.alice
              (toy_stringify_well_formed _) toy_bob_valid) as (Hj & Hd).
  split; [apply toy_event_carrying|]. split; [exact Hj|exact Hd].
Qed.

Lemma error_response_resolves_with_failure_witness :
  let st' := handleEvent Toy.primitives ToyHost.host ToyNet.codec ToyNet.error_event
               ToyNet.alice_waiting in
  settled st' !! 0
  = Some (failure (String_of ToyHost.host (Some (JNum (-32603))) +:+ ": "
                   +:+ String_of ToyHost.host (Some (JStr "Internal error"))))
  /\ pendingRequests st' !! "msg-1" = None.
Proof.
  cbv zeta. destruct toy_error_event_facts as (Hparse & Henv & Hdec).
  destruct (Hdec (world ToyNet.alice_waiting)) as (w' & Hd).
  destruct (error_response_resolves_with_failure Toy.primitives ToyHost.host ToyNet.codec
              ToyNet.error_event ToyNet.alice_waiting _ _ _ w' ToyNet.an_error "msg-1"
              {| resolve := 0; timeout := 0 |}
              Hparse Henv Hd (toy_json_sound ToyNet.an_error) eq_refl eq_refl eq_refl eq_refl)
    as (Hs & Hp & _).
  exact (conj Hs Hp).
Defined.

(** Bob's handler is called for Alice's request event. *)
Lemma handler_runs_only_for_decrypted_requests_witness :
  exists plaintext req,
    JSON_parse ToyHost.host plaintext = Returned req
    /\ is_string (get_opt (Some req) "method") "message/send" = true
    /\ handled (handleEvent Toy.primitives ToyHost.host ToyNet.codec ToyNet.request_event
                  ToyNet.bob_answers) <> [].
Proof.
  destruct toy_request_event_facts as (Hparse & Henv & Hdec & Hjson & Hin).
  destruct (Hdec (world ToyNet.bob_answers)) as (w1 & Hd1).
  assert (Hh : handled (handleEvent Toy.primitives ToyHost.host ToyNet.codec
                          ToyNet.request_event ToyNet.bob_answers)
               = handled ToyNet.bob_answers ++ [ToyNet.call]).
  { apply (request_event_invokes_handler Toy.primitives ToyHost.host ToyNet.codec
             ToyNet.request_event ToyNet.bob_answers _ _ _ w1 ToyNet.request ToyNet.call
             Hparse Henv Hd1 Hjson eq_refl eq_refl Hin). }
  assert (Hne : handled (handleEvent Toy.primitives ToyHost.host ToyNet.codec
                           ToyNet.request_event ToyNet.bob_answers)
                <> handled ToyNet.bob_answers).
  { rewrite Hh. discriminate. }
  assert (Hfields : forall encrypted,
             JSON_parse ToyHost.host (Nostr.content ToyNet.request_event) = Returned encrypted ->
             is_Some (envelope_of_json ToyNet.codec encrypted)).
  { intros encrypted He. rewrite Hparse in He. injection He as He. subst encrypted.
    eexists. exact Henv. }
  destruct (handler_runs_only_for_decrypted_requests Toy.primitives ToyHost.host ToyNet.codec
              ToyNet.request_event ToyNet.bob_answers Hfields (or_introl Hne))
    as (encrypted & env & plaintext & w' & req & call & _ & _ & _ & Hp & _ & Hm & _ & _).
  exists plaintext, req. split; [exact Hp|]. split; [exact Hm|exact Hne].
Defined.

(** Alice and Bob over the codec of [src/relay/encryption.ts]: Alice's
    [send] fails within the call and Bob drops her request event. *)
Lemma transport_over_encryption_ts_is_mute_witness :
  let r := send Toy.primitives ToyHost.host (ecdh_codec Toy.primitives) ToyNet.ping 30000
             ToyNet.alice_online in
  (exists error, settled r.2 !! r.1 = Some (failure error))
  /\ clients r.2 = clients ToyNet.alice_online
  /\ handled (handleEvent Toy.primitives ToyHost.host (ecdh_codec Toy.primitives)
                ToyNet.request_event ToyNet.bob_answers) = handled ToyNet.bob_answers.
Proof.
  cbv zeta.
  destruct (transport_over_encryption_ts_is_mute Toy.primitives ToyHost.host)
    as (Hsend & Hevent).
  destruct (Hsend ToyNet.ping 30000%Z ToyNet.alice_online eq_refl) as (Hs & _ & _ & Hc & _).
  destruct (Hevent ToyNet.request_event ToyNet.bob_answers) as (Hh & _).
  exact (conj Hs (conj Hc Hh)).
Defined.

(** ** One relay link *)

Lemma subscribe_keeps_a_map_witness :
  let st' := RelayClient.subscribe ToyHost.host "sub-1" (JObj []) RelayClient.initial in
  ("sub-1", JObj []) ∈ RelayClient.subscriptions st'
  /\ RelayClient.ws st' = None.
Proof.
  cbv zeta.
  destruct (subscribe_keeps_a_map ToyHost.host "sub-1" (JObj []) RelayClient.initial
              (NoDup_nil_2 : NoDup (RelayClient.subscriptions RelayClient.initial).*1))
    as (_ & Hin & _ & Hws).
  split; [exact Hin|]. exact (Hws eq_refl).
Defined.

Lemma disconnect_stops_reconnection_witness :
  let st' := RelayClient.on_close (RelayClient.disconnect ToyLink.waiting) in
  RelayClient.reconnectTimer ToyLink.waiting = Some 0
  /\ RelayClient.connected st' = false
  /\ RelayClient.autoReconnect st' = false
  /\ RelayClient.reconnectTimer st' = None
  /\ RelayClient.timers st' !! 0 = None.
Proof.
  cbv zeta.
  assert (Hinv : forall t tm, RelayClient.timers ToyLink.waiting !! t = Some tm ->
                   RelayClient.callback tm = RelayClient.Reconnect ->
                   RelayClient.reconnectTimer ToyLink.waiting = Some t).
  { intros t tm Ht _.
    change (RelayClient.timers ToyLink.waiting)
      with (<[0 := {| RelayClient.delay := 3000; RelayClient.callback := RelayClient.Reconnect |}]>
              (∅ : gmap nat RelayClient.Timer)) in Ht.
    destruct (decide (t = 0)) as [->|Hne]; [reflexivity|].
    rewrite lookup_insert_ne, lookup_empty in Ht by congruence. discriminate Ht. }
  destruct (disconnect_stops_reconnection ToyLink.waiting Hinv)
    as (Hc & _ & Ha & Hr & _ & _).
  split; [reflexivity|]. split; [exact Hc|]. split; [exact Ha|]. split; [exact Hr|].
  reflexivity.
Defined.

Lemma lost_connection_is_restored_witness :
  let st2 := RelayClient.on_open ToyHost.host
               (RelayClient.fire 0 (RelayClient.on_close ToyLink.opened)) in
  RelayClient.connected (RelayClient.on_close ToyLink.opened) = false
  /\ RelayClient.connected st2 = true
  /\ RelayClient.reconnectTimer st2 = None.
Proof.
  cbv zeta.
  destruct (lost_connection_is_restored ToyHost.host ToyLink.opened eq_refl eq_refl)
    as (Hc1 & _ & _ & _ & Hc2 & Hr & _).
  exact (conj Hc1 (conj Hc2 Hr)).
Defined.

Lemma inbound_event_is_emitted_once_witness :
  RelayClient.on_message ToyHost.host (Some (JSON_stringify ToyHost.host ToyLink.inbound))
    ToyLink.opened
  = RelayClient.emit
      (RelayClient.EmitEvent (Some (JObj [("id", JStr "e2"); ("kind", JNum 4)])))
      ToyLink.opened.
Proof.
  exact (inbound_event_is_emitted_once ToyHost.host ToyLink.opened _ [] _ _ _ []
           eq_refl eq_refl (not_elem_of_nil _) (toy_json_sound ToyLink.inbound)).
Defined.
